(** * Trilium: tree mutation engine, consistency checker, attribute resolver

    A shallow embedding of
    - [src/services/notes.js] (create / update / delete / undelete /
      duplicate),
    - [src/services/consistency_checks.js] (the batch checker), and
    - the front-end [NoteShort] entity (attribute inheritance with
      template relations and the shared memoization cache),
    together with the properties the specification states about them.

    SQL tables are lists of rows in table order; an entity object read from
    the store is a copy of its row (a snapshot), and [save] writes that copy
    back by primary key.  The cache of the front end is a [gmap]; an object
    literal used as a dictionary is the list of its own properties in
    insertion order, read with the members it inherits from
    [Object.prototype]. *)

From Stdlib Require Import ZArith List String Ascii Bool Lia DecimalString DecimalNat.
From stdpp Require Import gmap strings.
Import ListNotations.

Local Open Scope string_scope.
Local Open Scope Z_scope.
Local Open Scope list_scope.

(** ** Outcomes of fallible, possibly non-terminating code *)

Inductive Result (A : Type) : Type :=
| Return (a : A)
| Throw (msg : string)
| OutOfFuel.
Arguments Return {A} a.
Arguments Throw {A} msg.
Arguments OutOfFuel {A}.

Definition bind {A B} (r : Result A) (k : A -> Result B) : Result B :=
  match r with
  | Return a => k a
  | Throw m => Throw m
  | OutOfFuel => OutOfFuel
  end.

Notation "x <- r ;; k" := (bind r (fun x => k))
  (at level 100, r at next level, right associativity, only parsing).

(** [for (const x of l) { f(x) }] over a store that [f] mutates. *)
Fixpoint forEach {A S} (f : A -> S -> Result S) (l : list A) (s : S) : Result S :=
  match l with
  | [] => Return s
  | x :: l' => s1 <- f x s ;; forEach f l' s1
  end.

(** ** Entities (rows of the persisted layout) *)

Record Note := mkNote {
  noteId : string;
  title : string;
  type : string;
  mime : string;
  isProtected : bool;
  n_isDeleted : bool;
  n_deleteId : option string;
  utcDateCreated : Z
}.

Record Branch := mkBranch {
  branchId : string;
  b_noteId : string;
  parentNoteId : string;
  notePosition : Z;
  prefix : string;
  isExpanded : bool;
  b_isDeleted : bool;
  b_deleteId : option string
}.

Record Attribute := mkAttribute {
  attributeId : string;
  a_noteId : string;
  a_type : string;
  name : string;
  value : string;
  position : Z;
  isInheritable : bool;
  a_isDeleted : bool;
  a_deleteId : option string
}.

Record NoteRevision := mkNoteRevision {
  noteRevisionId : string;
  r_noteId : string;
  r_isProtected : bool;
  r_utcDateCreated : Z
}.

(** One record of the append-only change journal. *)
Record EntityChange := mkEntityChange {
  entityName : string;
  entityId : string;
  isErased : bool
}.

Record Store := mkStore {
  notes : list Note;
  note_contents : list (string * option string);
  branches : list Branch;
  attributes : list Attribute;
  note_revisions : list NoteRevision;
  note_revision_contents : list string;
  api_tokens : list string;
  options : list (string * bool);
  entity_changes : list EntityChange;
  (** source of [utils.newEntityId()] *)
  idSeed : nat;
  (** [taskContext.increaseProgressCount()] *)
  progressCount : nat
}.

(** The ambient session: [cls.getHoistedNoteId()], the protected session,
    the clock and the revision interval option (in seconds). *)
Record Session := mkSession {
  hoistedNoteId : string;
  protectedSessionAvailable : bool;
  now : Z;
  noteRevisionSnapshotTimeInterval : Z
}.

Definition setNotes (f : list Note -> list Note) (s : Store) : Store :=
  mkStore (f (notes s)) (note_contents s) (branches s) (attributes s)
    (note_revisions s) (note_revision_contents s) (api_tokens s) (options s)
    (entity_changes s) (idSeed s) (progressCount s).

Definition setNoteContents (f : list (string * option string) -> list (string * option string))
    (s : Store) : Store :=
  mkStore (notes s) (f (note_contents s)) (branches s) (attributes s)
    (note_revisions s) (note_revision_contents s) (api_tokens s) (options s)
    (entity_changes s) (idSeed s) (progressCount s).

Definition setBranches (f : list Branch -> list Branch) (s : Store) : Store :=
  mkStore (notes s) (note_contents s) (f (branches s)) (attributes s)
    (note_revisions s) (note_revision_contents s) (api_tokens s) (options s)
    (entity_changes s) (idSeed s) (progressCount s).

Definition setAttributes (f : list Attribute -> list Attribute) (s : Store) : Store :=
  mkStore (notes s) (note_contents s) (branches s) (f (attributes s))
    (note_revisions s) (note_revision_contents s) (api_tokens s) (options s)
    (entity_changes s) (idSeed s) (progressCount s).

Definition setNoteRevisions (f : list NoteRevision -> list NoteRevision) (s : Store) : Store :=
  mkStore (notes s) (note_contents s) (branches s) (attributes s)
    (f (note_revisions s)) (note_revision_contents s) (api_tokens s) (options s)
    (entity_changes s) (idSeed s) (progressCount s).

Definition setNoteRevisionContents (f : list string -> list string) (s : Store) : Store :=
  mkStore (notes s) (note_contents s) (branches s) (attributes s)
    (note_revisions s) (f (note_revision_contents s)) (api_tokens s) (options s)
    (entity_changes s) (idSeed s) (progressCount s).

Definition setEntityChanges (f : list EntityChange -> list EntityChange) (s : Store) : Store :=
  mkStore (notes s) (note_contents s) (branches s) (attributes s)
    (note_revisions s) (note_revision_contents s) (api_tokens s) (options s)
    (f (entity_changes s)) (idSeed s) (progressCount s).

Definition setIdSeed (n : nat) (s : Store) : Store :=
  mkStore (notes s) (note_contents s) (branches s) (attributes s)
    (note_revisions s) (note_revision_contents s) (api_tokens s) (options s)
    (entity_changes s) n (progressCount s).

Definition increaseProgressCount (s : Store) : Store :=
  mkStore (notes s) (note_contents s) (branches s) (attributes s)
    (note_revisions s) (note_revision_contents s) (api_tokens s) (options s)
    (entity_changes s) (idSeed s) (S (progressCount s)).

(** ** The storage collaborator *)

(** Write a row back by primary key: replace it in place, or append it. *)
Definition upsert {A} (key : A -> string) (x : A) (l : list A) : list A :=
  if existsb (fun y => String.eqb (key y) (key x)) l
  then map (fun y => if String.eqb (key y) (key x) then x else y) l
  else l ++ [x].

(** ** Plain objects used as dictionaries

    An object literal [{}] keeps its own properties in insertion order and
    inherits the members of [Object.prototype]. *)

Definition objectPrototypeKeys : list string :=
  ["constructor"; "__defineGetter__"; "__defineSetter__"; "hasOwnProperty";
   "__lookupGetter__"; "__lookupSetter__"; "isPrototypeOf"; "propertyIsEnumerable";
   "toString"; "valueOf"; "__proto__"; "toLocaleString"].

Definition isPrototypeKey (k : string) : bool :=
  existsb (String.eqb k) objectPrototypeKeys.

Definition JsObject (V : Type) : Type := list (string * V).

(** What [o[k]] finds. *)
Inductive Property (V : Type) : Type :=
| Own (v : V)
| Inherited
| Undefined.
Arguments Own {V} v.
Arguments Inherited {V}.
Arguments Undefined {V}.

Definition hasOwn {V} (k : string) (o : JsObject V) : bool :=
  existsb (fun kv => String.eqb (fst kv) k) o.

(** [o[k]] *)
Definition jsGet {V} (k : string) (o : JsObject V) : Property V :=
  match List.find (fun kv => String.eqb (fst kv) k) o with
  | Some kv => Own (snd kv)
  | None => if isPrototypeKey k then Inherited else Undefined
  end.

(** [k in o] *)
Definition jsIn {V} (k : string) (o : JsObject V) : bool :=
  hasOwn k o || isPrototypeKey k.

(** [o[k] = v] for a value [v] that is no object: the setter of
    [__proto__] ignores it, any other key becomes an own property. *)
Definition jsSet {V} (k : string) (v : V) (o : JsObject V) : JsObject V :=
  if String.eqb k "__proto__" then o else upsert fst (k, v) o.

(** An array index: the canonical decimal form of a number below 2^32 - 1. *)
Definition arrayIndex (k : string) : option N :=
  match NilEmpty.uint_of_string k with
  | Some u =>
    let n := N.of_uint u in
    if String.eqb (NilEmpty.string_of_uint (N.to_uint n)) k && (n <? 2 ^ 32 - 1)%N
    then Some n
    else None
  | None => None
  end.

Fixpoint insertByIndex (x : N * string) (l : list (N * string)) : list (N * string) :=
  match l with
  | [] => [x]
  | y :: l' => if (fst x <? fst y)%N then x :: y :: l' else y :: insertByIndex x l'
  end.

(** [Object.keys(o)]: the array indices in ascending order, then the other
    keys in insertion order. *)
Definition objectKeys {V} (o : JsObject V) : list string :=
  map snd
    (fold_right insertByIndex []
       (flat_map (fun kv => match arrayIndex (fst kv) with
                            | Some n => [(n, fst kv)]
                            | None => []
                            end) o))
  ++ map fst (List.filter (fun kv => match arrayIndex (fst kv) with
                                     | Some _ => false
                                     | None => true
                                     end) o).

(** The text that a member of [Object.prototype] becomes where a string is
    expected. *)
Definition memberText (k : string) : string :=
  if String.eqb k "__proto__" then "[object Object]"
  else if String.eqb k "constructor" then "function Object() { [native code] }"
  else ("function " ++ k ++ "() { [native code] }")%string.

(** Modelled from the spec: the change journal of the sync collaborator,
    [append(entityName, entityId, ...)], one record per mutation. *)
Definition addEntityChange (en id : string) (s : Store) : Store :=
  setEntityChanges (fun l => l ++ [mkEntityChange en id false]) s.

(** Modelled from the spec: [entity.save()] of the storage collaborator, an
    upsert of the entity's row followed by its change record. *)
Definition saveNote (n : Note) (s : Store) : Store :=
  addEntityChange "notes" (noteId n) (setNotes (upsert noteId n) s).

Definition saveBranch (b : Branch) (s : Store) : Store :=
  addEntityChange "branches" (branchId b) (setBranches (upsert branchId b) s).

Definition saveAttribute (a : Attribute) (s : Store) : Store :=
  addEntityChange "attributes" (attributeId a) (setAttributes (upsert attributeId a) s).

(** Modelled from the spec: [note.setContent(content)]. *)
Definition setContent (id : string) (c : option string) (s : Store) : Store :=
  addEntityChange "note_contents" id (setNoteContents (upsert fst (id, c)) s).

(** Modelled from the spec: generate-id of the storage collaborator; the
    random identifier is replaced by a counter kept in the store. *)
Definition newEntityId (s : Store) : string * Store :=
  ("id" ++ NilEmpty.string_of_uint (Nat.to_uint (idSeed s)), setIdSeed (S (idSeed s)) s)%string.

(** [repository.getNote(noteId)]: the row with that key, deleted or not. *)
Definition getNote (id : string) (s : Store) : option Note :=
  List.find (fun n => String.eqb (noteId n) id) (notes s).

Definition getBranch (id : string) (s : Store) : option Branch :=
  List.find (fun b => String.eqb (branchId b) id) (branches s).

Definition getAttribute (id : string) (s : Store) : option Attribute :=
  List.find (fun a => String.eqb (attributeId a) id) (attributes s).

(** Modelled from the spec: [note.getBranches()], the note's non-deleted
    branches (the source binds the result to [notDeletedBranches]). *)
Definition getBranches (id : string) (s : Store) : list Branch :=
  List.filter (fun b => negb (b_isDeleted b) && String.eqb (b_noteId b) id) (branches s).

(** Modelled from the spec: [note.getChildBranches()], the non-deleted
    branches placed under the note. *)
Definition getChildBranches (id : string) (s : Store) : list Branch :=
  List.filter (fun b => negb (b_isDeleted b) && String.eqb (parentNoteId b) id) (branches s).

(** Modelled from the spec: [note.getOwnedAttributes()], the non-deleted
    attributes the note owns. *)
Definition getOwnedAttributes (id : string) (s : Store) : list Attribute :=
  List.filter (fun a => negb (a_isDeleted a) && String.eqb (a_noteId a) id) (attributes s).

(** Modelled from the spec: [note.getTargetRelations()], the non-deleted
    relations whose value is the note. *)
Definition getTargetRelations (id : string) (s : Store) : list Attribute :=
  List.filter (fun a => negb (a_isDeleted a) && String.eqb (a_type a) "relation"
                        && String.eqb (value a) id) (attributes s).

(** ** notes.js *)

(** SQL [MAX] over a column: [NULL] on no rows. *)
Definition sqlMax (l : list Z) : option Z :=
  match l with
  | [] => None
  | x :: l' => Some (fold_left Z.max l' x)
  end.

(** An integer column read as a JS number: the nearest double, ties to
    even.  Integers up to [2^53] in absolute value are read exactly. *)
Definition toNumber (z : Z) : Z :=
  let a := Z.abs z in
  if a <=? 2 ^ 53 then z
  else
    let q := 2 ^ (Z.log2 a - 52) in
    let m := a / q in
    let r := a mod q in
    let m' := if 2 * r <? q then m
              else if q <? 2 * r then m + 1
              else if Z.even m then m else m + 1 in
    Z.sgn z * (m' * q).

(** [x + y] on JS numbers that hold integers. *)
Definition jsAdd (x y : Z) : Z := toNumber (x + y).

Definition getNewNotePosition (parentId : string) (s : Store) : Z :=
  let maxNotePos :=
    sqlMax (map notePosition
      (List.filter (fun b => String.eqb (parentNoteId b) parentId && negb (b_isDeleted b))
         (branches s))) in
  match maxNotePos with
  | None => 0
  | Some m => jsAdd (toNumber m) 10
  end.

Definition deriveMime (type mime : string) : Result string :=
  if String.eqb type "" then Throw "Note type is a required param"
  else if negb (String.eqb mime "") then Return mime
  else if String.eqb type "text" then Return "text/html"
  else if String.eqb type "code" then Return "text/plain"
  else if existsb (String.eqb type) ["relation-map"; "search"; "canvas-note"]
    then Return "application/json"
  else if existsb (String.eqb type) ["render"; "book"] then Return ""
  else Return "application/octet-stream".

(** [params] of [createNewNote]; an empty string stands for an absent
    (falsy) [type] or [mime], [None] for an [undefined] field. *)
Record NoteParams := mkNoteParams {
  p_parentNoteId : string;
  p_title : string;
  p_content : string;
  p_type : string;
  p_mime : string;
  p_isProtected : bool;
  p_isExpanded : bool;
  p_prefix : string;
  p_notePosition : option Z;
  p_noteId : option string
}.

(** White space and line terminators of one byte: space, tab, line feed,
    vertical tab, form feed, carriage return. *)
Definition isWhiteSpace (c : ascii) : bool :=
  existsb (Ascii.eqb c) [" "%char; "009"%char; "010"%char; "011"%char; "012"%char; "013"%char].

(** Those of two and three bytes, in the UTF-8 form in which the store holds
    text: U+00A0; U+1680, U+2000 to U+200A, U+2028, U+2029, U+202F, U+205F,
    U+3000 and U+FEFF. *)
Definition isWhiteSpace2 (a b : ascii) : bool :=
  (N_of_ascii a =? 194)%N && (N_of_ascii b =? 160)%N.

Definition isWhiteSpace3 (a b c : ascii) : bool :=
  let '(a, b, c) := (N_of_ascii a, N_of_ascii b, N_of_ascii c) in
  ((a =? 225) && (b =? 154) && (c =? 128)
   || (a =? 226) && (b =? 128)
      && ((128 <=? c) && (c <=? 138) || (c =? 168) || (c =? 169) || (c =? 175))
   || (a =? 226) && (b =? 129) && (c =? 159)
   || (a =? 227) && (b =? 128) && (c =? 128)
   || (a =? 239) && (b =? 187) && (c =? 191))%N.

Fixpoint allWhiteSpace (l : list ascii) : bool :=
  match l with
  | [] => true
  | a :: l1 =>
    if isWhiteSpace a then allWhiteSpace l1
    else
      match l1 with
      | [] => false
      | b :: l2 =>
        if isWhiteSpace2 a b then allWhiteSpace l2
        else
          match l2 with
          | [] => false
          | c :: l3 => if isWhiteSpace3 a b c then allWhiteSpace l3 else false
          end
      end
  end.

(** [title.trim().length === 0]: [trim] strips every white space and line
    terminator of Unicode. *)
Definition isBlank (t : string) : bool := allWhiteSpace (list_ascii_of_string t).

Definition setDeletedBranch (deleteId : string) (b : Branch) : Branch :=
  mkBranch (branchId b) (b_noteId b) (parentNoteId b) (notePosition b) (prefix b)
    (isExpanded b) true (Some deleteId).

Definition setDeletedNote (deleteId : string) (n : Note) : Note :=
  mkNote (noteId n) (title n) (type n) (mime n) (isProtected n) true (Some deleteId)
    (utcDateCreated n).

Definition setDeletedAttribute (deleteId : string) (a : Attribute) : Attribute :=
  mkAttribute (attributeId a) (a_noteId a) (a_type a) (name a) (value a) (position a)
    (isInheritable a) true (Some deleteId).

Definition undeletedBranch (b : Branch) : Branch :=
  mkBranch (branchId b) (b_noteId b) (parentNoteId b) (notePosition b) (prefix b)
    (isExpanded b) false (b_deleteId b).

Definition undeletedNote (n : Note) : Note :=
  mkNote (noteId n) (title n) (type n) (mime n) (isProtected n) false (n_deleteId n)
    (utcDateCreated n).

Definition undeletedAttribute (a : Attribute) : Attribute :=
  mkAttribute (attributeId a) (a_noteId a) (a_type a) (name a) (value a) (position a)
    (isInheritable a) false (a_deleteId a).

(** [x.deleteId === deleteId] for a nullable column. *)
Definition hasDeleteId (d : option string) (deleteId : string) : bool :=
  match d with
  | Some d' => String.eqb d' deleteId
  | None => false
  end.

Section Notes.

Variable session : Session.

(** Collaborators of [notes.js] outside the modelled core: link
    extraction (regular expressions and the image service), the copy of
    ["child:"] attributes (the back-end attribute resolver), the label
    test of the back-end note entity, and the revision service. *)
Variable scanForLinks : Note -> Store -> Store.
Variable copyChildAttributes : Note -> Note -> Store -> Store.
Variable saveLinks : Note -> string -> Store -> Result (string * Store).
(** The regular-expression engine, [str.replace(new RegExp(pattern, "g"), f)];
    [None] for a pattern that is no regular expression. *)
Variable regExpReplace : string -> string -> (string -> string) -> option string.
Variable hasLabel : Note -> string -> Store -> bool.
Variable protectNoteRevisions : Note -> Store -> Store.

Definition createNewNote (params : NoteParams) (s : Store)
    : Result (Note * Branch * Store) :=
  match getNote (p_parentNoteId params) s with
  | None => Throw "Parent note not found."
  | Some parentNote =>
    if String.eqb (p_title params) "" || isBlank (p_title params)
    then Throw "Note title must not be empty"
    else
      mime' <- deriveMime (p_type params) (p_mime params) ;;
      let '(nid, s) :=
        match p_noteId params with
        | Some nid => (nid, s)
        | None => newEntityId s
        end in
      let note := mkNote nid (p_title params) (p_type params) mime'
                    (p_isProtected params) false None (now session) in
      let s := saveNote note s in
      let s := setContent (noteId note) (Some (p_content params)) s in
      let '(bid, s) := newEntityId s in
      let branch :=
        mkBranch bid (noteId note) (p_parentNoteId params)
          (match p_notePosition params with
           | Some pos => pos
           | None => getNewNotePosition (p_parentNoteId params) s
           end)
          (p_prefix params) (p_isExpanded params) false None in
      let s := saveBranch branch s in
      let s := scanForLinks note s in
      let s := copyChildAttributes parentNote note s in
      Return (note, branch, s)
  end.

(** Modelled from the spec: [noteRevisionService.createNoteRevision],
    which snapshots the note into a new revision row and its content. *)
Definition createNoteRevision (note : Note) (s : Store) : Store :=
  let '(rid, s) := newEntityId s in
  let s := setNoteRevisions
             (fun l => l ++ [mkNoteRevision rid (noteId note) (isProtected note) (now session)]) s in
  let s := setNoteRevisionContents (fun l => l ++ [rid]) s in
  addEntityChange "note_revisions" rid s.

Definition saveNoteRevision (note : Note) (s : Store) : Store :=
  if String.eqb (type note) "file" || String.eqb (type note) "image"
     || hasLabel note "disableVersioning" s
  then s
  else
    let interval := noteRevisionSnapshotTimeInterval session in
    let revisionCutoff := now session - interval * 1000 in
    let existingNoteRevisionId :=
      List.find (fun r => String.eqb (r_noteId r) (noteId note)
                          && (revisionCutoff <=? r_utcDateCreated r))
        (note_revisions s) in
    let msSinceDateCreated := now session - utcDateCreated note in
    match existingNoteRevisionId with
    | None =>
      if interval * 1000 <=? msSinceDateCreated
      then createNoteRevision note s
      else s
    | Some _ => s
    end.

Record NoteUpdates := mkNoteUpdates {
  u_title : string;
  u_isProtected : bool;
  u_content : option string
}.

Definition getContent (id : string) (s : Store) : option string :=
  match List.find (fun r => String.eqb (fst r) id) (note_contents s) with
  | Some (_, c) => c
  | None => None
  end.

(** Modelled from the spec: content is readable unless the note is
    protected and the protected session is locked. *)
Definition isContentAvailable (note : Note) : bool :=
  negb (isProtected note) || protectedSessionAvailable session.

(** [updateNote] after its revision step. *)
Definition applyNoteUpdates (note : Note) (noteUpdates : NoteUpdates) (s : Store)
    : Result Store :=
  let content :=
    if existsb (String.eqb (type note)) ["file"; "image"]
       && negb (Bool.eqb (isProtected note) (u_isProtected noteUpdates))
    then getContent (noteId note) s
    else u_content noteUpdates in
  let note := mkNote (noteId note) (u_title noteUpdates) (type note) (mime note)
                (u_isProtected noteUpdates) (n_isDeleted note) (n_deleteId note)
                (utcDateCreated note) in
  let s := saveNote note s in
  s <- match content with
       | Some c =>
         (** [saveLinks] is not guarded here: what it raises, [updateNote]
             raises. *)
         r <- saveLinks note c s ;;
         let '(c', s) := r in
         Return (setContent (noteId note) (Some c') s)
       | None => Return s
       end ;;
  Return (protectNoteRevisions note s).

Definition updateNote (id : string) (noteUpdates : NoteUpdates) (s : Store) : Result Store :=
  match getNote id s with
  | None => Throw "TypeError: note is null"
  | Some note =>
    if negb (isContentAvailable note) then Throw "Note is not available for change!"
    else
      let s := saveNoteRevision note s in
      applyNoteUpdates note noteUpdates s
  end.

Fixpoint deleteBranch (fuel : nat) (branch : option Branch) (deleteId : string) (s : Store)
    : Result (bool * Store) :=
  match fuel with
  | O => OutOfFuel
  | S fuel =>
    let s := increaseProgressCount s in
    match branch with
    | None => Return (false, s)
    | Some branch =>
      if b_isDeleted branch then Return (false, s)
      else if String.eqb (branchId branch) "root"
              || String.eqb (b_noteId branch) "root"
              || String.eqb (b_noteId branch) (hoistedNoteId session)
      then Throw "Can't delete root branch/note"
      else
        let branch := setDeletedBranch deleteId branch in
        let s := saveBranch branch s in
        match getNote (b_noteId branch) s with
        | None => Throw "TypeError: note is null"
        | Some note =>
          match getBranches (noteId note) s with
          | [] =>
            s <- forEach (fun childBranch s =>
                            r <- deleteBranch fuel (Some childBranch) deleteId s ;;
                            Return (snd r))
                   (getChildBranches (noteId note) s) s ;;
            let s := saveNote (setDeletedNote deleteId note) s in
            let s := fold_left (fun s attribute =>
                                  saveAttribute (setDeletedAttribute deleteId attribute) s)
                       (getOwnedAttributes (noteId note) s) s in
            let s := fold_left (fun s relation =>
                                  saveAttribute (setDeletedAttribute deleteId relation) s)
                       (getTargetRelations (noteId note) s) s in
            Return (true, s)
          | _ :: _ => Return (false, s)
          end
        end
    end
  end.

(** deleted branches of an undeleted parent note *)
Definition getUndeletedParentBranches (id deleteId : string) (s : Store) : list Branch :=
  List.filter (fun b =>
      String.eqb (b_noteId b) id
      && b_isDeleted b
      && hasDeleteId (b_deleteId b) deleteId
      && existsb (fun parentNote => String.eqb (noteId parentNote) (parentNoteId b)
                                    && negb (n_isDeleted parentNote)) (notes s))
    (branches s).

Fixpoint undeleteBranch (fuel : nat) (branch : Branch) (deleteId : string) (s : Store)
    : Result Store :=
  match fuel with
  | O => OutOfFuel
  | S fuel =>
    if negb (b_isDeleted branch) then Return s
    else
      match getNote (b_noteId branch) s with
      | None => Throw "TypeError: note is null"
      | Some note =>
        if n_isDeleted note && negb (hasDeleteId (n_deleteId note) deleteId)
        then Return s
        else
          let s := saveBranch (undeletedBranch branch) s in
          let s := increaseProgressCount s in
          if n_isDeleted note && hasDeleteId (n_deleteId note) deleteId
          then
            let s := saveNote (undeletedNote note) s in
            let attrs :=
              List.filter (fun a =>
                  a_isDeleted a
                  && hasDeleteId (a_deleteId a) deleteId
                  && (String.eqb (a_noteId a) (noteId note)
                      || (String.eqb (a_type a) "relation"
                          && String.eqb (value a) (noteId note))))
                (attributes s) in
            let s := fold_left (fun s attr => saveAttribute (undeletedAttribute attr) s)
                       attrs s in
            let childBranches :=
              List.filter (fun b =>
                  b_isDeleted b
                  && hasDeleteId (b_deleteId b) deleteId
                  && String.eqb (parentNoteId b) (noteId note))
                (branches s) in
            forEach (fun childBranch s => undeleteBranch fuel childBranch deleteId s)
              childBranches s
          else Return s
      end
  end.

Definition undeleteNote (fuel : nat) (note : Note) (deleteId : string) (s : Store)
    : Result Store :=
  match getUndeletedParentBranches (noteId note) deleteId s with
  | [] => Return s
  | undeletedParentBranches =>
    forEach (fun parentBranch s => undeleteBranch fuel parentBranch deleteId s)
      undeletedParentBranches s
  end.

(** *** Subtree duplication *)

(** Modelled from the spec: [note.getDescendantNoteIds()], the note and
    every note below it through non-deleted branches of non-deleted
    notes, each once. *)
Definition childNoteIds (id : string) (s : Store) : list string :=
  map b_noteId
    (List.filter (fun b =>
        negb (b_isDeleted b) && String.eqb (parentNoteId b) id
        && existsb (fun n => String.eqb (noteId n) (b_noteId b) && negb (n_isDeleted n))
             (notes s))
      (branches s)).

Definition addNew (acc new : list string) : list string :=
  fold_left (fun acc x => if existsb (String.eqb x) acc then acc else acc ++ [x]) new acc.

Fixpoint descendantsFrom (fuel : nat) (acc : list string) (s : Store) : list string :=
  match fuel with
  | O => acc
  | S fuel =>
    let acc' := addNew acc (flat_map (fun id => childNoteIds id s) acc) in
    if (length acc' =? length acc)%nat then acc else descendantsFrom fuel acc' s
  end.

Definition getDescendantNoteIds (id : string) (s : Store) : list string :=
  descendantsFrom (length (branches s)) [id] s.

(** [noteIdMapping], an object literal filled by [getNoteIdMapping]. *)
Definition NoteIdMapping := JsObject string.

Definition getNoteIdMapping (origNote : Note) (s : Store) : NoteIdMapping * Store :=
  fold_left (fun '(noteIdMapping, s) origNoteId =>
               let '(newId, s) := newEntityId s in
               (jsSet origNoteId newId noteIdMapping, s))
    (getDescendantNoteIds (noteId origNote) s) ([], s).

(** [str.replace(new RegExp(Object.keys(mapObj).join("|"), "g"),
    matched => mapObj[matched])] *)
Definition replaceByMap (str : string) (mapObj : NoteIdMapping) : Result string :=
  match regExpReplace (String.concat "|" (objectKeys mapObj)) str
          (fun matched => match jsGet matched mapObj with
                          | Own v => v
                          | Inherited => memberText matched
                          | Undefined => "undefined"
                          end) with
  | Some str' => Return str'
  | None => Throw "SyntaxError: Invalid regular expression"
  end.

Fixpoint isPrefixOf (p l : list ascii) : bool :=
  match p, l with
  | [], _ => true
  | _ :: _, [] => false
  | a :: p', b :: l' => Ascii.eqb a b && isPrefixOf p' l'
  end.

(** [str.endsWith(suffix)] *)
Definition endsWith (str suffix : string) : bool :=
  isPrefixOf (rev (list_ascii_of_string suffix)) (rev (list_ascii_of_string str)).

(** The value that the copy of an attribute gets in [duplicateSubtreeInner]:
    [noteIdMapping[attr.value]] for a relation with [attr.value in
    noteIdMapping], else [attr.value]; [None] when that is a member of
    [Object.prototype] and no string. *)
Definition clonedValue (noteIdMapping : NoteIdMapping) (attribute : Attribute)
    : option string :=
  if String.eqb (a_type attribute) "relation" && jsIn (value attribute) noteIdMapping
  then match jsGet (value attribute) noteIdMapping with
       | Own v => Some v
       | Inherited | Undefined => None
       end
  else Some (value attribute).

(** The copy of one owned attribute made by [duplicateSubtreeInner]. *)
Definition cloneAttribute (newNoteId newAttributeId value' : string) (attribute : Attribute)
    : Attribute :=
  mkAttribute newAttributeId newNoteId (a_type attribute) (name attribute) value'
    (position attribute) (isInheritable attribute) (a_isDeleted attribute)
    (a_deleteId attribute).

Fixpoint duplicateSubtreeInner (fuel : nat) (origNote : Note) (origBranch : option Branch)
    (newParentNoteId : string) (noteIdMapping : NoteIdMapping) (s : Store)
    : Result (Note * Branch * Store) :=
  match fuel with
  | O => OutOfFuel
  | S fuel =>
    if isProtected origNote && negb (protectedSessionAvailable session)
    then Throw "Cannot duplicate note because it is protected"
    else
      match jsGet (noteId origNote) noteIdMapping with
      | Undefined => Throw "branch without noteId"
      | Inherited => Throw "TypeError: the noteId of the branch is not a string"
      | Own newNoteId =>
        let '(bid, s) := newEntityId s in
        let newBranch :=
          mkBranch bid newNoteId newParentNoteId
            (match origBranch with
             | Some b => jsAdd (toNumber (notePosition b)) 1
             | None => getNewNotePosition newParentNoteId s
             end)
            "" false false None in
        let s := saveBranch newBranch s in
        match getNote newNoteId s with
        | Some existingNote => Return (existingNote, newBranch, s)
        | None =>
          let newNote :=
            mkNote newNoteId (title origNote) (type origNote) (mime origNote)
              (isProtected origNote) (n_isDeleted origNote) (n_deleteId origNote)
              (now session) in
          let s := saveNote newNote s in
          content <-
            (if existsb (String.eqb (type origNote)) ["text"; "relation-map"; "search"]
             then match getContent (noteId origNote) s with
                  | Some c => c' <- replaceByMap c noteIdMapping ;; Return (Some c')
                  | None => Throw "TypeError: content is null"
                  end
             else Return (getContent (noteId origNote) s)) ;;
          let s := setContent (noteId newNote) content s in
          s <- forEach (fun attribute s =>
                          match clonedValue noteIdMapping attribute with
                          | None => Throw "TypeError: the value of the attribute is not a string"
                          | Some value' =>
                            let '(aid, s) := newEntityId s in
                            Return (saveAttribute
                                      (cloneAttribute (noteId newNote) aid value' attribute) s)
                          end)
                 (getOwnedAttributes (noteId origNote) s) s ;;
          s <- forEach (fun childBranch s =>
                          match getNote (b_noteId childBranch) s with
                          | None => Throw "TypeError: note is null"
                          | Some child =>
                            r <- duplicateSubtreeInner fuel child (Some childBranch)
                                   (noteId newNote) noteIdMapping s ;;
                            Return (snd r)
                          end)
                 (getChildBranches (noteId origNote) s) s ;;
          Return (newNote, newBranch, s)
        end
      end
  end.

(** A call of [duplicateSubtreeInner] either finds the copy of its note or
    makes it, so the calls nest no deeper than the mapping has entries. *)
Definition duplicateFuel (noteIdMapping : NoteIdMapping) : nat :=
  S (length noteIdMapping).

Definition setTitle (t : string) (n : Note) : Note :=
  mkNote (noteId n) t (type n) (mime n) (isProtected n) (n_isDeleted n) (n_deleteId n)
    (utcDateCreated n).

(** [if (!title.endsWith('(dup)')) title += " (dup)"] *)
Definition appendDupSuffix (t : string) : string :=
  if negb (endsWith t "(dup)") then (t ++ " (dup)")%string else t.

Definition duplicateSubtree (origNoteId newParentNoteId : string) (s : Store)
    : Result (Note * Branch * Store) :=
  if String.eqb origNoteId "root" then Throw "Duplicating root is not possible"
  else
    match getNote origNoteId s with
    | None => Throw "TypeError: note is null"
    | Some origNote =>
      let origBranch :=
        List.find (fun branch => String.eqb (parentNoteId branch) newParentNoteId)
          (getBranches (noteId origNote) s) in
      let '(noteIdMapping, s) := getNoteIdMapping origNote s in
      res <- duplicateSubtreeInner (duplicateFuel noteIdMapping) origNote origBranch
               newParentNoteId noteIdMapping s ;;
      let '(note, branch, s) := res in
      let note := setTitle (appendDupSuffix (title note)) note in
      let s := saveNote note s in
      Return (note, branch, s)
    end.

(** [duplicateSubtreeWithoutRoot(origNoteId, newNoteId)] *)
Definition duplicateSubtreeWithoutRoot (origNoteId newNoteId : string) (s : Store)
    : Result Store :=
  if String.eqb origNoteId "root" then Throw "Duplicating root is not possible"
  else
    match getNote origNoteId s with
    | None => Throw "TypeError: origNote is null"
    | Some origNote =>
      let '(noteIdMapping, s) := getNoteIdMapping origNote s in
      forEach (fun childBranch s =>
                 match getNote (b_noteId childBranch) s with
                 | None => Throw "TypeError: note is null"
                 | Some child =>
                   r <- duplicateSubtreeInner (duplicateFuel noteIdMapping) child
                          (Some childBranch) newNoteId noteIdMapping s ;;
                   Return (snd r)
                 end)
        (getChildBranches (noteId origNote) s) s
    end.

End Notes.

(** ** The front-end note entity: attribute inheritance *)

Module NoteShort.

Record Attribute := mkAttribute {
  attributeId : string;
  a_noteId : string;
  a_type : string;
  name : string;
  value : string;
  isInheritable : bool
}.

Record NoteShort := mkNoteShort {
  noteId : string;
  type : string;
  (** ids of the note's own attributes *)
  attributes : list string;
  (** ids of the parent notes *)
  parents : list string
}.

Record TreeCache := mkTreeCache {
  (** [treeCache.notes] *)
  tc_notes : gmap string NoteShort;
  (** [treeCache.attributes] *)
  tc_attributes : gmap string Attribute
}.

(** [noteAttributeCache.attributes], shared by all notes. *)
Abbreviation AttributeCache := (gmap string (list Attribute)).

Fixpoint foldM {A B} (f : B -> A -> Result B) (l : list A) (b : B) : Result B :=
  match l with
  | [] => Return b
  | x :: l' => b1 <- f b x ;; foldM f l' b1
  end.

Definition getOwnedAttributes (treeCache : TreeCache) (this : NoteShort) : list Attribute :=
  omap (fun attributeId => tc_attributes treeCache !! attributeId) (attributes this).

(** Modelled from the spec: [treeCache.getNotesFromCache(noteIds)], the
    loaded notes among the given ids. *)
Definition getParentNotes (treeCache : TreeCache) (this : NoteShort) : list NoteShort :=
  omap (fun parentId => tc_notes treeCache !! parentId) (parents this).

(** Keep the first attribute of each [attributeId]. *)
Fixpoint addUnique (addedAttributeIds : list string) (attrs : list Attribute) : list Attribute :=
  match attrs with
  | [] => []
  | attr :: attrs' =>
    if existsb (String.eqb (attributeId attr)) addedAttributeIds
    then addUnique addedAttributeIds attrs'
    else attr :: addUnique (attributeId attr :: addedAttributeIds) attrs'
  end.

Definition isTemplateRelation (attr : Attribute) : bool :=
  String.eqb (a_type attr) "relation" && String.eqb (name attr) "template".

Fixpoint getCachedAttributes (fuel : nat) (treeCache : TreeCache) (this : NoteShort)
    (path : list string) (cache : AttributeCache)
    : Result (list Attribute * AttributeCache) :=
  match fuel with
  | O => OutOfFuel
  | S fuel =>
    if existsb (String.eqb (noteId this)) path then Return ([], cache)
    else
      match cache !! noteId this with
      | Some attrs => Return (attrs, cache)
      | None =>
        let newPath := path ++ [noteId this] in
        let attrArrs := [getOwnedAttributes treeCache this] in
        st <- (if String.eqb (noteId this) "root" then Return (attrArrs, cache)
               else
                 foldM (fun '(attrArrs, cache) parentNote =>
                          if negb (String.eqb (type parentNote) "search")
                          then
                            (** [parentNote.__getInheritableAttributes(newPath)] *)
                            r <- getCachedAttributes fuel treeCache parentNote newPath cache ;;
                            Return (attrArrs ++ [List.filter isInheritable (fst r)], snd r)
                          else Return (attrArrs, cache))
                   (getParentNotes treeCache this) (attrArrs, cache)) ;;
        st <- foldM (fun '(attrArrs, cache) templateAttr =>
                       match tc_notes treeCache !! value templateAttr with
                       | Some templateNote =>
                         if negb (String.eqb (noteId templateNote) (noteId this))
                         then
                           r <- getCachedAttributes fuel treeCache templateNote newPath cache ;;
                           Return (attrArrs ++ [fst r], snd r)
                         else Return (attrArrs, cache)
                       | None => Return (attrArrs, cache)
                       end)
                (List.filter isTemplateRelation (concat (fst st))) st ;;
        let attrs := addUnique [] (concat (fst st)) in
        Return (attrs, <[noteId this := attrs]> (snd st))
      end
  end.

(** [__filterAttrs]; an absent (falsy) argument is [None]. *)
Definition filterAttrs (attrs : list Attribute) (type name' : option string) : list Attribute :=
  match type, name' with
  | None, None => attrs
  | Some t, Some n =>
    List.filter (fun attr => String.eqb (a_type attr) t && String.eqb (name attr) n) attrs
  | Some t, None => List.filter (fun attr => String.eqb (a_type attr) t) attrs
  | None, Some n => List.filter (fun attr => String.eqb (name attr) n) attrs
  end.

Definition getAttributes (fuel : nat) (treeCache : TreeCache) (this : NoteShort)
    (type name' : option string) (cache : AttributeCache)
    : Result (list Attribute * AttributeCache) :=
  r <- getCachedAttributes fuel treeCache this [] cache ;;
  Return (filterAttrs (fst r) type name', snd r).

End NoteShort.

(** ** consistency_checks.js *)

Record ConsistencyChecks := mkConsistencyChecks {
  autoFix : bool;
  unrecoveredConsistencyErrors : bool;
  fixedIssues : bool
}.

Definition setUnrecovered (c : ConsistencyChecks) : ConsistencyChecks :=
  mkConsistencyChecks (autoFix c) true (fixedIssues c).

Definition setFixed (c : ConsistencyChecks) : ConsistencyChecks :=
  mkConsistencyChecks (autoFix c) (unrecoveredConsistencyErrors c) true.

(** One [this.findAndFixIssues(query, fixerCb)] call: the query, read as a
    function from the store to its rows, and the fixer, which is handed
    [this.autoFix]. *)
Record Check := mkCheck {
  finding : Type;
  scan : Store -> list finding;
  fixer : bool -> finding -> Store -> Result Store
}.

(** The rows are read once; each fixer runs in its own transaction, so a
    fixer that raises leaves the store as it was. *)
Definition findAndFixIssues (chk : Check) (st : ConsistencyChecks * Store)
    : ConsistencyChecks * Store :=
  fold_left (fun '(c, s) res =>
               match fixer chk (autoFix c) res s with
               | Return s' => (if autoFix c then setFixed c else setUnrecovered c, s')
               | _ => (setUnrecovered c, s)
               end)
    (scan chk (snd st)) st.

Definition hasNote (id : string) (s : Store) : bool :=
  existsb (fun n => String.eqb (noteId n) id) (notes s).

Definition markBranchDeleted (b : Branch) : Branch :=
  mkBranch (branchId b) (b_noteId b) (parentNoteId b) (notePosition b) (prefix b)
    (isExpanded b) true (b_deleteId b).

Definition setParentNoteId (p : string) (b : Branch) : Branch :=
  mkBranch (branchId b) (b_noteId b) p (notePosition b) (prefix b)
    (isExpanded b) (b_isDeleted b) (b_deleteId b).

Definition markAttributeDeleted (a : Attribute) : Attribute :=
  mkAttribute (attributeId a) (a_noteId a) (a_type a) (name a) (value a) (position a)
    (isInheritable a) true (a_deleteId a).

Definition setAttributeType (t : string) (a : Attribute) : Attribute :=
  mkAttribute (attributeId a) (a_noteId a) t (name a) (value a) (position a)
    (isInheritable a) (a_isDeleted a) (a_deleteId a).

Definition setAttributeName (n : string) (a : Attribute) : Attribute :=
  mkAttribute (attributeId a) (a_noteId a) (a_type a) n (value a) (position a)
    (isInheritable a) (a_isDeleted a) (a_deleteId a).

Definition setNoteType (t : string) (n : Note) : Note :=
  mkNote (noteId n) (title n) t (mime n) (isProtected n) (n_isDeleted n) (n_deleteId n)
    (utcDateCreated n).

(** [const branch = repository.getBranch(branchId); branch.isDeleted = true;
    branch.save()], which raises on a missing row. *)
Definition deleteBranchById (autoFix : bool) (id : string) (s : Store) : Result Store :=
  if autoFix then
    match getBranch id s with
    | Some branch => Return (saveBranch (markBranchDeleted branch) s)
    | None => Throw "TypeError: branch is null"
    end
  else Return s.

Definition deleteAttributeById (autoFix : bool) (id : string) (s : Store) : Result Store :=
  if autoFix then
    match getAttribute id s with
    | Some attribute => Return (saveAttribute (markAttributeDeleted attribute) s)
    | None => Throw "TypeError: attribute is null"
    end
  else Return s.

Definition findBrokenReferenceIssues : list Check :=
  [ (** branch whose note is missing: delete the branch *)
    mkCheck (string * string)
      (fun s => map (fun b => (branchId b, b_noteId b))
                  (List.filter (fun b => negb (b_isDeleted b) && negb (hasNote (b_noteId b) s))
                     (branches s)))
      (fun autoFix r s => deleteBranchById autoFix (fst r) s);
    (** branch (other than root) whose parent is missing: move it to root *)
    mkCheck (string * string)
      (fun s => map (fun b => (branchId b, b_noteId b))
                  (List.filter (fun b => negb (b_isDeleted b)
                                         && negb (String.eqb (branchId b) "root")
                                         && negb (hasNote (parentNoteId b) s))
                     (branches s)))
      (fun autoFix r s =>
         if autoFix then
           match getBranch (fst r) s with
           | Some branch => Return (saveBranch (setParentNoteId "root" branch) s)
           | None => Throw "TypeError: branch is null"
           end
         else Return s);
    (** attribute whose owner is missing: delete the attribute *)
    mkCheck (string * string)
      (fun s => map (fun a => (attributeId a, a_noteId a))
                  (List.filter (fun a => negb (a_isDeleted a) && negb (hasNote (a_noteId a) s))
                     (attributes s)))
      (fun autoFix r s => deleteAttributeById autoFix (fst r) s);
    (** relation whose target is missing: delete the relation *)
    mkCheck (string * string)
      (fun s => map (fun a => (attributeId a, value a))
                  (List.filter (fun a => negb (a_isDeleted a)
                                         && String.eqb (a_type a) "relation"
                                         && negb (hasNote (value a) s))
                     (attributes s)))
      (fun autoFix r s => deleteAttributeById autoFix (fst r) s) ].

(** [SELECT DISTINCT] *)
Fixpoint distinct {A} (eqb : A -> A -> bool) (l : list A) : list A :=
  match l with
  | [] => []
  | x :: l' => x :: List.filter (fun y => negb (eqb x y)) (distinct eqb l')
  end.

Definition pairEqb (x y : string * string) : bool :=
  String.eqb (fst x) (fst y) && String.eqb (snd x) (snd y).

(** Modelled from the spec: saving a new branch, whose id is generated and
    which is ordered after its siblings. *)
Definition createBranch (nid parentId pfx : string) (s : Store) : Store :=
  let '(bid, s) := newEntityId s in
  saveBranch (mkBranch bid nid parentId (getNewNotePosition parentId s) pfx false false None) s.

Definition findExistencyIssues : list Check :=
  [ (** branch of a deleted note: delete the branch *)
    mkCheck (string * string)
      (fun s => flat_map (fun b =>
                    map (fun n => (branchId b, noteId n))
                      (List.filter (fun n => String.eqb (noteId n) (b_noteId b) && n_isDeleted n)
                         (notes s)))
                  (List.filter (fun b => negb (b_isDeleted b)) (branches s)))
      (fun autoFix r s => deleteBranchById autoFix (fst r) s);
    (** branch under a deleted parent: delete the branch *)
    mkCheck (string * string)
      (fun s => flat_map (fun b =>
                    map (fun n => (branchId b, parentNoteId b))
                      (List.filter (fun n => String.eqb (noteId n) (parentNoteId b)
                                             && n_isDeleted n)
                         (notes s)))
                  (List.filter (fun b => negb (b_isDeleted b)) (branches s)))
      (fun autoFix r s => deleteBranchById autoFix (fst r) s);
    (** non-deleted note without a non-deleted branch: a recovered branch
        under root *)
    mkCheck string
      (fun s => distinct String.eqb
                  (map noteId
                     (List.filter (fun n => negb (n_isDeleted n)
                                            && negb (existsb (fun b => String.eqb (b_noteId b) (noteId n)
                                                                       && negb (b_isDeleted b))
                                                       (branches s)))
                        (notes s))))
      (fun autoFix nid s =>
         if autoFix then Return (createBranch nid "root" "recovered" s) else Return s);
    (** several non-deleted branches of one note under one parent: keep the
        first *)
    mkCheck (string * string)
      (fun s =>
         let live := List.filter (fun b => negb (b_isDeleted b)) (branches s) in
         let pairs := map (fun b => (b_noteId b, parentNoteId b)) live in
         List.filter (fun p => (1 <? length (List.filter (pairEqb p) pairs))%nat)
           (distinct pairEqb pairs))
      (fun autoFix r s =>
         if autoFix then
           let branches :=
             List.filter (fun b => String.eqb (b_noteId b) (fst r)
                                   && String.eqb (parentNoteId b) (snd r)
                                   && negb (b_isDeleted b))
               (branches s) in
           Return (fold_left (fun s branch => saveBranch (markBranchDeleted branch) s)
                     (tl branches) s)
         else Return s) ].

Definition knownNoteTypes : list string :=
  ["text"; "code"; "render"; "file"; "image"; "search"; "relation-map"; "canvas-note"; "book"].

Definition hasContentRow (id : string) (s : Store) : bool :=
  existsb (fun r => String.eqb (fst r) id) (note_contents s).

(** Modelled from the spec: [noteRevisionService.eraseNoteRevisions], which
    removes the revision rows and flags their change records as erased. *)
Definition eraseNoteRevision (id : string) (s : Store) : Store :=
  let s := setNoteRevisions (List.filter (fun r => negb (String.eqb (noteRevisionId r) id))) s in
  let s := setNoteRevisionContents (List.filter (fun r => negb (String.eqb r id))) s in
  setEntityChanges
    (map (fun e => if (String.eqb (entityName e) "note_revisions"
                       || String.eqb (entityName e) "note_revision_contents")
                      && String.eqb (entityId e) id
                   then mkEntityChange (entityName e) (entityId e) true
                   else e)) s.

Definition findLogicIssues : list Check :=
  [ (** unknown note type: coerce to file *)
    mkCheck (string * string)
      (fun s => map (fun n => (noteId n, type n))
                  (List.filter (fun n => negb (n_isDeleted n)
                                         && negb (existsb (String.eqb (type n)) knownNoteTypes))
                     (notes s)))
      (fun autoFix r s =>
         if autoFix then
           match getNote (fst r) s with
           | Some note => Return (saveNote (setNoteType "file" note) s)
           | None => Throw "TypeError: note is null"
           end
         else Return s);
    (** missing content row *)
    mkCheck string
      (fun s => map noteId
                  (List.filter (fun n => negb (hasContentRow (noteId n) s)) (notes s)))
      (fun autoFix nid s =>
         if autoFix then
           match getNote nid s with
           | Some note =>
             if isProtected note
             then Return (addEntityChange "note_contents" nid
                            (setNoteContents (upsert fst (nid, None)) s))
             else Return (setContent nid (Some "") s)
           | None => Throw "TypeError: note is null"
           end
         else Return s);
    (** null content of a non-deleted unprotected note *)
    mkCheck string
      (fun s => flat_map (fun n =>
                    map (fun _ => noteId n)
                      (List.filter (fun r => String.eqb (fst r) (noteId n)
                                             && match snd r with None => true | Some _ => false end)
                         (note_contents s)))
                  (List.filter (fun n => negb (n_isDeleted n) && negb (isProtected n)) (notes s)))
      (fun autoFix nid s =>
         if autoFix then
           match getNote nid s with
           | Some note => Return (setContent nid (Some "") s)
           | None => Throw "TypeError: note is null"
           end
         else Return s);
    (** unprotected revision without content row: erase the revision *)
    mkCheck string
      (fun s => map noteRevisionId
                  (List.filter (fun r => negb (existsb (String.eqb (noteRevisionId r))
                                                 (note_revision_contents s))
                                         && negb (r_isProtected r))
                     (note_revisions s)))
      (fun autoFix rid s => if autoFix then Return (eraseNoteRevision rid s) else Return s);
    (** children of a search note: move them to root *)
    mkCheck string
      (fun s => flat_map (fun b =>
                    map (fun _ => parentNoteId b)
                      (List.filter (fun n => String.eqb (noteId n) (parentNoteId b)
                                             && negb (n_isDeleted n)
                                             && String.eqb (type n) "search")
                         (notes s)))
                  (List.filter (fun b => negb (b_isDeleted b)) (branches s)))
      (fun autoFix parentId s =>
         if autoFix then
           Return (fold_left (fun s branch => saveBranch (setParentNoteId "root" branch) s)
                     (List.filter (fun b => negb (b_isDeleted b)
                                            && String.eqb (parentNoteId b) parentId)
                        (branches s)) s)
         else Return s);
    (** relation with an empty value: delete *)
    mkCheck string
      (fun s => map attributeId
                  (List.filter (fun a => negb (a_isDeleted a)
                                         && String.eqb (a_type a) "relation"
                                         && String.eqb (value a) "")
                     (attributes s)))
      (fun autoFix id s => deleteAttributeById autoFix id s);
    (** attribute whose type is neither label nor relation: coerce to label *)
    mkCheck (string * string)
      (fun s => map (fun a => (attributeId a, a_type a))
                  (List.filter (fun a => negb (a_isDeleted a)
                                         && negb (String.eqb (a_type a) "label")
                                         && negb (String.eqb (a_type a) "relation"))
                     (attributes s)))
      (fun autoFix r s =>
         if autoFix then
           match getAttribute (fst r) s with
           | Some attribute => Return (saveAttribute (setAttributeType "label" attribute) s)
           | None => Throw "TypeError: attribute is null"
           end
         else Return s);
    (** attribute of a deleted note: delete *)
    mkCheck (string * string)
      (fun s => flat_map (fun a =>
                    map (fun n => (attributeId a, a_noteId a))
                      (List.filter (fun n => String.eqb (noteId n) (a_noteId a) && n_isDeleted n)
                         (notes s)))
                  (List.filter (fun a => negb (a_isDeleted a)) (attributes s)))
      (fun autoFix r s => deleteAttributeById autoFix (fst r) s);
    (** relation that targets a deleted note: delete *)
    mkCheck (string * string)
      (fun s => flat_map (fun a =>
                    map (fun n => (attributeId a, value a))
                      (List.filter (fun n => String.eqb (noteId n) (value a) && n_isDeleted n)
                         (notes s)))
                  (List.filter (fun a => negb (a_isDeleted a) && String.eqb (a_type a) "relation")
                     (attributes s)))
      (fun autoFix r s => deleteAttributeById autoFix (fst r) s) ].

(** The keys of a synchronized table, by its name. *)
Definition tableKeys (entityName : string) (s : Store) : list string :=
  if String.eqb entityName "notes" then map noteId (notes s)
  else if String.eqb entityName "note_contents" then map fst (note_contents s)
  else if String.eqb entityName "note_revisions" then map noteRevisionId (note_revisions s)
  else if String.eqb entityName "branches" then map branchId (branches s)
  else if String.eqb entityName "attributes" then map attributeId (attributes s)
  else if String.eqb entityName "api_tokens" then api_tokens s
  else if String.eqb entityName "options" then map fst (options s)
  else [].

(** The rows whose change record the first query of
    [runEntityChangeChecks] looks for: all of them, but only the synced
    options. *)
Definition trackedKeys (entityName : string) (s : Store) : list string :=
  if String.eqb entityName "options"
  then map fst (List.filter snd (options s))
  else tableKeys entityName s.

Definition hasEntityChange (en id : string) (s : Store) : bool :=
  existsb (fun e => String.eqb (entityName e) en && String.eqb (entityId e) id)
    (entity_changes s).

Definition runEntityChangeChecks (entityName' : string) : list Check :=
  [ (** row without change record: synthesize one *)
    mkCheck string
      (fun s => List.filter (fun id => negb (hasEntityChange entityName' id s))
                  (trackedKeys entityName' s))
      (fun autoFix id s =>
         if autoFix then
           if existsb (String.eqb id) (tableKeys entityName' s)
           then Return (addEntityChange entityName' id s)
           else Throw "TypeError: entity is null"
         else Return s);
    (** change record (not erased) of an absent row: delete the record *)
    mkCheck string
      (fun s => map entityId
                  (List.filter (fun e => negb (isErased e)
                                         && String.eqb (entityName e) entityName'
                                         && negb (existsb (String.eqb (entityId e))
                                                    (tableKeys entityName' s)))
                     (entity_changes s)))
      (fun autoFix id s =>
         if autoFix then
           Return (setEntityChanges
                     (List.filter (fun e => negb (String.eqb (entityName e) entityName'
                                                  && String.eqb (entityId e) id))) s)
         else Return s) ].

Definition findEntityChangeIssues : list Check :=
  runEntityChangeChecks "notes"
  ++ runEntityChangeChecks "note_contents"
  ++ runEntityChangeChecks "note_revisions"
  ++ runEntityChangeChecks "branches"
  ++ runEntityChangeChecks "attributes"
  ++ runEntityChangeChecks "api_tokens"
  ++ runEntityChangeChecks "options".

Section Checker.

(** [attributeService.sanitizeAttributeName], of the attribute service. *)
Variable sanitizeAttributeName : string -> string.

Definition findWronglyNamedAttributes (st : ConsistencyChecks * Store)
    : ConsistencyChecks * Store :=
  fold_left (fun '(c, s) origName =>
               let fixedName := sanitizeAttributeName origName in
               if negb (String.eqb fixedName origName)
               then
                 if autoFix c
                 then (setFixed c,
                       setAttributes
                         (map (fun a => if String.eqb (name a) origName
                                        then setAttributeName fixedName a else a)) s)
                 else (setUnrecovered c, s)
               else (c, s))
    (distinct String.eqb (map name (attributes (snd st)))) st.

(** [UPDATE branches SET isExpanded = 1 WHERE branchId = 'root'] *)
Definition expandRoot (s : Store) : Store :=
  setBranches
    (map (fun b => if String.eqb (branchId b) "root"
                   then mkBranch (branchId b) (b_noteId b) (parentNoteId b) (notePosition b)
                          (prefix b) true (b_isDeleted b) (b_deleteId b)
                   else b)) s.

(** [childToParents], an object literal: for each child note, its parents
    in row order. *)
Definition ChildToParents := JsObject (list string).

(** [childToParents[childNoteId] = childToParents[childNoteId] || [];
    childToParents[childNoteId].push(parentNoteId)]: for a member of
    [Object.prototype] the value kept is that member, which has no [push]. *)
Definition addParentRow (row : string * string) (m : ChildToParents) : Result ChildToParents :=
  let '(childNoteId, parentId) := row in
  match jsGet childNoteId m with
  | Own ps => Return (upsert fst (childNoteId, ps ++ [parentId]) m)
  | Undefined => Return (m ++ [(childNoteId, [parentId])])
  | Inherited => Throw "TypeError: childToParents[childNoteId].push is not a function"
  end.

Definition childToParentsOf (s : Store) : Result ChildToParents :=
  forEach addParentRow
    (map (fun b => (b_noteId b, parentNoteId b))
       (List.filter (fun b => negb (b_isDeleted b)) (branches s)))
    [].

(** The members of [Object.prototype] that are functions of [length] 0. *)
Definition zeroLengthMembers : list string := ["toString"; "valueOf"; "toLocaleString"].

(** [checkTreeCycle(noteId, path)]; the answer is whether an error was
    logged.  A member of [Object.prototype] found for the note counts as
    no parents when its [length] is 0 and cannot be iterated otherwise. *)
Fixpoint checkTreeCycle (fuel : nat) (childToParents : ChildToParents) (id : string)
    (path : list string) : Result bool :=
  match fuel with
  | O => OutOfFuel
  | S fuel =>
    if String.eqb id "root" then Return false
    else
      match jsGet id childToParents with
      | Undefined | Own [] => Return true
      | Inherited =>
        if existsb (String.eqb id) zeroLengthMembers then Return true
        else Throw "TypeError: childToParents[noteId] is not iterable"
      | Own parents =>
        fold_left (fun acc parentId =>
                     err <- acc ;;
                     if existsb (String.eqb parentId) path then Return true
                     else
                       e <- checkTreeCycle fuel childToParents parentId (path ++ [id]) ;;
                       Return (err || e))
          parents (Return false)
      end
  end.

(** Every id that [childToParents] mentions, as a child or as a parent. *)
Definition treeIds (m : ChildToParents) : list string :=
  map fst m ++ flat_map snd m.

(** A path grows by a note it does not hold yet at least every second
    call, so the nesting of [checkTreeCycle] stays below this bound. *)
Definition treeFuel (m : ChildToParents) : nat :=
  (2 * length (treeIds m) + 2)%nat.

Definition checkTreeCycles (s : Store) : Result bool :=
  childToParents <- childToParentsOf s ;;
  err <- fold_left (fun acc id =>
                      err <- acc ;;
                      e <- checkTreeCycle (treeFuel childToParents) childToParents id [] ;;
                      Return (err || e))
           (objectKeys childToParents) (Return false) ;;
  match jsGet "root" childToParents with
  | Own ["none"] => Return err
  | Own _ => Return true
  | Inherited | Undefined => Throw "TypeError: childToParents['root'] is undefined"
  end.

Definition runChecks (l : list Check) (st : ConsistencyChecks * Store)
    : ConsistencyChecks * Store :=
  fold_left (fun st chk => findAndFixIssues chk st) l st.

(** The predicate scans of [runAllChecksAndFixers], in its order. *)
Definition predicateChecks : list Check :=
  findBrokenReferenceIssues ++ findExistencyIssues ++ findLogicIssues
  ++ findEntityChangeIssues.

(** The answer is the checker (its two flags) and the store; the call
    itself returns [!this.unrecoveredConsistencyErrors]. *)
Definition runAllChecksAndFixers (autoFix' : bool) (s : Store)
    : Result (ConsistencyChecks * Store) :=
  let c := mkConsistencyChecks autoFix' false false in
  let st := runChecks findBrokenReferenceIssues (c, s) in
  let st := runChecks findExistencyIssues st in
  let st := runChecks findLogicIssues st in
  let st := runChecks findEntityChangeIssues st in
  let '(c, s) := findWronglyNamedAttributes st in
  let s := expandRoot s in
  if negb (unrecoveredConsistencyErrors c)
  then
    err <- checkTreeCycles s ;;
    Return (if err then setUnrecovered c else c, s)
  else Return (c, s).

End Checker.

(** ** notes.js: erasure *)

(** [UPDATE entity_changes SET isErased = 1 WHERE entityName = ... AND
    entityId IN (...)] *)
Definition markErased (entityName' : string) (ids : list string) (s : Store) : Store :=
  setEntityChanges
    (map (fun e => if String.eqb (entityName e) entityName'
                      && existsb (String.eqb (entityId e)) ids
                   then mkEntityChange (entityName e) (entityId e) true
                   else e)) s.

Definition eraseBranches (branchIdsToErase : list string) (s : Store) : Store :=
  match branchIdsToErase with
  | [] => s
  | _ :: _ =>
    let s := setBranches
               (List.filter (fun b => negb (existsb (String.eqb (branchId b)) branchIdsToErase)))
               s in
    markErased "branches" branchIdsToErase s
  end.

Definition eraseAttributes (attributeIdsToErase : list string) (s : Store) : Store :=
  match attributeIdsToErase with
  | [] => s
  | _ :: _ =>
    let s := setAttributes
               (List.filter (fun a => negb (existsb (String.eqb (attributeId a))
                                             attributeIdsToErase)))
               s in
    markErased "attributes" attributeIdsToErase s
  end.

(** Modelled from the spec: [noteRevisionService.eraseNoteRevisions] on a
    list of ids. *)
Definition eraseNoteRevisions (noteRevisionIdsToErase : list string) (s : Store) : Store :=
  fold_left (fun s id => eraseNoteRevision id s) noteRevisionIdsToErase s.

Definition eraseNotes (noteIdsToErase : list string) (s : Store) : Store :=
  match noteIdsToErase with
  | [] => s
  | _ :: _ =>
    let s := setNotes
               (List.filter (fun n => negb (existsb (String.eqb (noteId n)) noteIdsToErase))) s in
    let s := markErased "notes" noteIdsToErase s in
    let s := setNoteContents
               (List.filter (fun r => negb (existsb (String.eqb (fst r)) noteIdsToErase))) s in
    let s := markErased "note_contents" noteIdsToErase s in
    let branchIdsToErase :=
      map branchId
        (List.filter (fun b => existsb (String.eqb (b_noteId b)) noteIdsToErase) (branches s)) in
    let s := eraseBranches branchIdsToErase s in
    let attributeIdsToErase :=
      map attributeId
        (List.filter (fun a => existsb (String.eqb (a_noteId a)) noteIdsToErase)
           (attributes s)) in
    let s := eraseAttributes attributeIdsToErase s in
    let noteRevisionIdsToErase :=
      map noteRevisionId
        (List.filter (fun r => existsb (String.eqb (r_noteId r)) noteIdsToErase)
           (note_revisions s)) in
    eraseNoteRevisions noteRevisionIdsToErase s
  end.

Section Erasure.

Variable session : Session.

(** The [utcDateModified] column of the three tables, which the rows of
    this development do not carry, and the option
    [eraseEntitiesAfterTimeInSeconds]. *)
Variable noteModified : Note -> Z.
Variable branchModified : Branch -> Z.
Variable attributeModified : Attribute -> Z.
Variable eraseEntitiesAfterTimeInSecondsOption : Z.

(** [eraseDeletedEntities(eraseEntitiesAfterTimeInSeconds = null)] *)
Definition eraseDeletedEntities (eraseEntitiesAfterTimeInSeconds : option Z) (s : Store)
    : Store :=
  let eraseEntitiesAfterTimeInSeconds :=
    match eraseEntitiesAfterTimeInSeconds with
    | None => eraseEntitiesAfterTimeInSecondsOption
    | Some t => t
    end in
  let cutoffDate := now session - eraseEntitiesAfterTimeInSeconds * 1000 in
  let noteIdsToErase :=
    map noteId
      (List.filter (fun n => n_isDeleted n && (noteModified n <=? cutoffDate)) (notes s)) in
  let s := eraseNotes noteIdsToErase s in
  let branchIdsToErase :=
    map branchId
      (List.filter (fun b => b_isDeleted b && (branchModified b <=? cutoffDate)) (branches s)) in
  let s := eraseBranches branchIdsToErase s in
  let attributeIdsToErase :=
    map attributeId
      (List.filter (fun a => a_isDeleted a && (attributeModified a <=? cutoffDate))
         (attributes s)) in
  eraseAttributes attributeIdsToErase s.


End Erasure.

(** ** notes.js: placing a new note, copied attributes, links *)






(** [str.substr(n)] *)
Fixpoint substr (n : nat) (str : string) : string :=
  match n, str with
  | O, _ => str
  | S n', String _ rest => substr n' rest
  | S _, EmptyString => EmptyString
  end.

(** A link found in the content of a note. *)
Record Link := mkLink {
  l_name : string;
  l_value : string
}.

(** [existingLink.value === foundLink.value && existingLink.name ===
    foundLink.name] *)
Definition linkMatches (foundLink : Link) (existingLink : Attribute) : bool :=
  String.eqb (value existingLink) (l_value foundLink)
  && String.eqb (name existingLink) (l_name foundLink).

(** Replace the first element that satisfies [p]: the object that
    [Array.prototype.find] returned, mutated in place. *)
Fixpoint replaceFirst {A} (p : A -> bool) (x : A) (l : list A) : list A :=
  match l with
  | [] => []
  | y :: l' => if p y then x :: l' else y :: replaceFirst p x l'
  end.

Section MoreNotes.

Variable session : Session.

(** As for [createNewNote]: the collaborators it hands each new note to. *)
Variable scanForLinks' : Note -> Store -> Store.
Variable copyChildAttributes' : Note -> Note -> Store -> Store.


(** [parentNote.getAttributes()] of the back-end note entity: the effective
    attributes of the parent. *)
Variable getAttributes : Note -> Store -> list Attribute.

(** The attribute that [copyChildAttributes] saves for [attr]. *)
Definition childAttribute (childNote : Note) (newAttributeId : string) (attr : Attribute)
    : Attribute :=
  mkAttribute newAttributeId (noteId childNote) (a_type attr) (substr 6 (name attr))
    (value attr) (position attr) (isInheritable attr) false None.

Definition copyChildAttributes (parentNote childNote : Note) (s : Store) : Store :=
  fold_left (fun s attr =>
               if String.prefix "child:" (name attr)
               then
                 let '(aid, s) := newEntityId s in
                 saveAttribute (childAttribute childNote aid attr) s
               else s)
    (getAttributes parentNote s) s.

(** Collaborators of [saveLinks]: the image service behind
    [downloadImages], the extraction of links by regular expressions and by
    [JSON.parse], [note.getLinks()], and the position that the attribute
    entity gives a new attribute. *)
Variable downloadImages : string -> string -> Store -> string * Store.
Variable findImageLinks : string -> string * list Link.
Variable findInternalLinks : string -> string * list Link.
Variable findIncludeNoteLinks : string -> list Link.
Variable findRelationMapLinks : string -> Result (list Link).
Variable getLinks : Note -> Store -> list Attribute.
Variable newAttributePosition : string -> Store -> Z.

(** The body of the loop over [foundLinks]; [existingLinks] grows by the
    links it creates and holds the links it undeletes. *)
Definition saveFoundLink (note : Note) (st : list Attribute * Store) (foundLink : Link)
    : list Attribute * Store :=
  let '(existingLinks, s) := st in
  match getNote (l_value foundLink) s with
  | None => st
  | Some targetNote =>
    if n_isDeleted targetNote then st
    else
      match List.find (linkMatches foundLink) existingLinks with
      | None =>
        let '(aid, s) := newEntityId s in
        let newLink :=
          mkAttribute aid (noteId note) "relation" (l_name foundLink) (l_value foundLink)
            (newAttributePosition (noteId note) s) false false None in
        (existingLinks ++ [newLink], saveAttribute newLink s)
      | Some existingLink =>
        if a_isDeleted existingLink
        then
          let existingLink := undeletedAttribute existingLink in
          (replaceFirst (linkMatches foundLink) existingLink existingLinks,
           saveAttribute existingLink s)
        else st
      end
  end.

(** [saveLinks] from [const existingLinks = note.getLinks()] on. *)
Definition reconcileLinks (note : Note) (foundLinks : list Link) (s : Store) : Store :=
  let existingLinks := getLinks note s in
  let '(existingLinks, s) := fold_left (saveFoundLink note) foundLinks (existingLinks, s) in
  (** marking links as deleted if they are not present on the page anymore *)
  let unusedLinks :=
    List.filter (fun existingLink =>
                   negb (existsb (fun foundLink => linkMatches foundLink existingLink)
                           foundLinks))
      existingLinks in
  fold_left (fun s unusedLink => saveAttribute (markAttributeDeleted unusedLink) s)
    unusedLinks s.

Definition saveLinks (note : Note) (content : string) (s : Store) : Result (string * Store) :=
  if negb (String.eqb (type note) "text") && negb (String.eqb (type note) "relation-map")
  then Return (content, s)
  else if isProtected note && negb (protectedSessionAvailable session)
  then Return (content, s)
  else
    found <-
      (if String.eqb (type note) "text"
       then
         let '(content, s) := downloadImages (noteId note) content s in
         let '(content, imageLinks) := findImageLinks content in
         let '(content, internalLinks) := findInternalLinks content in
         let includeNoteLinks := findIncludeNoteLinks content in
         Return (content, imageLinks ++ internalLinks ++ includeNoteLinks, s)
       else
         foundLinks <- findRelationMapLinks content ;;
         Return (content, foundLinks, s)) ;;
    let '(content, foundLinks, s) := found in
    Return (content, reconcileLinks note foundLinks s).

(** An exception inside the [try] is logged, and the store is as the
    statements before it left it: [findRelationMapLinks] raises before
    anything is saved, and a [null] content raises in the first
    [content.replace] or in the reading of [obj.notes]. *)
Definition scanForLinks (note : option Note) (s : Store) : Store :=
  match note with
  | None => s
  | Some note =>
    if negb (existsb (String.eqb (type note)) ["text"; "relation-map"]) then s
    else
      match getContent (noteId note) s with
      | None => s
      | Some content =>
        match saveLinks note content s with
        | Return (newContent, s') =>
          if negb (String.eqb content newContent)
          then setContent (noteId note) (Some newContent) s'
          else s'
        | _ => s
        end
      end
  end.

End MoreNotes.

(** ** The front-end note entity: one attribute of a type and name *)

Module NoteShortLookup.

Import NoteShort.

(** What [getOwnedAttribute] and [getAttribute] answer: an attribute,
    [null], or the number [0]. *)
Inductive AttributeOrNot :=
| Found (attr : Attribute)
| Null
| Zero.

(** [getOwnedAttributes(type, name)] with its arguments. *)
Definition getOwnedAttributes (treeCache : TreeCache) (this : NoteShort)
    (type name' : option string) : list Attribute :=
  filterAttrs (NoteShort.getOwnedAttributes treeCache this) type name'.

Definition getOwnedAttribute (treeCache : TreeCache) (this : NoteShort)
    (type name' : option string) : AttributeOrNot :=
  match getOwnedAttributes treeCache this type name' with
  | attr :: _ => Found attr
  | [] => Zero
  end.

Definition getAttribute (fuel : nat) (treeCache : TreeCache) (this : NoteShort)
    (type name' : option string) (cache : AttributeCache)
    : Result (AttributeOrNot * AttributeCache) :=
  r <- getAttributes fuel treeCache this type name' cache ;;
  Return (match fst r with
          | attr :: _ => Found attr
          | [] => Null
          end, snd r).

(** [attr ? attr.value : null] *)
Definition valueOf (attr : AttributeOrNot) : option string :=
  match attr with
  | Found attr => Some (value attr)
  | Null | Zero => None
  end.

Definition getOwnedAttributeValue (treeCache : TreeCache) (this : NoteShort)
    (type name' : option string) : option string :=
  valueOf (getOwnedAttribute treeCache this type name').

Definition getAttributeValue (fuel : nat) (treeCache : TreeCache) (this : NoteShort)
    (type name' : option string) (cache : AttributeCache)
    : Result (option string * AttributeCache) :=
  r <- getAttribute fuel treeCache this type name' cache ;;
  Return (valueOf (fst r), snd r).





End NoteShortLookup.

(** ** Vocabulary of the properties *)


(** The entity tables: everything a mutation of the tree can touch. *)
Definition sameEntities (s s' : Store) : Prop :=
  notes s' = notes s /\ note_contents s' = note_contents s
  /\ branches s' = branches s /\ attributes s' = attributes s
  /\ note_revisions s' = note_revisions s
  /\ note_revision_contents s' = note_revision_contents s
  /\ entity_changes s' = entity_changes s.

(** How many ["(dup)"] suffixes a title ends with, a single blank allowed
    before each; the argument is the title read backwards. *)
Definition dupRev : list ascii := rev (list_ascii_of_string "(dup)").

Definition dropBlank (r : list ascii) : list ascii :=
  match r with
  | " "%char :: r' => r'
  | _ => r
  end.

Fixpoint trailingDupsRev (fuel : nat) (r : list ascii) : nat :=
  match fuel with
  | O => O
  | S fuel =>
    if isPrefixOf dupRev r
    then S (trailingDupsRev fuel (dropBlank (skipn 5 r)))
    else O
  end.

Definition trailingDups (t : string) : nat :=
  trailingDupsRev (S (String.length t)) (rev (list_ascii_of_string t)).

(** A revision of the note taken inside the trailing interval. *)
Definition hasRecentRevision (session : Session) (note : Note) (s : Store) : bool :=
  existsb (fun r => String.eqb (r_noteId r) (noteId note)
                    && (now session - noteRevisionSnapshotTimeInterval session * 1000
                        <=? r_utcDateCreated r))
    (note_revisions s).

(** The revision step took a snapshot: one more revision row. *)
Definition revisionTaken (s s' : Store) : Prop :=
  length (note_revisions s') = S (length (note_revisions s)).

(** *** Soft deletion *)

Definition liveBranches (s : Store) : nat :=
  length (List.filter (fun b => negb (b_isDeleted b)) (branches s)).


Definition branchMarked (deleteId : string) (b : Branch) : Prop :=
  b_isDeleted b = true /\ b_deleteId b = Some deleteId.

Definition noteMarked (deleteId : string) (n : Note) : Prop :=
  n_isDeleted n = true /\ n_deleteId n = Some deleteId.

Definition attributeMarked (deleteId : string) (a : Attribute) : Prop :=
  a_isDeleted a = true /\ a_deleteId a = Some deleteId.

(** What a deletion under [deleteId] may do to a store: every row is an old
    row or a row marked deleted under [deleteId]; no note id appears or
    disappears; the journal only grows. *)
Definition DeleteFrame (deleteId : string) (s s' : Store) : Prop :=
  (forall x, In x (branches s') -> In x (branches s) \/ branchMarked deleteId x)
  /\ (forall n, In n (notes s') -> In n (notes s) \/ noteMarked deleteId n)
  /\ (forall a, In a (attributes s') -> In a (attributes s) \/ attributeMarked deleteId a)
  /\ (liveBranches s' <= liveBranches s)%nat
  /\ (forall id, getNote id s' = None <-> getNote id s = None)
  /\ (exists evs, entity_changes s' = entity_changes s ++ evs).





(** *** Undeletion *)











Definition deletedNotes (s : Store) : nat :=
  length (List.filter n_isDeleted (notes s)).










(** The primary keys of the three entity tables. *)
Definition uniqueKeys (s : Store) : Prop :=
  List.NoDup (map branchId (branches s))
  /\ List.NoDup (map noteId (notes s))
  /\ List.NoDup (map attributeId (attributes s)).


(** ** Properties of the consistency checker *)

(** The scan of a check finds nothing in the store. *)
Definition noFindings (chk : Check) (s : Store) : bool :=
  match scan chk s with [] => true | _ :: _ => false end.

(** No attribute name that the sanitizer would rewrite. *)
Definition namesSane (sanitizeAttributeName : string -> string) (s : Store) : bool :=
  forallb (fun n => String.eqb (sanitizeAttributeName n) n)
    (distinct String.eqb (map name (attributes s))).

(** A store in which no predicate scan has a finding and no attribute is
    wrongly named. *)
Definition isClean (sanitizeAttributeName : string -> string) (s : Store) : bool :=
  forallb (fun chk => noFindings chk s) predicateChecks
  && namesSane sanitizeAttributeName s.

(** The fixer of a check cannot raise on a finding of its own scan, also
    after other findings of that scan have been repaired: some property of
    the store supports the finding, is what the fixer needs, and survives
    the fixer. *)
Definition fixable (chk : Check) : Prop :=
  exists P : finding chk -> Store -> Prop,
    (forall s r, In r (scan chk s) -> P r s)
    /\ (forall s r, P r s -> exists s', fixer chk true r s = Return s')
    /\ (forall s r r' s', P r s -> fixer chk true r' s = Return s' -> P r s').

(** The scan of a check does not depend on the expansion of the root
    branch. *)
Definition ignoresExpansion (chk : Check) : Prop :=
  forall s, scan chk (expandRoot s) = scan chk s.

(** What the fixers that move a branch to root rely on: the root note is
    there and it is not a saved search. *)
Definition rootUsable (s : Store) : Prop :=
  hasNote "root" s = true
  /\ forall n, In n (notes s) -> noteId n = "root" -> type n <> "search".

(** The fixer of a check repairs the finding it is called for: the scan of
    the store it leaves does not report that finding any more. *)
Definition repairs (chk : Check) : Prop :=
  forall s r s',
    rootUsable s -> In r (scan chk s) -> fixer chk true r s = Return s' ->
    ~ In r (scan chk s').

(** In report mode the fixer of a check leaves the store alone. *)
Definition reportOnly (chk : Check) : Prop :=
  forall r s, fixer chk false r s = Return s.

Definition expandBranch (b : Branch) : Branch :=
  if String.eqb (branchId b) "root"
  then mkBranch (branchId b) (b_noteId b) (parentNoteId b) (notePosition b)
         (prefix b) true (b_isDeleted b) (b_deleteId b)
  else b.

(** The measure of [checkTreeCycle]: the ids that are neither on the path
    nor the current note, counted twice, and one more while the current
    note is not on the path. *)
Definition offPath (m : ChildToParents) (id : string) (path : list string) : list string :=
  List.filter (fun u => negb (existsb (String.eqb u) path) && negb (String.eqb u id))
    (treeIds m).

Definition treeMeasure (m : ChildToParents) (id : string) (path : list string) : nat :=
  (2 * length (offPath m id path)
   + (if existsb (String.eqb id) path then 0 else 1))%nat.

Definition change (n i : string) : EntityChange := mkEntityChange n i false.

(** A note that is placed under root and also under a saved search. *)
Definition ck_search_store : Store :=
  mkStore
    [mkNote "root" "root" "text" "text/html" false false None 0;
     mkNote "s" "saved search" "search" "text/html" false false None 0;
     mkNote "x" "x" "text" "text/html" false false None 0]
    [("root", Some ""); ("s", Some ""); ("x", Some "")]
    [mkBranch "root" "root" "none" 0 "" true false None;
     mkBranch "bs" "s" "root" 10 "" false false None;
     mkBranch "bx" "x" "root" 20 "" false false None;
     mkBranch "bsx" "x" "s" 10 "" false false None]
    [] [] [] [] []
    [change "notes" "root"; change "notes" "s"; change "notes" "x";
     change "note_contents" "root"; change "note_contents" "s"; change "note_contents" "x";
     change "branches" "root"; change "branches" "bs"; change "branches" "bx";
     change "branches" "bsx"]
    0 0.

(** Two notes that are each other's only parent. *)
Definition ck_cycle_store : Store :=
  mkStore
    [mkNote "root" "root" "text" "text/html" false false None 0;
     mkNote "a" "a" "text" "text/html" false false None 0;
     mkNote "b" "b" "text" "text/html" false false None 0]
    [("root", Some ""); ("a", Some ""); ("b", Some "")]
    [mkBranch "root" "root" "none" 0 "" true false None;
     mkBranch "ba" "a" "b" 10 "" false false None;
     mkBranch "bb" "b" "a" 10 "" false false None]
    [] [] [] [] []
    [change "notes" "root"; change "notes" "a"; change "notes" "b";
     change "note_contents" "root"; change "note_contents" "a"; change "note_contents" "b";
     change "branches" "root"; change "branches" "ba"; change "branches" "bb"]
    0 0.

(** A consistent store: root and one child. *)
Definition ck_clean_store : Store :=
  mkStore
    [mkNote "root" "root" "text" "text/html" false false None 0;
     mkNote "a" "a" "text" "text/html" false false None 0]
    [("root", Some ""); ("a", Some "")]
    [mkBranch "root" "root" "none" 0 "" false false None;
     mkBranch "ba" "a" "root" 10 "" false false None]
    [mkAttribute "l1" "a" "label" "color" "red" 0 false false None]
    [] [] [] []
    [change "notes" "root"; change "notes" "a";
     change "note_contents" "root"; change "note_contents" "a";
     change "branches" "root"; change "branches" "ba";
     change "attributes" "l1"]
    0 0.

(** The sanitizer of the examples: it only replaces the empty name. *)
Definition ck_sanitize (n : string) : string :=
  if String.eqb n "" then "unnamed" else n.

(** ** Properties of the attribute resolver *)

(** The ids of the notes that the tree cache holds. *)
Definition cachedNoteIds (treeCache : NoteShort.TreeCache) : list string :=
  map (fun kv => NoteShort.noteId (snd kv)) (map_to_list (NoteShort.tc_notes treeCache)).

(** Those that are not on the path: the measure of
    [__getCachedAttributes]. *)
Definition unvisited (treeCache : NoteShort.TreeCache) (path : list string) : list string :=
  List.filter (fun u => negb (existsb (String.eqb u) path)) (cachedNoteIds treeCache).

Definition isCached (treeCache : NoteShort.TreeCache) (this : NoteShort.NoteShort) : bool :=
  existsb (String.eqb (NoteShort.noteId this)) (cachedNoteIds treeCache).

(** Enough fuel for any call of [getAttributes]. *)
Definition resolverFuel (treeCache : NoteShort.TreeCache) : nat :=
  S (S (length (cachedNoteIds treeCache))).

(** Every note of the tree cache is stored under its own id. *)
Definition wellKeyed (treeCache : NoteShort.TreeCache) : Prop :=
  forall k n, NoteShort.tc_notes treeCache !! k = Some n -> NoteShort.noteId n = k.

(** The list holds each own attribute of the note, or the attribute that
    was seen first under the same [attributeId]. *)
Definition includesOwned (treeCache : NoteShort.TreeCache) (n : NoteShort.NoteShort)
    (attrs : list NoteShort.Attribute) : Prop :=
  forall a, In a (NoteShort.getOwnedAttributes treeCache n) ->
            exists a', In a' attrs /\ NoteShort.attributeId a' = NoteShort.attributeId a.

(** Every entry of the shared cache holds at least the own attributes of
    its note. *)
Definition cacheSound (treeCache : NoteShort.TreeCache) (cache : NoteShort.AttributeCache)
    : Prop :=
  forall k attrs n,
    cache !! k = Some attrs -> NoteShort.tc_notes treeCache !! k = Some n ->
    includesOwned treeCache n attrs.

(** The state of the two loops of [__getCachedAttributes]: the cache is
    sound and the own attributes of the note are still the first array. *)
Definition loopInv (treeCache : NoteShort.TreeCache) (this : NoteShort.NoteShort)
    (st : list (list NoteShort.Attribute) * NoteShort.AttributeCache) : Prop :=
  cacheSound treeCache (snd st)
  /\ exists rest, fst st = NoteShort.getOwnedAttributes treeCache this :: rest.

(** Every attribute of the tree cache is stored under its own id. *)
Definition attributesKeyed (treeCache : NoteShort.TreeCache) : Prop :=
  forall k a, NoteShort.tc_attributes treeCache !! k = Some a -> NoteShort.attributeId a = k.

(** The list starts with the own attributes of the note, each id once. *)
Definition ownFirst (treeCache : NoteShort.TreeCache) (n : NoteShort.NoteShort)
    (attrs : list NoteShort.Attribute) : Prop :=
  exists rest,
    attrs = NoteShort.addUnique [] (NoteShort.getOwnedAttributes treeCache n) ++ rest.

(** Every entry of the shared cache starts with the own attributes of its
    note: so it is on a cache that only this resolver has filled. *)
Definition cacheOwnFirst (treeCache : NoteShort.TreeCache) (cache : NoteShort.AttributeCache)
    : Prop :=
  forall k attrs n,
    cache !! k = Some attrs -> NoteShort.tc_notes treeCache !! k = Some n ->
    ownFirst treeCache n attrs.

Definition ownLoopInv (treeCache : NoteShort.TreeCache) (this : NoteShort.NoteShort)
    (st : list (list NoteShort.Attribute) * NoteShort.AttributeCache) : Prop :=
  cacheOwnFirst treeCache (snd st)
  /\ exists rest, fst st = NoteShort.getOwnedAttributes treeCache this :: rest.

(** ** Properties of the search for an ancestor *)





(** ** Auxiliary definitions and the stores of the examples *)

Definition c5_sibling (id : string) (pos : Z) (deleted : bool) : Branch :=
  mkBranch id id "parent" pos "" false deleted None.

Definition c5_store : Store :=
  mkStore
    [mkNote "root" "root" "text" "text/html" false false None 0;
     mkNote "parent" "parent" "text" "text/html" false false None 0]
    []
    [mkBranch "root" "root" "none" 0 "" true false None;
     mkBranch "bp" "parent" "root" 0 "" false false None;
     c5_sibling "a" 0 false; c5_sibling "b" 20 false; c5_sibling "c" 10 false;
     c5_sibling "d" 70 true]
    [] [] [] [] [] [] 0 0.

Definition c5_params : NoteParams :=
  mkNoteParams "parent" "new note" "" "text" "" false false "" None None.

Definition c5_session : Session := mkSession "root" true 1000 600.

Definition c9_rootBranch : Branch := mkBranch "root" "root" "none" 0 "" true true (Some "old").

(** A note created exactly one interval ago, with no revision yet. *)
Definition c8_session : Session := mkSession "root" true 700000 600.

Definition c8_note : Note := mkNote "n1" "note" "text" "text/html" false false None 100000.

Definition c8_store : Store :=
  mkStore [mkNote "root" "root" "text" "text/html" false false None 0; c8_note] []
    [mkBranch "root" "root" "none" 0 "" true false None;
     mkBranch "b1" "n1" "root" 0 "" false false None]
    [] [] [] [] [] [] 0 0.

(** A small tree: [a] under root with child [b]; [a2] already carries two
    stacked suffixes. *)
Definition c6_store : Store :=
  mkStore
    [mkNote "root" "root" "text" "text/html" false false None 0;
     mkNote "a" "plan" "text" "text/html" false false None 0;
     mkNote "b" "child" "text" "text/html" false false None 0;
     mkNote "a2" "plan (dup) (dup)" "text" "text/html" false false None 0]
    [("root", Some ""); ("a", Some "see b, too"); ("b", Some ""); ("a2", Some "")]
    [mkBranch "root" "root" "none" 0 "" true false None;
     mkBranch "ba" "a" "root" 10 "" false false None;
     mkBranch "bb" "b" "a" 10 "" false false None;
     mkBranch "ba2" "a2" "root" 20 "" false false None]
    [mkAttribute "r1" "a" "relation" "link" "b" 0 false false None;
     mkAttribute "r2" "a" "relation" "link" "root" 0 false false None;
     mkAttribute "l1" "b" "label" "ref" "a" 0 false false None]
    [] [] [] [] [] 0 0.

(** A regular-expression engine for the patterns of the examples, which
    are alternations of plain words: at each position the first word that
    matches is replaced, and the scan resumes after it. *)
Fixpoint splitBar (str cur : string) : list string :=
  match str with
  | EmptyString => [cur]
  | String c rest =>
    if Ascii.eqb c "|" then cur :: splitBar rest ""
    else splitBar rest (cur ++ String c "")
  end.

Fixpoint replaceWords (skip : nat) (words : list string) (f : string -> string)
    (str : string) : string :=
  match str with
  | EmptyString => EmptyString
  | String c rest =>
    match skip with
    | S k => replaceWords k words f rest
    | O =>
      match List.find (fun w => negb (String.eqb w "") && String.prefix w str) words with
      | Some w => (f w ++ replaceWords (String.length w - 1) words f rest)%string
      | None => String c (replaceWords O words f rest)
      end
    end
  end.

Definition wordsReplace (pattern str : string) (f : string -> string) : option string :=
  Some (replaceWords O (splitBar pattern "") f str).




(** A project [p] under root with two children; [c1] is also placed under
    [q] (a clone), [c2] only under [p].  [p] owns a label, and a relation of
    [q] targets [p]. *)
Definition c1_store : Store :=
  mkStore
    [mkNote "root" "root" "text" "text/html" false false None 0;
     mkNote "p" "project" "text" "text/html" false false None 0;
     mkNote "q" "other" "text" "text/html" false false None 0;
     mkNote "c1" "shared" "text" "text/html" false false None 0;
     mkNote "c2" "only here" "text" "text/html" false false None 0]
    []
    [mkBranch "root" "root" "none" 0 "" true false None;
     mkBranch "bp" "p" "root" 10 "" false false None;
     mkBranch "bq" "q" "root" 20 "" false false None;
     mkBranch "bc1" "c1" "p" 10 "" false false None;
     mkBranch "bc1q" "c1" "q" 10 "" false false None;
     mkBranch "bc2" "c2" "p" 20 "" false false None]
    [mkAttribute "l1" "p" "label" "color" "red" 0 false false None;
     mkAttribute "l0" "p" "label" "old" "" 0 false true (Some "d0");
     mkAttribute "r1" "q" "relation" "link" "p" 0 false false None;
     mkAttribute "l2" "c2" "label" "k" "v" 0 false false None]
    [] [] [] [] [] 0 0.

Definition c1_bp : Branch := mkBranch "bp" "p" "root" 10 "" false false None.

(** The store of the cascade example after two deletions: the branch of
    [p] under ["d1"] (which marks [bc1], the placement of the clone [c1]
    under [p]), then the last branch of [c1] under ["d2"] (which deletes the
    note [c1] itself). *)
Definition c2_after_d1 : Store :=
  match deleteBranch c5_session 10 (Some c1_bp) "d1" c1_store with
  | Return (_, s) => s
  | _ => c1_store
  end.

Definition c2_store : Store :=
  match deleteBranch c5_session 10
          (Some (mkBranch "bc1q" "c1" "q" 10 "" false false None)) "d2" c2_after_d1 with
  | Return (_, s) => s
  | _ => c1_store
  end.

Definition c2_p : Note := mkNote "p" "project" "text" "text/html" false true (Some "d1") 0.

(** Two notes that name each other as template. *)
Definition rs_rA : NoteShort.Attribute :=
  NoteShort.mkAttribute "rA" "A" "relation" "template" "T" false.

Definition rs_a1 : NoteShort.Attribute :=
  NoteShort.mkAttribute "a1" "A" "label" "color" "red" false.

Definition rs_rT : NoteShort.Attribute :=
  NoteShort.mkAttribute "rT" "T" "relation" "template" "A" false.

Definition rs_t1 : NoteShort.Attribute :=
  NoteShort.mkAttribute "t1" "T" "label" "shape" "round" false.

Definition rs_A : NoteShort.NoteShort := NoteShort.mkNoteShort "A" "text" ["rA"; "a1"] [].

Definition rs_T : NoteShort.NoteShort := NoteShort.mkNoteShort "T" "text" ["rT"; "t1"] [].

Definition rs_treeCache : NoteShort.TreeCache :=
  NoteShort.mkTreeCache
    (<["A" := rs_A]> (<["T" := rs_T]> ∅))
    (<["rA" := rs_rA]> (<["a1" := rs_a1]> (<["rT" := rs_rT]> (<["t1" := rs_t1]> ∅)))).

(** [first.getAttributes(); second.getAttributes()] on an empty cache: the
    answer of the second call. *)
Definition rs_second (first second : NoteShort.NoteShort) : Result (list NoteShort.Attribute) :=
  r1 <- NoteShort.getAttributes 10 rs_treeCache first None None ∅ ;;
  r2 <- NoteShort.getAttributes 10 rs_treeCache second None None (snd r1) ;;
  Return (fst r2).

Definition rs_alone (this : NoteShort.NoteShort) : Result (list NoteShort.Attribute) :=
  r <- NoteShort.getAttributes 10 rs_treeCache this None None ∅ ;;
  Return (fst r).

(** A loaded tree: [b] under [a] under [root], and [a] a template of
    [root]. *)
Definition hs_root : NoteShort.NoteShort := NoteShort.mkNoteShort "root" "text" ["rr"] [].

Definition hs_a : NoteShort.NoteShort := NoteShort.mkNoteShort "a" "text" [] ["root"].

Definition hs_b : NoteShort.NoteShort := NoteShort.mkNoteShort "b" "text" [] ["a"].

Definition hs_treeCache : NoteShort.TreeCache :=
  NoteShort.mkTreeCache
    (<["root" := hs_root]> (<["a" := hs_a]> (<["b" := hs_b]> ∅)))
    (<["rr" := NoteShort.mkAttribute "rr" "root" "relation" "template" "a" true]> ∅).

(** ** Properties of erasure *)

(** The change records that the checker reports as stray for a table: the
    scan of the second check of [runEntityChangeChecks]. *)
Definition strayChanges (entityName' : string) (s : Store) : list string :=
  map entityId
    (List.filter (fun e => negb (isErased e)
                           && String.eqb (entityName e) entityName'
                           && negb (existsb (String.eqb (entityId e))
                                      (tableKeys entityName' s)))
       (entity_changes s)).

(** The journal of [s'] is the journal of [s], record by record, with more
    records flagged as erased. *)
Definition sameRecords (s s' : Store) : Prop :=
  exists f : EntityChange -> EntityChange,
    entity_changes s' = map f (entity_changes s)
    /\ forall e, entityName (f e) = entityName e
                 /\ entityId (f e) = entityId e
                 /\ (isErased e = true -> isErased (f e) = true)
                 /\ (isErased (f e) = false -> f e = e).

(** [s'] is [s] after rows were erased: rows were only removed, and every
    record of a removed row is flagged. *)
Definition Erases (s s' : Store) : Prop :=
  sameRecords s s'
  /\ (forall en id, In id (tableKeys en s') -> In id (tableKeys en s))
  /\ (forall en id,
        In id (tableKeys en s) -> ~ In id (tableKeys en s') ->
        forall e, In e (entity_changes s') -> entityName e = en -> entityId e = id ->
                  isErased e = true).

(** ** Properties of the tree walk *)





(** The own property of [childToParents] for a note, if any. *)
Definition parentsOf (id : string) (m : ChildToParents) : option (list string) :=
  option_map snd (List.find (fun kv => String.eqb (fst kv) id) m).






(** ** Generated identifiers *)

(** The identifier that [newEntityId] gives at a value of the counter. *)
Definition genId (n : nat) : string :=
  ("id" ++ NilEmpty.string_of_uint (Nat.to_uint n))%string.

(** No attribute row has an identifier that is still to be generated. *)
Definition attributeIdsFresh (s : Store) : Prop :=
  forall a k, In a (attributes s) -> (idSeed s <= k)%nat -> attributeId a <> genId k.

(** ** Properties of the link bookkeeping *)

(** The target of a link is a note that exists and is not deleted. *)
Definition liveTarget (v : string) (s : Store) : Prop :=
  exists n, getNote v s = Some n /\ n_isDeleted n = false.

(** A relation that [saveLinks] has created for one of the found links. *)
Definition createdLink (note : Note) (foundLinks : list Link) (s : Store) (a : Attribute)
    : Prop :=
  a_isDeleted a = false /\ a_type a = "relation" /\ a_noteId a = noteId note
  /\ exists l, In l foundLinks /\ linkMatches l a = true /\ liveTarget (l_value l) s.

(** Some link of the list is live and matches the found link. *)
Definition hasLiveLink (l : Link) (existingLinks : list Attribute) : Prop :=
  exists e, In e existingLinks /\ linkMatches l e = true /\ a_isDeleted e = false.

(** The state of the loop over the found links, for the store [s] and the
    links [links0] it started from. *)
Definition linksInv (note : Note) (foundLinks : list Link) (s : Store)
    (links0 : list Attribute) (st : list Attribute * Store) : Prop :=
  let '(existingLinks, si) := st in
  (notes si = notes s /\ branches si = branches s /\ note_contents si = note_contents s)
  /\ attributeIdsFresh si
  /\ List.NoDup (map attributeId (attributes si))
  /\ List.NoDup (map attributeId existingLinks)
  /\ (forall e, In e existingLinks -> In e (attributes si))
  /\ (forall a, In a (attributes s) ->
                (forall e, In e links0 -> attributeId e <> attributeId a) ->
                In a (attributes si))
  /\ (forall e0, In e0 links0 ->
                 In e0 existingLinks
                 \/ (In (undeletedAttribute e0) existingLinks
                     /\ exists l, In l foundLinks /\ linkMatches l e0 = true))
  /\ (forall e, In e existingLinks ->
                In e links0
                \/ (a_isDeleted e = false
                    /\ exists e0, In e0 links0 /\ e = undeletedAttribute e0
                                  /\ exists l, In l foundLinks /\ linkMatches l e = true)
                \/ createdLink note foundLinks s e)
  /\ (forall a, In a (attributes si) -> In a (attributes s) \/ In a existingLinks).

(** Modelled from the spec: [note.getLinks()], the relations of the note of
    the four link kinds, deleted or not. *)
Definition getLinksOf (note : Note) (s : Store) : list Attribute :=
  List.filter (fun a => String.eqb (a_noteId a) (noteId note)
                        && String.eqb (a_type a) "relation"
                        && existsb (String.eqb (name a))
                             ["internalLink"; "imageLink"; "relationMapLink";
                              "includeNoteLink"])
    (attributes s).

(** A text note [a] with a live internal link to [b], a deleted one to
    [c], an image link to a note that is deleted, and a label. *)
Definition lk_store : Store :=
  mkStore
    [mkNote "root" "root" "text" "text/html" false false None 0;
     mkNote "a" "a" "text" "text/html" false false None 0;
     mkNote "b" "b" "text" "text/html" false false None 0;
     mkNote "c" "c" "text" "text/html" false false None 0;
     mkNote "d" "d" "image" "image/png" false true (Some "x") 0]
    [("a", Some "text")]
    [mkBranch "root" "root" "none" 0 "" true false None;
     mkBranch "ba" "a" "root" 10 "" false false None;
     mkBranch "bb" "b" "root" 20 "" false false None;
     mkBranch "bc" "c" "root" 30 "" false false None]
    [mkAttribute "k1" "a" "relation" "internalLink" "b" 10 false false None;
     mkAttribute "k2" "a" "relation" "internalLink" "c" 20 false true None;
     mkAttribute "k3" "a" "relation" "imageLink" "d" 30 false false None;
     mkAttribute "k4" "a" "label" "color" "red" 40 false false None]
    [] [] [] [] [] 0 0.

Definition lk_note : Note := mkNote "a" "a" "text" "text/html" false false None 0.

(** The content now links to [c] and to [root], and holds the image [d]. *)
Definition lk_found : list Link :=
  [mkLink "internalLink" "c"; mkLink "internalLink" "root"; mkLink "imageLink" "d"].

(** ** What the consistency checker keeps of notes and attributes *)

(** A note row after the checker: as it was, or coerced to a file. *)
Definition noteKept (n n' : Note) : Prop :=
  n' = n \/ n' = setNoteType "file" n.

(** An attribute row after the checker: its key, owner, value, position,
    inheritance and delete id are as they were, and a deleted attribute
    stays deleted. *)
Definition attributeKept (a a' : Attribute) : Prop :=
  attributeId a' = attributeId a /\ a_noteId a' = a_noteId a /\ value a' = value a
  /\ position a' = position a /\ isInheritable a' = isInheritable a
  /\ a_deleteId a' = a_deleteId a
  /\ (a_isDeleted a = true -> a_isDeleted a' = true).

Definition keepsRows (s s' : Store) : Prop :=
  List.Forall2 noteKept (notes s) (notes s')
  /\ List.Forall2 attributeKept (attributes s) (attributes s').

(** The primary keys of notes and attributes. *)
Definition keyed (s : Store) : Prop :=
  List.NoDup (map noteId (notes s)) /\ List.NoDup (map attributeId (attributes s)).

Definition keeping (chk : Check) : Prop :=
  forall autoFix r s s', keyed s -> fixer chk autoFix r s = Return s' -> keepsRows s s'.

(** A note of an unknown type, with an attribute of an unknown type and a
    relation without a value. *)
Definition ck_type_store : Store :=
  mkStore
    [mkNote "root" "root" "text" "text/html" false false None 0;
     mkNote "w" "w" "weird" "text/html" false false None 0]
    [("root", Some ""); ("w", Some "")]
    [mkBranch "root" "root" "none" 0 "" true false None;
     mkBranch "bw" "w" "root" 10 "" false false None]
    [mkAttribute "t1" "w" "tag" "x" "y" 0 false false None;
     mkAttribute "r1" "w" "relation" "link" "" 10 false false None]
    [] [] [] []
    [change "notes" "root"; change "notes" "w";
     change "note_contents" "root"; change "note_contents" "w";
     change "branches" "root"; change "branches" "bw";
     change "attributes" "t1"; change "attributes" "r1"]
    0 0.

(** ** Copies made by a duplication *)

(** An identifier that the generator gave out between two values of its
    counter, and one that it has given out already. *)
Definition generatedBetween (lo hi : nat) (id : string) : Prop :=
  exists k, (lo <= k < hi)%nat /\ id = genId k.

Definition generatedBelow (seed : nat) (id : string) : Prop :=
  exists k, (k < seed)%nat /\ id = genId k.

(** An identifier that the generator is not going to give out. *)
Definition settled (seed : nat) (id : string) : Prop :=
  forall k, (seed <= k)%nat -> id <> genId k.

(** No row has an identifier that is still to be generated: what the
    random identifiers of the code give. *)
Definition noteIdsFresh (s : Store) : Prop :=
  forall n, In n (notes s) -> settled (idSeed s) (noteId n).

Definition idsFresh (s : Store) : Prop :=
  noteIdsFresh s
  /\ (forall b, In b (branches s) -> settled (idSeed s) (branchId b))
  /\ (forall a, In a (attributes s) -> settled (idSeed s) (attributeId a)).

(** From one state of a duplication to a later one: identifiers are only
    given out, note rows are only added at the end, and a branch or
    attribute row under an identifier that is not going to be generated
    stays as it is. *)
Definition Grows (s s' : Store) : Prop :=
  (idSeed s <= idSeed s')%nat
  /\ (exists added, notes s' = notes s ++ added)
  /\ (forall x, In x (branches s) -> settled (idSeed s) (branchId x) -> In x (branches s'))
  /\ (forall a, In a (attributes s) -> settled (idSeed s) (attributeId a) ->
                In a (attributes s')).

(** The child branch [cb] has its copy: a new branch that places the
    note pregenerated for the child under [newNoteId], one position after
    the original, and that note exists. *)
Definition childCopied (m : NoteIdMapping) (newNoteId : string) (cb : Branch) (s : Store)
    : Prop :=
  exists newId b,
    jsGet (b_noteId cb) m = Own newId
    /\ In b (branches s) /\ generatedBelow (idSeed s) (branchId b)
    /\ b_noteId b = newId /\ parentNoteId b = newNoteId
    /\ notePosition b = jsAdd (toNumber (notePosition cb)) 1 /\ b_isDeleted b = false
    /\ getNote newId s <> None.

(** The row [a'] is the copy of the attribute [a] for the note [nx]. *)
Definition copyOf (m : NoteIdMapping) (a : Attribute) (nx : string) (a' : Attribute) : Prop :=
  a_noteId a' = nx /\ a_type a' = a_type a /\ name a' = name a
  /\ position a' = position a /\ isInheritable a' = isInheritable a
  /\ a_isDeleted a' = false
  /\ clonedValue m a = Some (value a').

(** The note [x] of the store [s0] is copied as [nx] in the store [s]:
    each of its owned attributes has its copy under a newly generated
    identifier, and each of its child branches has its copy. *)
Definition noteCopied (m : NoteIdMapping) (s0 : Store) (x nx : string) (s : Store) : Prop :=
  (forall a, In a (getOwnedAttributes x s0) ->
             exists a', In a' (attributes s)
                        /\ generatedBetween (idSeed s0) (idSeed s) (attributeId a')
                        /\ copyOf m a nx a')
  /\ (forall cb, In cb (getChildBranches x s0) -> childCopied m nx cb s).

(** Every attribute row is a row of [s0] or the copy of an owned attribute
    of a note of [s0] for the note pregenerated for it. *)
Definition onlyCopies (m : NoteIdMapping) (s0 s : Store) : Prop :=
  forall a', In a' (attributes s) ->
             In a' (attributes s0)
             \/ exists x nx a, jsGet x m = Own nx /\ In a (getOwnedAttributes x s0)
                               /\ copyOf m a nx a'.

(** The pregenerated identifiers that name no note yet. *)
Definition missingCopies (m : NoteIdMapping) (s : Store) : nat :=
  length (List.filter (fun kv => match getNote (snd kv) s with
                                 | None => true
                                 | Some _ => false
                                 end) m).

(** The state of a duplication under the mapping [m] that started from
    the store [s0], while the notes of [pending] are being copied. *)
Definition duplicating (m : NoteIdMapping) (s0 : Store) (pending : list string) (s : Store)
    : Prop :=
  Grows s0 s
  /\ onlyCopies m s0 s
  /\ forall x nx, jsGet x m = Own nx -> getNote nx s <> None ->
                  In x pending \/ noteCopied m s0 x nx s.

(** ** Properties of updateNote *)



(** * Properties *)

(** ** Saving rows: lemmas about [upsert] and the tables *)

Lemma in_upsert {A} (key : A -> string) (x : A) (l : list A) (y : A) :
  In y (upsert key x l) <-> y = x \/ (In y l /\ String.eqb (key y) (key x) = false).
Proof.
  unfold upsert.
  destruct (existsb (fun y0 => String.eqb (key y0) (key x)) l) eqn:E.
  - rewrite in_map_iff. split.
    + intros (z & Hz & Hin).
      destruct (String.eqb (key z) (key x)) eqn:K; [left; congruence|].
      right. subst y. auto.
    + intros [-> | [Hin K]].
      * apply existsb_exists in E as (z & Hz & Hk).
        exists z. rewrite Hk. auto.
      * exists y. rewrite K. auto.
  - rewrite in_app_iff. split.
    + intros [Hin | [<- | []]]; [right | left; reflexivity].
      split; [assumption|].
      destruct (String.eqb (key y) (key x)) eqn:K; [|reflexivity].
      assert (existsb (fun y0 => String.eqb (key y0) (key x)) l = true)
        by (apply existsb_exists; eauto).
      congruence.
    + intros [-> | [Hin _]]; [right; left; reflexivity | left; assumption].
Qed.

Lemma upsert_key_replaced {A} (key : A -> string) (x : A) (l : list A) (y : A) :
  In y (upsert key x l) -> key y = key x -> y = x.
Proof.
  intros Hin Hk. apply in_upsert in Hin as [-> | [_ K]]; [reflexivity|].
  rewrite Hk, String.eqb_refl in K. discriminate.
Qed.

Lemma find_some_key {A} (key : A -> string) (k : string) (l : list A) (x : A) :
  List.find (fun y => String.eqb (key y) k) l = Some x -> In x l /\ key x = k.
Proof.
  intros H. apply find_some in H as [Hin Hk]. split; [assumption|].
  now apply String.eqb_eq.
Qed.

(** [find] after an upsert: the saved row under its own key, the old
    answer under any other key. *)
Lemma find_upsert_same {A} (key : A -> string) (x : A) (l : list A) :
  List.find (fun y => String.eqb (key y) (key x)) (upsert key x l) = Some x.
Proof.
  unfold upsert.
  destruct (existsb (fun y0 => String.eqb (key y0) (key x)) l) eqn:E.
  - induction l as [|z l IH]; [discriminate|].
    simpl in *. destruct (String.eqb (key z) (key x)) eqn:K.
    + simpl. now rewrite String.eqb_refl.
    + simpl. rewrite K. apply IH. assumption.
  - induction l as [|z l IH].
    + simpl. now rewrite String.eqb_refl.
    + simpl in *. apply orb_false_iff in E as [K E]. rewrite K. auto.
Qed.

Lemma find_upsert_other {A} (key : A -> string) (x : A) (l : list A) (k : string) :
  key x <> k ->
  List.find (fun y => String.eqb (key y) k) (upsert key x l)
  = List.find (fun y => String.eqb (key y) k) l.
Proof.
  intros Hne. unfold upsert.
  assert (Hx : String.eqb (key x) k = false) by now apply String.eqb_neq.
  destruct (existsb (fun y0 => String.eqb (key y0) (key x)) l) eqn:E.
  - clear E. induction l as [|z l IH]; [reflexivity|].
    simpl. destruct (String.eqb (key z) (key x)) eqn:K.
    + apply String.eqb_eq in K. rewrite K, Hx. assumption.
    + destruct (String.eqb (key z) k); [reflexivity | assumption].
  - clear E. induction l as [|z l IH].
    + simpl. now rewrite Hx.
    + simpl. destruct (String.eqb (key z) k); [reflexivity | assumption].
Qed.



(** What a save touches. *)
Lemma saveNote_tables (n : Note) (s : Store) :
  notes (saveNote n s) = upsert noteId n (notes s)
  /\ branches (saveNote n s) = branches s
  /\ attributes (saveNote n s) = attributes s
  /\ note_revisions (saveNote n s) = note_revisions s
  /\ progressCount (saveNote n s) = progressCount s.
Proof. repeat split. Qed.

Lemma saveBranch_tables (b : Branch) (s : Store) :
  branches (saveBranch b s) = upsert branchId b (branches s)
  /\ notes (saveBranch b s) = notes s
  /\ attributes (saveBranch b s) = attributes s
  /\ note_revisions (saveBranch b s) = note_revisions s
  /\ progressCount (saveBranch b s) = progressCount s.
Proof. repeat split. Qed.

Lemma saveAttribute_tables (a : Attribute) (s : Store) :
  attributes (saveAttribute a s) = upsert attributeId a (attributes s)
  /\ notes (saveAttribute a s) = notes s
  /\ branches (saveAttribute a s) = branches s
  /\ note_revisions (saveAttribute a s) = note_revisions s
  /\ progressCount (saveAttribute a s) = progressCount s.
Proof. repeat split. Qed.




Lemma filter_remove_lt (p : string -> bool) (q : string) (l : list string) :
  In q l -> p q = true ->
  (length (List.filter (fun u => p u && negb (String.eqb u q)) l)
   < length (List.filter p l))%nat.
Proof.
  induction l as [|x l IH]; simpl; [contradiction|].
  intros [-> | Hin] Hq.
  - rewrite Hq, String.eqb_refl. simpl.
    apply Nat.lt_succ_r.
    clear IH. induction l as [|y l IH]; simpl; [lia|].
    destruct (p y); simpl; [|exact IH].
    destruct (String.eqb y q); simpl; lia.
  - specialize (IH Hin Hq). destruct (p x); simpl; [|exact IH].
    destruct (String.eqb x q); simpl; lia.
Qed.

(** ** Generated identifiers *)

Lemma genId_inj (n k : nat) : genId n = genId k -> n = k.
Proof.
  unfold genId. intros H. injection H as H. change (append EmptyString ?x) with x in H.
  apply (f_equal NilEmpty.uint_of_string) in H. rewrite !NilEmpty.usu in H.
  injection H as E.
  rewrite <- (DecimalNat.Unsigned.of_to n), <- (DecimalNat.Unsigned.of_to k).
  rewrite E. reflexivity.
Qed.

Lemma newEntityId_genId (s : Store) :
  newEntityId s = (genId (idSeed s), setIdSeed (S (idSeed s)) s).
Proof. reflexivity. Qed.

(** ** createNewNote: the position of the new branch *)







(** The claim as stated (the maximum plus 10) fails beyond the integers
    that a JS number holds exactly: with a sibling at [2^53 - 1] the new
    branch is placed at [2^53 + 8], not at [2^53 + 9]. *)
Lemma createNewNote_position_rounds :
  match createNewNote c5_session (fun _ s => s) (fun _ _ s => s) c5_params
          (setBranches (fun l => l ++ [c5_sibling "e" 9007199254740991 false]) c5_store) with
  | Return (_, branch, _) =>
    notePosition branch = 9007199254741000
    /\ notePosition branch <> 9007199254740991 + 10
  | _ => False
  end.
Proof. vm_compute. split; [reflexivity | discriminate]. Qed.

(** Siblings at positions 0, 20 and 10 (and a deleted one at 70): the new
    branch is placed at 30. *)
Example createNewNote_after_0_10_20 :
  match createNewNote c5_session (fun _ s => s) (fun _ _ s => s) c5_params c5_store with
  | Return (_, branch, _) => notePosition branch = 30
  | _ => False
  end.
Proof. vm_compute. reflexivity. Qed.

Example createNewNote_first_child :
  match createNewNote c5_session (fun _ s => s) (fun _ _ s => s)
          (mkNoteParams "root" "x" "" "text" "" false false "" None None)
          (setBranches (fun _ => []) c5_store) with
  | Return (_, branch, _) => notePosition branch = 0
  | _ => False
  end.
Proof. vm_compute. reflexivity. Qed.

(** A title of a no-break space (U+00A0) alone is blank: the call raises. *)
Example createNewNote_nbsp_title_raises :
  createNewNote c5_session (fun _ s => s) (fun _ _ s => s)
    (mkNoteParams "parent" (String "194" (String "160" "")) "" "text" "" false false ""
       None None) c5_store
  = Throw "Note title must not be empty".
Proof. reflexivity. Qed.

(** ** deleteBranch on an absent or already deleted branch *)

(** C9.  [deleteBranch] on an absent branch, or on a branch already marked
    deleted, returns [false] and leaves every entity table as it was (only
    the task's progress counter moves); the test comes before the
    root/hoisted guard, so this holds for the root branch and for the
    hoisted note's branch too, and nothing is raised. *)
Theorem deleteBranch_absent_or_deleted
    (session : Session) (fuel : nat) (branch : option Branch) (deleteId : string) (s : Store) :
  match branch with
  | None => True
  | Some b => b_isDeleted b = true
  end ->
  exists s',
    deleteBranch session (S fuel) branch deleteId s = Return (false, s')
    /\ sameEntities s s'
    /\ progressCount s' = S (progressCount s).
Proof.
  intros H. exists (increaseProgressCount s). split.
  - destruct branch as [b|]; simpl; [rewrite H|]; reflexivity.
  - split; [repeat split | reflexivity].
Qed.

Lemma deleteBranch_absent_or_deleted_witness :
  exists s',
    deleteBranch c5_session 1 (Some c9_rootBranch) "d1" c5_store = Return (false, s')
    /\ sameEntities c5_store s'
    /\ progressCount s' = S (progressCount c5_store).
Proof.
  apply (deleteBranch_absent_or_deleted c5_session 0 (Some c9_rootBranch) "d1" c5_store).
  reflexivity.
Defined.

(** The guard is reached by a root branch that is not marked deleted. *)
Example deleteBranch_root_raises :
  deleteBranch c5_session 5 (Some (mkBranch "root" "root" "none" 0 "" true false None))
    "d1" c5_store = Throw "Can't delete root branch/note".
Proof. reflexivity. Qed.

(** ** The revision policy of [updateNote] *)

Lemma createNoteRevision_taken (session : Session) (note : Note) (s : Store) :
  revisionTaken s (createNoteRevision session note s).
Proof.
  unfold revisionTaken, createNoteRevision. simpl. rewrite length_app. simpl. lia.
Qed.

Lemma not_revisionTaken_same (s : Store) : ~ revisionTaken s s.
Proof. unfold revisionTaken. lia. Qed.

Lemma find_none_existsb {A} (p : A -> bool) (l : list A) :
  List.find p l = None <-> existsb p l = false.
Proof.
  induction l as [|x l IH]; simpl; [tauto|].
  destruct (p x); simpl; [split; discriminate | exact IH].
Qed.

(** C8 (amended).  The revision step that [updateNote] runs first, on a note
    whose content is available, takes no snapshot when the note has type
    file or image or carries a [disableVersioning] label; otherwise it takes
    one if and only if no revision of the note lies within the trailing
    interval and the note's age since creation is at least that interval.
    When the content is not available, [updateNote] raises before the step. *)
Theorem saveNoteRevision_policy
    (session : Session) (hasLabel : Note -> string -> Store -> bool)
    (saveLinks : Note -> string -> Store -> Result (string * Store))
    (protectNoteRevisions : Note -> Store -> Store)
    (note : Note) (noteUpdates : NoteUpdates) (s : Store) :
  let s' := saveNoteRevision session hasLabel note s in
  let excluded := String.eqb (type note) "file" || String.eqb (type note) "image"
                  || hasLabel note "disableVersioning" s in
  let age := now session - utcDateCreated note in
  (getNote (noteId note) s = Some note ->
   updateNote session saveLinks hasLabel protectNoteRevisions (noteId note) noteUpdates s
   = if isContentAvailable session note
     then applyNoteUpdates saveLinks protectNoteRevisions note noteUpdates s'
     else Throw "Note is not available for change!")
  /\ (excluded = true -> s' = s)
  /\ (excluded = false ->
      (revisionTaken s s'
       <-> hasRecentRevision session note s = false
           /\ noteRevisionSnapshotTimeInterval session * 1000 <= age))
  /\ (~ revisionTaken s s' -> s' = s).
Proof.
  intros s' excluded age. subst s' excluded age.
  split; [|split; [|split]].
  - intros Hget. unfold updateNote. rewrite Hget.
    destruct (isContentAvailable session note); reflexivity.
  - intros E. unfold saveNoteRevision. now rewrite E.
  - intros E. unfold saveNoteRevision, hasRecentRevision. rewrite E.
    destruct (List.find _ (note_revisions s)) as [r|] eqn:F.
    + split; [intros H; now apply not_revisionTaken_same in H|].
      intros [Hex _]. apply find_none_existsb in Hex. congruence.
    + apply find_none_existsb in F. rewrite F.
      destruct (Z.leb_spec (noteRevisionSnapshotTimeInterval session * 1000)
                  (now session - utcDateCreated note)).
      * split; [auto|]. intros _. apply createNoteRevision_taken.
      * split; [intros H'; now apply not_revisionTaken_same in H'|]. intros [_ H']. lia.
  - unfold saveNoteRevision.
    destruct (_ || _ || _); [reflexivity|].
    destruct (List.find _ _); [reflexivity|].
    destruct (_ <=? _); [|reflexivity].
    intros H. exfalso. apply H. apply createNoteRevision_taken.
Qed.

(** The claim as stated (the age must exceed the interval) fails when the
    age equals the interval: the snapshot is taken. *)
Lemma saveNoteRevision_age_equal_interval :
  ~ (revisionTaken c8_store (saveNoteRevision c8_session (fun _ _ _ => false) c8_note c8_store)
     <-> hasRecentRevision c8_session c8_note c8_store = false
         /\ noteRevisionSnapshotTimeInterval c8_session * 1000
            < now c8_session - utcDateCreated c8_note).
Proof.
  intros [H _].
  assert (T : revisionTaken c8_store
                (saveNoteRevision c8_session (fun _ _ _ => false) c8_note c8_store))
    by (vm_compute; reflexivity).
  destruct (H T) as [_ Hlt]. vm_compute in Hlt. discriminate.
Qed.

(** ** duplicateSubtree: the title of the copy *)

Lemma list_ascii_of_string_app (a b : string) :
  list_ascii_of_string (a ++ b) = list_ascii_of_string a ++ list_ascii_of_string b.
Proof. induction a as [|c a IH]; simpl; [reflexivity | now rewrite IH]. Qed.

Lemma endsWith_spec (t : string) :
  endsWith t "(dup)" = isPrefixOf dupRev (rev (list_ascii_of_string t)).
Proof. reflexivity. Qed.

Lemma rev_appended (t : string) :
  rev (list_ascii_of_string (t ++ " (dup)"))
  = dupRev ++ " "%char :: rev (list_ascii_of_string t).
Proof. rewrite list_ascii_of_string_app, rev_app_distr. reflexivity. Qed.

Lemma isPrefixOf_app (p l : list ascii) : isPrefixOf p (p ++ l) = true.
Proof.
  induction p as [|a p IH]; simpl; [reflexivity|]. now rewrite Ascii.eqb_refl.
Qed.

Lemma appendDupSuffix_endsWith (t : string) : endsWith (appendDupSuffix t) "(dup)" = true.
Proof.
  unfold appendDupSuffix. destruct (endsWith t "(dup)") eqn:E; simpl; [assumption|].
  rewrite endsWith_spec, rev_appended. apply isPrefixOf_app.
Qed.

Lemma appendDupSuffix_idempotent (t : string) :
  appendDupSuffix (appendDupSuffix t) = appendDupSuffix t.
Proof.
  unfold appendDupSuffix at 1. now rewrite appendDupSuffix_endsWith.
Qed.

Lemma trailingDups_appended (t : string) :
  endsWith t "(dup)" = false -> trailingDups (t ++ " (dup)") = 1%nat.
Proof.
  intros E. unfold trailingDups. rewrite rev_appended.
  cbn [trailingDupsRev]. rewrite isPrefixOf_app.
  change (skipn 5 (dupRev ++ " "%char :: rev (list_ascii_of_string t)))
    with (" "%char :: rev (list_ascii_of_string t)).
  cbn [dropBlank]. rewrite endsWith_spec in E.
  destruct (String.length (t ++ " (dup)")); cbn [trailingDupsRev]; [reflexivity|].
  now rewrite E.
Qed.

Lemma trailingDups_positive (t : string) :
  endsWith t "(dup)" = true -> (1 <= trailingDups t)%nat.
Proof.
  intros E. unfold trailingDups. cbn [trailingDupsRev].
  rewrite endsWith_spec in E. rewrite E. lia.
Qed.

Lemma appendDupSuffix_exactly_one (t : string) :
  (trailingDups t <= 1)%nat -> trailingDups (appendDupSuffix t) = 1%nat.
Proof.
  intros H. unfold appendDupSuffix. destruct (endsWith t "(dup)") eqn:E; simpl.
  - pose proof (trailingDups_positive t E). lia.
  - now apply trailingDups_appended.
Qed.

(** ** deleteBranch: the cascade *)























(** *** Termination: the depth of the cascade is bounded by the number of
    non-deleted branches *)




(** *** What the cascade leaves behind *)

Lemma filter_nil_iff {A} (p : A -> bool) (l : list A) :
  List.filter p l = [] <-> forall x, In x l -> p x = false.
Proof.
  induction l as [|y l IH]; simpl; [tauto|].
  destruct (p y) eqn:E; split.
  - discriminate.
  - intros H. specialize (H y (or_introl eq_refl)). congruence.
  - intros H x [-> | Hx]; [assumption | now apply IH].
  - intros H. apply IH. intros x Hx. apply H. now right.
Qed.


Lemma frame_notes_stable (d : string) (s s' : Store) (P : Note -> Prop) :
  DeleteFrame d s s' ->
  (forall x, In x (notes s) -> P x -> noteMarked d x) ->
  forall x, In x (notes s') -> P x -> noteMarked d x.
Proof.
  intros (_ & N & _) H x Hx HP. destruct (N x Hx) as [Hold | Hm]; auto.
Qed.

Lemma frame_journal_stable (d : string) (s s' : Store) (e : EntityChange) :
  DeleteFrame d s s' -> In e (entity_changes s) -> In e (entity_changes s').
Proof.
  intros (_ & _ & _ & _ & _ & [evs E]) H. rewrite E. apply in_or_app. now left.
Qed.










(** *** No guard on the way: the cascade returns *)









(** The run on that store: [bp], [bc1], [bc2], the notes [p] and [c2], the
    label of [p], the relation targeting [p] and the label of [c2] are
    marked under ["d1"]; the clone [c1] survives through [bc1q], and the
    attribute deleted earlier keeps its own deleteId. *)
Example deleteBranch_cascade_run :
  match deleteBranch c5_session (S (liveBranches c1_store)) (Some c1_bp) "d1" c1_store with
  | Return (r, s') =>
    r = true
    /\ map (fun b => (branchId b, b_isDeleted b, b_deleteId b)) (branches s')
       = [("root", false, None); ("bp", true, Some "d1"); ("bq", false, None);
          ("bc1", true, Some "d1"); ("bc1q", false, None); ("bc2", true, Some "d1")]
    /\ map (fun n => (noteId n, n_isDeleted n, n_deleteId n)) (notes s')
       = [("root", false, None); ("p", true, Some "d1"); ("q", false, None);
          ("c1", false, None); ("c2", true, Some "d1")]
    /\ map (fun a => (attributeId a, a_isDeleted a, a_deleteId a)) (attributes s')
       = [("l1", true, Some "d1"); ("l0", true, Some "d0"); ("r1", true, Some "d1");
          ("l2", true, Some "d1")]
    /\ map (fun e => (entityName e, entityId e)) (entity_changes s')
       = [("branches", "bp"); ("branches", "bc1"); ("branches", "bc2"); ("notes", "c2");
          ("attributes", "l2"); ("notes", "p"); ("attributes", "l1"); ("attributes", "r1")]
  | _ => False
  end.
Proof. vm_compute. repeat split. Qed.


(** ** undeleteNote *)












(** *** Termination: every nested call restores a note first *)



(** *** The entities reached by an undeletion *)


Lemma NoDup_key_inj {A} (key : A -> string) (l : list A) (x y : A) :
  List.NoDup (map key l) -> In x l -> In y l -> key x = key y -> x = y.
Proof.
  induction l as [|z l IH]; intros Hnd Hx Hy Hk; [contradiction|].
  simpl in Hnd. apply List.NoDup_cons_iff in Hnd as [Hz Hnd].
  destruct Hx as [-> | Hx], Hy as [-> | Hy]; auto.
  - exfalso. apply Hz. rewrite Hk. now apply in_map.
  - exfalso. apply Hz. rewrite <- Hk. now apply in_map.
Qed.

















(** *** The recursion *)










(** The run: [p], its branch, its label and the relation of [q] that
    targets it come back, and so do [c2] with its branch and label; the
    attribute deleted earlier under ["d0"] stays deleted, and so does the
    branch [bc1], although it carries ["d1"], because its note [c1] was
    deleted under ["d2"]. *)
Example undeleteNote_run :
  match undeleteNote (S (deletedNotes c2_store)) c2_p "d1" c2_store with
  | Return s' =>
    map (fun b => (branchId b, b_isDeleted b, b_deleteId b)) (branches s')
    = [("root", false, None); ("bp", false, Some "d1"); ("bq", false, None);
       ("bc1", true, Some "d1"); ("bc1q", true, Some "d2"); ("bc2", false, Some "d1")]
    /\ map (fun n => (noteId n, n_isDeleted n, n_deleteId n)) (notes s')
       = [("root", false, None); ("p", false, Some "d1"); ("q", false, None);
          ("c1", true, Some "d2"); ("c2", false, Some "d1")]
    /\ map (fun a => (attributeId a, a_isDeleted a, a_deleteId a)) (attributes s')
       = [("l1", false, Some "d1"); ("l0", true, Some "d0"); ("r1", false, Some "d1");
          ("l2", false, Some "d1")]
  | _ => False
  end.
Proof. vm_compute. repeat split. Qed.


(** ** Duplication: the store only grows *)

Lemma forEach_inv {A S} (f : A -> S -> Result S) (I : S -> Prop) (l : list A) :
  (forall x s s', In x l -> I s -> f x s = Return s' -> I s') ->
  forall s s', I s -> forEach f l s = Return s' -> I s'.
Proof.
  induction l as [|x l IH]; intros Hf s s' Hs Hrun; simpl in Hrun.
  - now inversion Hrun; subst.
  - destruct (f x s) as [s1| |] eqn:E; cbn [bind] in Hrun; try discriminate.
    apply (IH (fun y t t' Hy => Hf y t t' (or_intror Hy)) s1 s'); [|assumption].
    apply (Hf x s s1); auto. now left.
Qed.

Lemma generatedBelow_le (n k : nat) (id : string) :
  (n <= k)%nat -> generatedBelow n id -> generatedBelow k id.
Proof. intros Hle (j & Hj & ->). exists j. split; [lia | reflexivity]. Qed.

Lemma generatedBetween_le (lo hi hi' : nat) (id : string) :
  (hi <= hi')%nat -> generatedBetween lo hi id -> generatedBetween lo hi' id.
Proof. intros Hle (j & Hj & ->). exists j. split; [lia | reflexivity]. Qed.

Lemma generatedBelow_settled (seed : nat) (id : string) :
  generatedBelow seed id -> settled seed id.
Proof. intros (k & Hk & ->) j Hj E. apply genId_inj in E. lia. Qed.

Lemma generatedBetween_settled (lo hi : nat) (id : string) :
  generatedBetween lo hi id -> settled hi id.
Proof. intros (k & Hk & ->) j Hj E. apply genId_inj in E. lia. Qed.

Lemma settled_le (seed seed' : nat) (id : string) :
  (seed <= seed')%nat -> settled seed id -> settled seed' id.
Proof. intros Hle H k Hk. apply H. lia. Qed.

Lemma settled_not_generated (seed lo hi : nat) (id : string) :
  (seed <= lo)%nat -> settled seed id -> ~ generatedBetween lo hi id.
Proof. intros Hle H (k & Hk & E). apply (H k); [lia | exact E]. Qed.

Lemma Grows_refl (s : Store) : Grows s s.
Proof.
  split; [lia|]. split; [exists []; now rewrite app_nil_r | auto].
Qed.

Lemma Grows_trans (s1 s2 s3 : Store) : Grows s1 s2 -> Grows s2 s3 -> Grows s1 s3.
Proof.
  intros (H1 & [a1 Hn1] & Hb1 & Ha1) (H2 & [a2 Hn2] & Hb2 & Ha2). split; [lia|]. split.
  - exists (a1 ++ a2). rewrite Hn2, Hn1, app_assoc. reflexivity.
  - split.
    + intros x Hx Hg. apply Hb2; [apply Hb1; assumption|]. exact (settled_le _ _ _ H1 Hg).
    + intros x Hx Hg. apply Ha2; [apply Ha1; assumption|]. exact (settled_le _ _ _ H1 Hg).
Qed.

Lemma Grows_same (s s' : Store) :
  (idSeed s <= idSeed s')%nat -> notes s' = notes s -> branches s' = branches s ->
  attributes s' = attributes s ->
  Grows s s'.
Proof.
  intros Hseed Hn Hb Ha. split; [exact Hseed|]. split.
  - exists []. now rewrite app_nil_r.
  - split; intros x Hx _; [rewrite Hb | rewrite Ha]; exact Hx.
Qed.

(** Saving a branch or an attribute under the identifier just generated. *)
Lemma saveBranch_grows (s : Store) (b : Branch) :
  branchId b = genId (idSeed s) ->
  Grows s (saveBranch b (setIdSeed (S (idSeed s)) s)).
Proof.
  intros Hid. split; [simpl; lia|]. split; [exists []; simpl; now rewrite app_nil_r|].
  split.
  - intros x Hx Hs. simpl. apply in_upsert. right. split; [exact Hx|].
    apply String.eqb_neq. rewrite Hid. apply Hs. lia.
  - intros a Ha _. exact Ha.
Qed.

Lemma saveAttribute_grows (s : Store) (a : Attribute) :
  attributeId a = genId (idSeed s) ->
  Grows s (saveAttribute a (setIdSeed (S (idSeed s)) s)).
Proof.
  intros Hid. split; [simpl; lia|]. split; [exists []; simpl; now rewrite app_nil_r|].
  split.
  - intros x Hx _. exact Hx.
  - intros x Hx Hs. simpl. apply in_upsert. right. split; [exact Hx|].
    apply String.eqb_neq. rewrite Hid. apply Hs. lia.
Qed.

(** Saving a note under an identifier that names no note yet. *)
Lemma saveNote_new (s : Store) (n : Note) :
  getNote (noteId n) s = None ->
  notes (saveNote n s) = notes s ++ [n].
Proof.
  intros H. change (notes (saveNote n s)) with (upsert noteId n (notes s)).
  unfold upsert. unfold getNote in H. apply find_none_existsb in H. rewrite H. reflexivity.
Qed.

Lemma saveNote_grows (s : Store) (n : Note) :
  getNote (noteId n) s = None -> Grows s (saveNote n s).
Proof.
  intros H. split; [simpl; lia|]. split; [exists [n]; apply saveNote_new, H|].
  split; intros x Hx _; exact Hx.
Qed.

Lemma getNote_app (l added : list Note) (id : string) (n : Note) :
  List.find (fun n => String.eqb (noteId n) id) l = Some n ->
  List.find (fun n => String.eqb (noteId n) id) (l ++ added) = Some n.
Proof.
  induction l as [|x l IH]; simpl; [discriminate|].
  destruct (String.eqb (noteId x) id); [auto | exact IH].
Qed.

(** A note that is there stays, row and all. *)
Lemma getNote_grows_some (s s' : Store) (id : string) (n : Note) :
  Grows s s' -> getNote id s = Some n -> getNote id s' = Some n.
Proof.
  intros (_ & [added Hn] & _) H. unfold getNote in *. rewrite Hn. apply getNote_app, H.
Qed.

Lemma getNote_grows (s s' : Store) (id : string) :
  Grows s s' -> getNote id s <> None -> getNote id s' <> None.
Proof.
  intros Hg H. destruct (getNote id s) as [n|] eqn:E; [|contradiction].
  rewrite (getNote_grows_some s s' id n Hg E). discriminate.
Qed.

Lemma childCopied_grows (m : NoteIdMapping) (newNoteId : string) (cb : Branch)
    (s s' : Store) :
  childCopied m newNoteId cb s -> Grows s s' -> childCopied m newNoteId cb s'.
Proof.
  intros (newId & b & Hm & Hin & Hg & Hfields) Hgrows.
  exists newId, b. split; [exact Hm|].
  pose proof Hgrows as (Hseed & Hn & Hb & _).
  split; [apply Hb; [exact Hin | apply generatedBelow_settled, Hg]|].
  split; [exact (generatedBelow_le _ _ _ Hseed Hg)|].
  destruct Hfields as (F1 & F2 & F3 & F4 & F5).
  repeat (split; [assumption|]).
  apply (getNote_grows s s'); [exact Hgrows | exact F5].
Qed.

Lemma noteCopied_grows (m : NoteIdMapping) (s0 : Store) (x nx : string) (s s' : Store) :
  noteCopied m s0 x nx s -> Grows s s' -> noteCopied m s0 x nx s'.
Proof.
  intros [Hattrs Hchildren] Hg. split.
  - intros a Ha. destruct (Hattrs a Ha) as (a' & Hin & Hgen & Hcopy).
    exists a'. pose proof Hg as (Hseed & _ & _ & Hkeep).
    split; [apply Hkeep; [exact Hin | exact (generatedBetween_settled _ _ _ Hgen)]|].
    split; [exact (generatedBetween_le _ _ _ _ Hseed Hgen) | exact Hcopy].
  - intros cb Hcb. exact (childCopied_grows _ _ _ _ _ (Hchildren cb Hcb) Hg).
Qed.

(** A loop that only grows the store and leaves, for each element, a fact
    that growing keeps. *)
Lemma forEach_grows {A} (f : A -> Store -> Result Store) (I : Store -> Prop)
    (Q : A -> Store -> Prop) (l : list A) :
  (forall x s s', Q x s -> Grows s s' -> Q x s') ->
  (forall x s s', In x l -> I s -> f x s = Return s' -> Grows s s' /\ I s' /\ Q x s') ->
  forall s s', I s -> forEach f l s = Return s' ->
               Grows s s' /\ I s' /\ forall x, In x l -> Q x s'.
Proof.
  intros Hmono. induction l as [|x l IH]; intros Hf s s' Hs H; simpl in H.
  - injection H as <-. split; [apply Grows_refl|]. split; [exact Hs | intros x []].
  - destruct (f x s) as [s1| |] eqn:E; cbn [bind] in H; try discriminate.
    destruct (Hf x s s1 (or_introl eq_refl) Hs E) as (Hg & Hs1 & Hq).
    destruct (IH (fun y t t' Hy => Hf y t t' (or_intror Hy)) s1 s' Hs1 H)
      as (Hg' & Hs' & Hrest).
    split; [exact (Grows_trans _ _ _ Hg Hg')|]. split; [exact Hs'|].
    intros y [<- | Hy]; [exact (Hmono _ _ _ Hq Hg') | apply Hrest, Hy].
Qed.

(** ** getNoteIdMapping: the pregenerated identifiers *)

Lemma jsGet_own_in {V} (k : string) (v : V) (o : JsObject V) :
  jsGet k o = Own v -> In (k, v) o.
Proof.
  unfold jsGet. intros H.
  destruct (List.find (fun kv => String.eqb (fst kv) k) o) as [[k' v']|] eqn:E.
  - injection H as <-. apply find_some in E as [Hin Hk].
    apply String.eqb_eq in Hk. simpl in Hk. subst k'. exact Hin.
  - destruct (isPrototypeKey k); discriminate.
Qed.

Lemma hasOwn_jsGet {V} (k : string) (o : JsObject V) :
  hasOwn k o = true <-> exists v, jsGet k o = Own v.
Proof.
  unfold hasOwn, jsGet. split.
  - intros H. destruct (List.find (fun kv => String.eqb (fst kv) k) o) as [kv|] eqn:E.
    + eexists; reflexivity.
    + apply find_none_existsb in E. congruence.
  - intros [v H]. destruct (List.find (fun kv => String.eqb (fst kv) k) o) as [kv|] eqn:E.
    + apply find_some in E as [Hin Hk]. apply existsb_exists. exists kv. auto.
    + destruct (isPrototypeKey k); discriminate.
Qed.

Lemma hasOwn_jsSet {V} (v k : string) (n : V) (o : JsObject V) :
  hasOwn v (jsSet k n o) = true
  <-> (v = k /\ k <> "__proto__") \/ hasOwn v o = true.
Proof.
  unfold jsSet. destruct (String.eqb k "__proto__") eqn:P.
  - apply String.eqb_eq in P. split; [auto | intros [[_ H] | H]; [contradiction | exact H]].
  - apply String.eqb_neq in P. unfold hasOwn. rewrite !existsb_exists. split.
    + intros (y & Hin & Hy). apply String.eqb_eq in Hy.
      apply in_upsert in Hin as [-> | [Hin _]]; [left; split; [now symmetry | exact P]|].
      right. exists y. split; [assumption|]. now apply String.eqb_eq.
    + intros [[-> _] | (y & Hin & Hy)].
      * exists (k, n). split; [apply in_upsert; now left | apply String.eqb_refl].
      * apply String.eqb_eq in Hy.
        destruct (String.eqb (fst y) k) eqn:K.
        -- apply String.eqb_eq in K. exists (k, n).
           split; [apply in_upsert; now left|]. simpl. apply String.eqb_eq. congruence.
        -- exists y. split; [|now apply String.eqb_eq].
           apply in_upsert. right. auto.
Qed.

Lemma in_jsSet {V} (k : string) (n : V) (o : JsObject V) (kv : string * V) :
  In kv (jsSet k n o) -> kv = (k, n) \/ In kv o.
Proof.
  unfold jsSet. destruct (String.eqb k "__proto__"); [auto|].
  intros H. apply in_upsert in H as [-> | [H _]]; auto.
Qed.

(** The loop of [getNoteIdMapping]: the tables stay, the keys are the ids
    of the list (but [__proto__]), the values are generated one after the
    other, no two of them alike. *)
Lemma mapping_loop (seed0 : nat) (ids : list string) :
  forall (m : NoteIdMapping) (s : Store),
    (seed0 <= idSeed s)%nat ->
    (forall k v, In (k, v) m -> generatedBetween seed0 (idSeed s) v) ->
    (forall k1 k2 v, In (k1, v) m -> In (k2, v) m -> k1 = k2) ->
    let r := fold_left (fun '(noteIdMapping, s) origNoteId =>
                          let '(newId, s) := newEntityId s in
                          (jsSet origNoteId newId noteIdMapping, s))
               ids (m, s) in
    (idSeed s <= idSeed (snd r))%nat
    /\ notes (snd r) = notes s /\ branches (snd r) = branches s
    /\ attributes (snd r) = attributes s /\ note_contents (snd r) = note_contents s
    /\ (forall k v, In (k, v) (fst r) -> generatedBetween seed0 (idSeed (snd r)) v)
    /\ (forall k1 k2 v, In (k1, v) (fst r) -> In (k2, v) (fst r) -> k1 = k2)
    /\ (forall k, hasOwn k (fst r) = true
                  <-> (In k ids /\ k <> "__proto__") \/ hasOwn k m = true).
Proof.
  induction ids as [|i ids IH]; intros m s Hseed Hgen Hinj.
  - cbn [fold_left fst snd]. split; [lia|]. repeat (split; [reflexivity|]).
    split; [exact Hgen|]. split; [exact Hinj|]. intros k. split; [auto|].
    intros [[[] _] | H]; exact H.
  - cbn [fold_left]. rewrite newEntityId_genId. cbv beta iota zeta.
    destruct (IH (jsSet i (genId (idSeed s)) m) (setIdSeed (S (idSeed s)) s))
      as (H1 & H2 & H3 & H4 & H5 & H6 & H7 & H8).
    + simpl. lia.
    + intros k v Hin. apply in_jsSet in Hin as [E | Hin].
      * injection E as -> ->. exists (idSeed s). split; [simpl; lia | reflexivity].
      * destruct (Hgen k v Hin) as (j & Hj & ->). exists j. split; [simpl; lia | reflexivity].
    + intros k1 k2 v K1 K2.
      apply in_jsSet in K1 as [E1 | K1]; apply in_jsSet in K2 as [E2 | K2].
      * congruence.
      * injection E1 as -> ->. destruct (Hgen k2 _ K2) as (j & Hj & E).
        apply genId_inj in E. lia.
      * injection E2 as -> ->. destruct (Hgen k1 _ K1) as (j & Hj & E).
        apply genId_inj in E. lia.
      * exact (Hinj k1 k2 v K1 K2).
    + change (idSeed (setIdSeed (S (idSeed s)) s)) with (S (idSeed s)) in H1.
      split; [exact (Nat.le_trans _ _ _ (Nat.le_succ_diag_r _) H1)|].
      split; [exact H2|]. split; [exact H3|].
      split; [exact H4|]. split; [exact H5|]. split; [exact H6|]. split; [exact H7|].
      intros k. rewrite H8, hasOwn_jsSet. simpl. intuition (subst; auto).
Qed.

Lemma getNoteIdMapping_spec (origNote : Note) (s : Store) :
  let m := fst (getNoteIdMapping origNote s) in
  let s0 := snd (getNoteIdMapping origNote s) in
  (idSeed s <= idSeed s0)%nat
  /\ notes s0 = notes s /\ branches s0 = branches s /\ attributes s0 = attributes s
  /\ note_contents s0 = note_contents s
  /\ (forall k v, jsGet k m = Own v -> generatedBetween (idSeed s) (idSeed s0) v)
  /\ (forall k1 k2 v, jsGet k1 m = Own v -> jsGet k2 m = Own v -> k1 = k2)
  /\ (forall k, (exists v, jsGet k m = Own v)
                <-> In k (getDescendantNoteIds (noteId origNote) s) /\ k <> "__proto__").
Proof.
  unfold getNoteIdMapping.
  destruct (mapping_loop (idSeed s) (getDescendantNoteIds (noteId origNote) s) [] s)
    as (H1 & H2 & H3 & H4 & H5 & H6 & H7 & H8).
  - lia.
  - intros k v [].
  - intros k1 k2 v [].
  - cbv zeta. split; [exact H1|]. split; [exact H2|]. split; [exact H3|].
    split; [exact H4|]. split; [exact H5|]. split; [|split].
    + intros k v H. apply (H6 k v). apply jsGet_own_in. exact H.
    + intros k1 k2 v K1 K2. apply (H7 k1 k2 v); apply jsGet_own_in; assumption.
    + intros k. rewrite <- hasOwn_jsGet, H8. simpl. intuition discriminate.
Qed.

Lemma addNew_spec (acc new : list string) (x : string) :
  In x (addNew acc new) <-> In x acc \/ In x new.
Proof.
  unfold addNew. revert acc. induction new as [|y new IH]; intros acc; simpl; [tauto|].
  rewrite IH. destruct (existsb (String.eqb y) acc) eqn:E.
  - apply existsb_exists in E as (z & Hz & E). apply String.eqb_eq in E. subst z.
    intuition (subst; auto).
  - rewrite in_app_iff. simpl. tauto.
Qed.

(** A descendant is the note itself or a note of the store. *)
Lemma descendantsFrom_notes (fuel : nat) (s : Store) (P : string -> Prop) :
  forall acc,
    (forall x, In x acc -> P x) ->
    (forall n, In n (notes s) -> P (noteId n)) ->
    forall x, In x (descendantsFrom fuel acc s) -> P x.
Proof.
  induction fuel as [|fuel IH]; intros acc Hacc Hnotes x Hx; simpl in Hx; [auto|].
  destruct (_ =? _)%nat; [auto|].
  apply (IH _) in Hx; [exact Hx| |exact Hnotes].
  intros y Hy. apply addNew_spec in Hy as [Hy | Hy]; [auto|].
  apply in_flat_map in Hy as (z & _ & Hy). unfold childNoteIds in Hy.
  apply in_map_iff in Hy as (b & <- & Hb). apply List.filter_In in Hb as [_ Hb].
  apply andb_prop in Hb as [_ Hb]. apply existsb_exists in Hb as (n & Hn & Hk).
  apply andb_prop in Hk as [Hk _]. apply String.eqb_eq in Hk. rewrite <- Hk. auto.
Qed.

Lemma descendantsFrom_incl (fuel : nat) (acc : list string) (s : Store)
    (x : string) :
  In x acc -> In x (descendantsFrom fuel acc s).
Proof.
  revert acc. induction fuel as [|fuel IH]; intros acc H; simpl; [assumption|].
  destruct (_ =? _)%nat; [assumption|]. apply IH. apply addNew_spec. now left.
Qed.

(** ** duplicateSubtreeInner: what a call that returns has done *)

Lemma duplicateSubtreeInner_grows (session : Session)
    (regExpReplace : string -> string -> (string -> string) -> option string)
    (m : NoteIdMapping) (fuel : nat) :
  forall origNote origBranch newParentNoteId s note branch s',
    duplicateSubtreeInner session regExpReplace fuel origNote origBranch newParentNoteId m s
    = Return (note, branch, s') ->
    Grows s s'
    /\ In branch (branches s')
    /\ generatedBelow (idSeed s') (branchId branch)
    /\ jsGet (noteId origNote) m = Own (b_noteId branch)
    /\ parentNoteId branch = newParentNoteId
    /\ (forall b, origBranch = Some b ->
                  notePosition branch = jsAdd (toNumber (notePosition b)) 1)
    /\ b_isDeleted branch = false
    /\ getNote (b_noteId branch) s' = Some note
    /\ (getNote (b_noteId branch) s = None -> title note = title origNote).
Proof.
  induction fuel as [|fuel IH]; intros origNote origBranch newParentNoteId s note branch s'
    Hrun; [discriminate|].
  cbn [duplicateSubtreeInner] in Hrun.
  destruct (isProtected origNote && negb (protectedSessionAvailable session));
    [discriminate|].
  destruct (jsGet (noteId origNote) m) as [newNoteId| |]; [|discriminate|discriminate].
  rewrite newEntityId_genId in Hrun. cbv beta iota zeta in Hrun.
  set (s1 := setIdSeed (S (idSeed s)) s) in *.
  set (newBranch := mkBranch (genId (idSeed s)) newNoteId newParentNoteId
                      match origBranch with
                      | Some b => jsAdd (toNumber (notePosition b)) 1
                      | None => getNewNotePosition newParentNoteId s1
                      end "" false false None) in *.
  assert (Hg1 : Grows s (saveBranch newBranch s1)) by (apply saveBranch_grows; reflexivity).
  assert (Hin1 : In newBranch (branches (saveBranch newBranch s1)))
    by (simpl; apply in_upsert; left; reflexivity).
  assert (Hgen1 : generatedBelow (idSeed (saveBranch newBranch s1)) (branchId newBranch)).
  { exists (idSeed s). split; [simpl; lia | reflexivity]. }
  assert (Hpos : forall b, origBranch = Some b ->
                           notePosition newBranch = jsAdd (toNumber (notePosition b)) 1)
    by (intros b ->; reflexivity).
  destruct (getNote newNoteId (saveBranch newBranch s1)) as [existing|] eqn:Hex.
  - injection Hrun as <- <- <-.
    split; [exact Hg1|]. split; [exact Hin1|]. split; [exact Hgen1|].
    split; [reflexivity|]. split; [reflexivity|]. split; [exact Hpos|].
    split; [reflexivity|]. split; [exact Hex|].
    intros Hnone. change (getNote newNoteId s = None) in Hnone.
    change (getNote newNoteId s = Some existing) in Hex. congruence.
  - match type of Hrun with
    | bind ?c _ = _ => destruct c as [content| |]; cbn [bind] in Hrun; try discriminate
    end.
    match type of Hrun with
    | bind (forEach ?f ?l ?st) _ = _ =>
      destruct (forEach f l st) as [s2| |] eqn:Hattrs; cbn [bind] in Hrun; try discriminate
    end.
    match type of Hrun with
    | bind (forEach ?f ?l ?st) _ = _ =>
      destruct (forEach f l st) as [s3| |] eqn:Hloop; cbn [bind] in Hrun; try discriminate
    end.
    injection Hrun as <- <- <-.
    set (newNote := mkNote newNoteId (title origNote) (type origNote) (mime origNote)
                      (isProtected origNote) (n_isDeleted origNote) (n_deleteId origNote)
                      (now session)) in *.
    assert (Hg2 : Grows (saveBranch newBranch s1) (saveNote newNote (saveBranch newBranch s1)))
      by (apply saveNote_grows; exact Hex).
    assert (Hnote : getNote newNoteId (saveNote newNote (saveBranch newBranch s1))
                    = Some newNote).
    { unfold getNote.
      change (notes (saveNote newNote (saveBranch newBranch s1)))
        with (upsert noteId newNote (notes (saveBranch newBranch s1))).
      change newNoteId with (noteId newNote) at 1.
      apply find_upsert_same. }
    apply (forEach_grows _ (fun _ => True) (fun _ _ => True)) in Hattrs as [Hg3 _];
      [|auto| |exact I].
    2: { intros attribute st st' _ _ Hstep.
         destruct (clonedValue m attribute) as [v|]; [|discriminate].
         rewrite newEntityId_genId in Hstep. cbv beta iota in Hstep.
         injection Hstep as <-. split; [|auto].
         apply saveAttribute_grows. reflexivity. }
    apply (forEach_grows _ (fun _ => True) (fun _ _ => True)) in Hloop as [Hg4 _];
      [|auto| |exact I].
    2: { intros childBranch st st' _ _ Hstep.
         destruct (getNote (b_noteId childBranch) st) as [child|]; [|discriminate].
         match type of Hstep with
         | bind ?c _ = _ => destruct c as [[[n1 b1] s4]| |] eqn:Hc; cbn [bind] in Hstep;
                              try discriminate
         end.
         injection Hstep as <-. cbn [snd]. split; [|auto].
         exact (proj1 (IH _ _ _ _ _ _ _ Hc)). }
    assert (Hg : Grows (saveNote newNote (saveBranch newBranch s1)) s3).
    { eapply Grows_trans; [|exact Hg4]. eapply Grows_trans; [|exact Hg3].
      apply Grows_same; reflexivity || (simpl; lia). }
    pose proof (Grows_trans _ _ _ Hg2 Hg) as Hg'.
    split; [exact (Grows_trans _ _ _ Hg1 Hg')|].
    split; [destruct Hg' as (_ & _ & Hb & _); apply Hb;
            [exact Hin1 | exact (generatedBelow_settled _ _ Hgen1)]|].
    split; [destruct Hg' as (Hseed & _); exact (generatedBelow_le _ _ _ Hseed Hgen1)|].
    split; [reflexivity|]. split; [reflexivity|]. split; [exact Hpos|].
    split; [reflexivity|].
    split; [exact (getNote_grows_some _ _ _ _ Hg Hnote) | reflexivity].
Qed.

(** ** duplicateSubtreeInner: the calls end *)

Lemma forEach_total {A S} (f : A -> S -> Result S) (l : list A) :
  (forall x s, f x s <> OutOfFuel) -> forall s, forEach f l s <> OutOfFuel.
Proof.
  intros Hf. induction l as [|x l IH]; intros s; simpl; [discriminate|].
  pose proof (Hf x s) as Hx.
  destruct (f x s); simpl; [apply IH | discriminate | contradiction].
Qed.


Lemma forEach_total_inv {A S} (f : A -> S -> Result S) (J : S -> Prop) (l : list A) :
  (forall x s, J s -> f x s <> OutOfFuel) ->
  (forall x s s', J s -> f x s = Return s' -> J s') ->
  forall s, J s -> forEach f l s <> OutOfFuel.
Proof.
  intros Hf Hkeep. induction l as [|x l IH]; intros s Hs; simpl; [discriminate|].
  pose proof (Hf x s Hs) as Hx. pose proof (Hkeep x s) as Hk.
  destruct (f x s) as [s1| |]; simpl; [apply IH, (Hk s1 Hs eq_refl) | discriminate |
                                       contradiction].
Qed.

Lemma filter_length_mono {A} (p q : A -> bool) (l : list A) :
  (forall x, In x l -> q x = true -> p x = true) ->
  (length (List.filter q l) <= length (List.filter p l))%nat.
Proof.
  induction l as [|x l IH]; intros H; simpl; [lia|].
  assert (IH' := IH (fun y Hy => H y (or_intror Hy))).
  pose proof (H x (or_introl eq_refl)) as Hx.
  destruct (q x); [rewrite (Hx eq_refl); simpl; lia|].
  destruct (p x); simpl; lia.
Qed.

Lemma filter_length_less {A} (p q : A -> bool) (l : list A) (y : A) :
  (forall x, In x l -> q x = true -> p x = true) ->
  In y l -> p y = true -> q y = false ->
  (length (List.filter q l) < length (List.filter p l))%nat.
Proof.
  induction l as [|x l IH]; intros H Hy Hp Hq; [destruct Hy|].
  simpl. destruct Hy as [-> | Hy].
  - rewrite Hp, Hq. simpl.
    pose proof (filter_length_mono p q l (fun z Hz => H z (or_intror Hz))). lia.
  - specialize (IH (fun z Hz => H z (or_intror Hz)) Hy Hp Hq).
    pose proof (H x (or_introl eq_refl)) as Hx.
    destruct (q x); [rewrite (Hx eq_refl); simpl; lia|].
    destruct (p x); simpl; lia.
Qed.

Lemma missingCopies_grows (m : NoteIdMapping) (s s' : Store) :
  Grows s s' -> (missingCopies m s' <= missingCopies m s)%nat.
Proof.
  intros Hg. unfold missingCopies. apply filter_length_mono. intros kv _ H.
  destruct (getNote (snd kv) s) as [n|] eqn:E; [|reflexivity].
  rewrite (getNote_grows_some s s' _ n Hg E) in H. discriminate.
Qed.

Lemma duplicateSubtreeInner_total (session : Session)
    (regExpReplace : string -> string -> (string -> string) -> option string)
    (m : NoteIdMapping) (fuel : nat) :
  forall origNote origBranch newParentNoteId s,
    (missingCopies m s < fuel)%nat ->
    duplicateSubtreeInner session regExpReplace fuel origNote origBranch newParentNoteId m s
    <> OutOfFuel.
Proof.
  induction fuel as [|fuel IH]; intros origNote origBranch newParentNoteId s Hfuel; [lia|].
  cbn [duplicateSubtreeInner].
  destruct (isProtected origNote && negb (protectedSessionAvailable session));
    [discriminate|].
  destruct (jsGet (noteId origNote) m) as [newNoteId| |] eqn:Hmap;
    [|discriminate|discriminate].
  rewrite newEntityId_genId. cbv beta iota zeta.
  set (s1 := setIdSeed (S (idSeed s)) s).
  set (newBranch := mkBranch (genId (idSeed s)) newNoteId newParentNoteId
                      match origBranch with
                      | Some b => jsAdd (toNumber (notePosition b)) 1
                      | None => getNewNotePosition newParentNoteId s1
                      end "" false false None).
  destruct (getNote newNoteId (saveBranch newBranch s1)) as [existing|] eqn:Hex;
    [discriminate|].
  set (newNote := mkNote newNoteId (title origNote) (type origNote) (mime origNote)
                    (isProtected origNote) (n_isDeleted origNote) (n_deleteId origNote)
                    (now session)).
  set (s2 := saveNote newNote (saveBranch newBranch s1)).
  assert (Hless : (missingCopies m s2 < missingCopies m s)%nat).
  { unfold missingCopies.
    apply (filter_length_less _ _ m (noteId origNote, newNoteId)).
    - intros kv _ H. destruct (getNote (snd kv) s) as [n|] eqn:E; [|reflexivity].
      assert (Hg : Grows s s2).
      { eapply Grows_trans; [apply (saveBranch_grows s newBranch); reflexivity|].
        apply saveNote_grows. exact Hex. }
      rewrite (getNote_grows_some s s2 _ n Hg E) in H. discriminate.
    - apply jsGet_own_in, Hmap.
    - cbn [snd]. change (getNote newNoteId s) with (getNote newNoteId (saveBranch newBranch s1)).
      rewrite Hex. reflexivity.
    - cbn [snd]. unfold s2, getNote.
      change (notes (saveNote newNote (saveBranch newBranch s1)))
        with (upsert noteId newNote (notes (saveBranch newBranch s1))).
      change newNoteId with (noteId newNote) at 1.
      rewrite find_upsert_same. reflexivity. }
  match goal with
  | |- bind ?c _ <> _ =>
    assert (Hc : c <> OutOfFuel);
      [|destruct c as [content| |]; cbn [bind]; [|discriminate|contradiction]]
  end.
  { destruct (existsb _ _); [|discriminate].
    destruct (getContent _ _); [|discriminate].
    unfold replaceByMap. destruct (regExpReplace _ _ _); discriminate. }
  set (s3 := setContent (noteId newNote) content s2).
  assert (Hg3 : Grows s2 s3) by (apply Grows_same; reflexivity || (simpl; lia)).
  match goal with
  | |- bind (forEach ?f ?l ?st) _ <> _ =>
    assert (Ha : forall attribute st0, f attribute st0 <> OutOfFuel);
      [intros attribute st0; cbv beta; destruct (clonedValue m attribute);
       [rewrite newEntityId_genId; cbv beta iota|]; discriminate|];
      pose proof (forEach_total f l Ha st) as Ha';
      destruct (forEach f l st) as [s4| |] eqn:Hattrs; cbn [bind];
        [|discriminate|contradiction]
  end.
  clear Ha Ha'.
  apply (forEach_grows _ (fun _ => True) (fun _ _ => True)) in Hattrs as [Hg4 _];
    [|auto| |exact I].
  2: { intros attribute st st' _ _ Hstep.
       destruct (clonedValue m attribute) as [v|]; [|discriminate].
       rewrite newEntityId_genId in Hstep. cbv beta iota in Hstep.
       injection Hstep as <-. split; [|auto].
       apply saveAttribute_grows. reflexivity. }
  match goal with
  | |- bind (forEach ?f ?l ?st) _ <> _ =>
    pose proof (forEach_total_inv f (fun st => (missingCopies m st < fuel)%nat) l) as Hc';
      destruct (forEach f l st) as [s5| |] eqn:Hloop; cbn [bind];
        [discriminate|discriminate|exfalso; revert Hloop; apply Hc']
  end.
  - intros cb st Hst. destruct (getNote (b_noteId cb) st) as [child|]; [|discriminate].
    pose proof (IH child (Some cb) (noteId newNote) st Hst) as Hcall.
    destruct (duplicateSubtreeInner session regExpReplace fuel child (Some cb)
                (noteId newNote) m st) as [[[n1 b1] s6]| |]; cbn [bind];
      [discriminate | discriminate | contradiction].
  - intros cb st st' Hst Hstep.
    destruct (getNote (b_noteId cb) st) as [child|]; [|discriminate].
    match type of Hstep with
    | bind ?c _ = _ => destruct c as [[[n1 b1] s6]| |] eqn:Hcall; cbn [bind] in Hstep;
                         try discriminate
    end.
    injection Hstep as <-. cbn [snd].
    pose proof (missingCopies_grows m st s6
                  (proj1 (duplicateSubtreeInner_grows _ _ _ _ _ _ _ _ _ _ _ Hcall))).
    lia.
  - pose proof (missingCopies_grows m s2 s4 (Grows_trans _ _ _ Hg3 Hg4)). lia.
Qed.

Lemma missingCopies_bound (m : NoteIdMapping) (s : Store) :
  (missingCopies m s < duplicateFuel m)%nat.
Proof.
  unfold missingCopies, duplicateFuel.
  pose proof (filter_length_le
                (fun kv : string * string => match getNote (snd kv) s with
                                             | None => true
                                             | Some _ => false
                                             end) m).
  lia.
Qed.

(** ** duplicateSubtreeInner: every note it copies is copied whole *)

Lemma find_snoc {A} (p : A -> bool) (l : list A) (x : A) :
  List.find p l = None -> List.find p (l ++ [x]) <> None -> p x = true.
Proof.
  induction l as [|y l IH]; simpl.
  - intros _ H. destruct (p x); [reflexivity | contradiction].
  - destruct (p y); [discriminate | exact IH].
Qed.

Section Duplicating.

Variable session : Session.
Variable regExpReplace : string -> string -> (string -> string) -> option string.
Variable m : NoteIdMapping.
Variable s0 : Store.
Variable seed : nat.

Hypothesis Hseed : (seed <= idSeed s0)%nat.
Hypothesis Hkeys : forall x nx, jsGet x m = Own nx -> settled seed x.
Hypothesis Hvalues : forall x nx, jsGet x m = Own nx -> generatedBetween seed (idSeed s0) nx.
Hypothesis Hinj : forall x x' nx, jsGet x m = Own nx -> jsGet x' m = Own nx -> x = x'.
Hypothesis Hbranches : forall b, In b (branches s0) -> settled (idSeed s0) (branchId b).
Hypothesis Hattributes : forall a, In a (attributes s0) -> settled (idSeed s0) (attributeId a).

Lemma duplicating_step (P P' : list string) (s s' : Store) :
  duplicating m s0 P s -> Grows s s' -> onlyCopies m s0 s' ->
  (forall x nx, jsGet x m = Own nx -> getNote nx s' <> None -> getNote nx s = None ->
                In x P') ->
  (forall x, In x P -> In x P') ->
  duplicating m s0 P' s'.
Proof.
  intros (Hg0 & _ & Hcopied) Hg Honly Hnew Hincl.
  split; [exact (Grows_trans _ _ _ Hg0 Hg)|]. split; [exact Honly|].
  intros x nx Hx Hnote. destruct (getNote nx s) as [n|] eqn:E.
  - destruct (Hcopied x nx Hx) as [Hp | Hc]; [rewrite E; discriminate | left; auto|].
    right. exact (noteCopied_grows _ _ _ _ _ _ Hc Hg).
  - left. exact (Hnew x nx Hx Hnote E).
Qed.

(** An attribute that a note with a pregenerated copy owns during the
    duplication is one it owned at the start. *)
Lemma owned_at_start (P : list string) (s : Store) (y ny : string) (a : Attribute) :
  duplicating m s0 P s -> jsGet y m = Own ny ->
  In a (getOwnedAttributes y s) -> In a (getOwnedAttributes y s0).
Proof.
  intros (_ & Honly & _) Hy Ha. apply List.filter_In in Ha as [Ha Hp].
  apply List.filter_In. split; [|exact Hp].
  destruct (Honly a Ha) as [Hold | (x & nx & a0 & Hx & _ & Hcopy)]; [exact Hold|].
  exfalso. apply andb_prop in Hp as [_ Hid]. apply String.eqb_eq in Hid.
  destruct Hcopy as (Hn & _). rewrite Hid in Hn. subst nx.
  exact (settled_not_generated seed seed (idSeed s0) y (Nat.le_refl _) (Hkeys y ny Hy)
           (Hvalues x y Hx)).
Qed.

Lemma duplicateSubtreeInner_duplicating (fuel : nat) :
  forall origNote origBranch newParentNoteId s note branch s' P,
    duplicateSubtreeInner session regExpReplace fuel origNote origBranch newParentNoteId m s
    = Return (note, branch, s') ->
    duplicating m s0 P s -> duplicating m s0 P s'.
Proof.
  induction fuel as [|fuel IH]; intros origNote origBranch newParentNoteId s note branch s' P
    Hrun Hdup; [discriminate|].
  cbn [duplicateSubtreeInner] in Hrun.
  destruct (isProtected origNote && negb (protectedSessionAvailable session));
    [discriminate|].
  destruct (jsGet (noteId origNote) m) as [newNoteId| |] eqn:Hmap;
    [|discriminate|discriminate].
  rewrite newEntityId_genId in Hrun. cbv beta iota zeta in Hrun.
  set (s1 := setIdSeed (S (idSeed s)) s) in *.
  set (newBranch := mkBranch (genId (idSeed s)) newNoteId newParentNoteId
                      match origBranch with
                      | Some b => jsAdd (toNumber (notePosition b)) 1
                      | None => getNewNotePosition newParentNoteId s1
                      end "" false false None) in *.
  set (sb := saveBranch newBranch s1) in *.
  assert (Hg1 : Grows s sb) by (apply saveBranch_grows; reflexivity).
  destruct (getNote newNoteId sb) as [existing|] eqn:Hex.
  - injection Hrun as <- <- <-.
    apply (duplicating_step P P s sb Hdup Hg1); [| |auto].
    + intros a' Ha'. apply (proj1 (proj2 Hdup)). exact Ha'.
    + intros x nx _ Hnote Hnone. exfalso. apply Hnote. exact Hnone.
  - match type of Hrun with
    | bind ?c _ = _ => destruct c as [content| |]; cbn [bind] in Hrun; try discriminate
    end.
    set (newNote := mkNote newNoteId (title origNote) (type origNote) (mime origNote)
                      (isProtected origNote) (n_isDeleted origNote) (n_deleteId origNote)
                      (now session)) in *.
    set (s3 := setContent (noteId newNote) content (saveNote newNote sb)) in *.
    match type of Hrun with
    | bind (forEach ?f ?l ?st) _ = _ =>
      destruct (forEach f l st) as [s4| |] eqn:Hattrs; cbn [bind] in Hrun; try discriminate
    end.
    match type of Hrun with
    | bind (forEach ?f ?l ?st) _ = _ =>
      destruct (forEach f l st) as [s5| |] eqn:Hloop; cbn [bind] in Hrun; try discriminate
    end.
    injection Hrun as <- <- <-.
    set (y := noteId origNote) in *.
    assert (Hg3 : Grows s s3).
    { eapply Grows_trans; [exact Hg1|].
      eapply Grows_trans; [apply (saveNote_grows sb newNote); exact Hex|].
      apply Grows_same; reflexivity || (simpl; lia). }
    assert (Hdup3 : duplicating m s0 (y :: P) s3).
    { apply (duplicating_step P (y :: P) s s3 Hdup Hg3).
      - intros a' Ha'. apply (proj1 (proj2 Hdup)). exact Ha'.
      - intros x nx Hx Hnote Hnone. left.
        assert (E : nx = newNoteId).
        { unfold getNote in Hnote, Hnone.
          change (notes s3) with (notes (saveNote newNote sb)) in Hnote.
          rewrite (saveNote_new sb newNote Hex) in Hnote.
          change (notes sb) with (notes s) in Hnote.
          pose proof (find_snoc _ _ _ Hnone Hnote) as K. apply String.eqb_eq in K.
          symmetry. exact K. }
        subst nx. symmetry. exact (Hinj _ _ _ Hx Hmap).
      - intros x Hx. right. exact Hx. }
    (* the copies of the owned attributes *)
    apply (forEach_grows _ (duplicating m s0 (y :: P))
             (fun a st => exists a', In a' (attributes st)
                                     /\ generatedBetween (idSeed s0) (idSeed st) (attributeId a')
                                     /\ copyOf m a newNoteId a'))
      in Hattrs as (Hg4 & Hdup4 & Hcopies); [| | |exact Hdup3].
    2: { intros a st st' (a' & Hin & Hgen & Hcopy) Hg.
         exists a'. pose proof Hg as (Hs & _ & _ & Hkeep).
         split; [apply Hkeep; [exact Hin | exact (generatedBetween_settled _ _ _ Hgen)]|].
         split; [exact (generatedBetween_le _ _ _ _ Hs Hgen) | exact Hcopy]. }
    2: { intros a st st' Ha Hst Hstep.
         destruct (clonedValue m a) as [v|] eqn:Hv; [|discriminate].
         rewrite newEntityId_genId in Hstep. cbv beta iota in Hstep. injection Hstep as <-.
         change (noteId newNote) with newNoteId.
         set (a' := cloneAttribute newNoteId (genId (idSeed st)) v a).
         assert (Hg : Grows st (saveAttribute a' (setIdSeed (S (idSeed st)) st)))
           by (apply saveAttribute_grows; reflexivity).
         assert (Hcopy : copyOf m a newNoteId a').
         { apply List.filter_In in Ha as [_ Hp]. apply andb_prop in Hp as [Hlive _].
           apply negb_true_iff in Hlive. repeat split; assumption. }
         pose proof (owned_at_start _ _ _ _ _ Hdup3 Hmap Ha) as Ha0.
         split; [exact Hg|]. split.
         - apply (duplicating_step (y :: P) (y :: P) st _ Hst Hg); [| |auto].
           + intros a'' Ha''. cbn [attributes saveAttribute addEntityChange setEntityChanges
                                   setAttributes setIdSeed] in Ha''.
             apply in_upsert in Ha'' as [-> | [Ha'' _]].
             * right. exists y, newNoteId, a. auto.
             * apply (proj1 (proj2 Hst)). exact Ha''.
           + intros x nx _ Hnote Hnone. exfalso. apply Hnote. exact Hnone.
         - exists a'. split; [simpl; apply in_upsert; left; reflexivity|].
           split; [|exact Hcopy].
           exists (idSeed st). split; [|reflexivity].
           pose proof (proj1 (proj1 Hst)). simpl. lia. }
    (* the copies of the children *)
    apply (forEach_grows _ (duplicating m s0 (y :: P))
             (fun cb st => childCopied m newNoteId cb st))
      in Hloop as (Hg5 & Hdup5 & Hchildren); [| | |exact Hdup4].
    2: { intros cb st st'. apply childCopied_grows. }
    2: { intros cb st st' _ Hst Hstep.
         destruct (getNote (b_noteId cb) st) as [child|] eqn:Hchild; [|discriminate].
         match type of Hstep with
         | bind ?c _ = _ => destruct c as [[[n1 b1] s6]| |] eqn:Hc; cbn [bind] in Hstep;
                              try discriminate
         end.
         injection Hstep as <-. cbn [snd].
         pose proof (find_some_key noteId _ _ _ Hchild) as [_ Hcid].
         destruct (duplicateSubtreeInner_grows _ _ _ _ _ _ _ _ _ _ _ Hc)
           as (Hg & Hin & Hgen & Hm & Hpar & Hpos & Hdel & Hnote & _).
         split; [exact Hg|]. split; [exact (IH _ _ _ _ _ _ _ _ Hc Hst)|].
         exists (b_noteId b1), b1. rewrite <- Hcid.
         split; [exact Hm|]. split; [exact Hin|]. split; [exact Hgen|].
         split; [reflexivity|]. split; [exact Hpar|]. split; [exact (Hpos cb eq_refl)|].
         split; [exact Hdel|]. rewrite Hnote. discriminate. }
    destruct Hdup5 as (Hg05 & Honly5 & Hcopied5).
    split; [exact Hg05|]. split; [exact Honly5|].
    intros x nx Hx Hnote. destruct (Hcopied5 x nx Hx Hnote) as [[<- | Hp] | Hc]; auto.
    right. assert (E : nx = newNoteId) by congruence. subst nx.
    pose proof (proj1 Hdup3) as Hg03. pose proof (proj1 Hdup4) as Hg04. split.
    + intros a Ha.
      assert (Ha3 : In a (getOwnedAttributes y s3)).
      { apply List.filter_In in Ha as [Ha Hp]. apply List.filter_In. split; [|exact Hp].
        destruct Hg03 as (_ & _ & _ & Hkeep). apply Hkeep; [exact Ha | apply Hattributes, Ha]. }
      destruct (Hcopies a Ha3) as (a' & Hin & Hgen & Hcopy).
      exists a'. pose proof Hg5 as (Hs & _ & _ & Hkeep).
      split; [apply Hkeep; [exact Hin | exact (generatedBetween_settled _ _ _ Hgen)]|].
      split; [exact (generatedBetween_le _ _ _ _ Hs Hgen) | exact Hcopy].
    + intros cb Hcb. apply Hchildren.
      apply List.filter_In in Hcb as [Hcb Hp]. apply List.filter_In. split; [|exact Hp].
      destruct Hg04 as (_ & _ & Hkeep & _). apply Hkeep; [exact Hcb | apply Hbranches, Hcb].
Qed.

End Duplicating.

(** ** duplicateSubtree: the title of the copy *)

Lemma fresh_not_generated (s : Store) (lo hi : nat) (id : string) :
  noteIdsFresh s -> (idSeed s <= lo)%nat -> generatedBetween lo hi id -> getNote id s = None.
Proof.
  intros Hfresh Hlo Hgen. destruct (getNote id s) as [n|] eqn:E; [|reflexivity].
  exfalso. apply find_some_key in E as [Hin Hid].
  apply (settled_not_generated (idSeed s) lo hi id Hlo); [|exact Hgen].
  rewrite <- Hid. apply Hfresh, Hin.
Qed.

(** C6 (amended).  [duplicateSubtree] ends.  When it returns, the note it
    returns is the row stored under the identifier pregenerated for the
    source, and its title is the copied title with [" (dup)"] appended
    unless that title already ended in ["(dup)"]: it always ends in
    ["(dup)"], duplicating the copy again adds nothing, and it ends in
    exactly one ["(dup)"] provided the copied title did not already end in
    two or more.  When no note has an identifier that is still to be
    generated, the copied title is the title of the source, the returned
    note is new, and every note that was there, the source among them, is
    still there unchanged. *)
Theorem duplicateSubtree_title
    (session : Session)
    (regExpReplace : string -> string -> (string -> string) -> option string)
    (origNoteId newParentNoteId : string) (s : Store) :
  let result := duplicateSubtree session regExpReplace origNoteId newParentNoteId s in
  result <> OutOfFuel
  /\ forall note branch s',
      result = Return (note, branch, s') ->
      exists origNote t0,
        getNote origNoteId s = Some origNote
        /\ title note = appendDupSuffix t0
        /\ endsWith (title note) "(dup)" = true
        /\ appendDupSuffix (title note) = title note
        /\ ((trailingDups t0 <= 1)%nat -> trailingDups (title note) = 1%nat)
        /\ getNote (noteId note) s' = Some note
        /\ jsGet origNoteId (fst (getNoteIdMapping origNote s)) = Own (noteId note)
        /\ (noteIdsFresh s ->
            t0 = title origNote
            /\ getNote (noteId note) s = None
            /\ forall id n, getNote id s = Some n -> getNote id s' = Some n).
Proof.
  cbv zeta. unfold duplicateSubtree.
  destruct (String.eqb origNoteId "root"); [split; discriminate|].
  destruct (getNote origNoteId s) as [origNote|] eqn:Hget; [|split; discriminate].
  pose proof (getNoteIdMapping_spec origNote s) as Hspec. cbv zeta in Hspec.
  destruct (getNoteIdMapping origNote s) as [m s0] eqn:Hmap. cbn [fst snd] in *.
  destruct Hspec as (Hseed & Hnotes & _ & _ & _ & Hvalues & _ & _).
  pose proof (duplicateSubtreeInner_total session regExpReplace m (duplicateFuel m) origNote
                (List.find (fun branch => String.eqb (parentNoteId branch) newParentNoteId)
                   (getBranches (noteId origNote) s))
                newParentNoteId s0 (missingCopies_bound m s0)) as Htotal.
  destruct (duplicateSubtreeInner session regExpReplace (duplicateFuel m) origNote _
              newParentNoteId m s0) as [[[n0 b0] s2]| |] eqn:Hinner; cbn [bind];
    [|split; discriminate|contradiction].
  split; [discriminate|].
  intros note branch s' Hrun. injection Hrun as <- <- <-.
  destruct (duplicateSubtreeInner_grows _ _ _ _ _ _ _ _ _ _ _ Hinner)
    as (Hg & _ & _ & Hown & _ & _ & _ & Hnote & Htitle).
  pose proof (find_some_key noteId _ _ _ Hnote) as [_ Hid].
  pose proof (find_some_key noteId _ _ _ Hget) as [_ Hoid].
  exists origNote, (title n0). cbn [title setTitle noteId].
  split; [reflexivity|]. split; [reflexivity|].
  split; [apply appendDupSuffix_endsWith|].
  split; [apply appendDupSuffix_idempotent|].
  split; [apply appendDupSuffix_exactly_one|].
  split.
  { unfold getNote, saveNote. cbn [notes addEntityChange setEntityChanges setNotes].
    apply (find_upsert_same noteId (setTitle (appendDupSuffix (title n0)) n0)). }
  split; [rewrite Hmap; cbn [fst]; rewrite <- Hoid, Hid; exact Hown|].
  intros Hfresh.
  assert (Hnew : getNote (noteId n0) s = None).
  { apply (fresh_not_generated s (idSeed s) (idSeed s0) _ Hfresh (Nat.le_refl _)).
    rewrite Hid. exact (Hvalues _ _ Hown). }
  split; [|split; [exact Hnew|]].
  - apply Htitle. rewrite <- Hid. unfold getNote in *. rewrite Hnotes. exact Hnew.
  - intros id n Hn.
    assert (Hn2 : getNote id s2 = Some n).
    { apply (getNote_grows_some s0 s2 id n Hg). unfold getNote in *. rewrite Hnotes.
      exact Hn. }
    unfold getNote, saveNote. cbn [notes addEntityChange setEntityChanges setNotes].
    rewrite find_upsert_other; [exact Hn2|].
    cbn [noteId setTitle]. intros E. rewrite E in Hnew. congruence.
Qed.

Lemma c6_store_noteIdsFresh : noteIdsFresh c6_store.
Proof.
  intros n Hn k _ E. unfold genId in E. cbv [append] in E.
  simpl in Hn. repeat destruct Hn as [<- | Hn]; try discriminate. destruct Hn.
Qed.

Lemma duplicateSubtree_title_witness :
  exists note branch s',
    duplicateSubtree c5_session wordsReplace "a" "root" c6_store = Return (note, branch, s')
    /\ title note = "plan (dup)"
    /\ trailingDups (title note) = 1%nat
    /\ getNote (noteId note) c6_store = None
    /\ getNote (noteId note) s' = Some note
    /\ getNote "a" s' = Some (mkNote "a" "plan" "text" "text/html" false false None 0).
Proof.
  destruct (duplicateSubtree c5_session wordsReplace "a" "root" c6_store)
    as [[[note branch] s']| |] eqn:E; try (vm_compute in E; discriminate).
  exists note, branch, s'. split; [reflexivity|].
  destruct (proj2 (duplicateSubtree_title c5_session wordsReplace "a" "root" c6_store)
              note branch s' E)
    as (origNote & t0 & Hget & Ht & _ & _ & Hone & Hstored & _ & Hfresh).
  destruct (Hfresh c6_store_noteIdsFresh) as (Ht0 & Hnew & Hkept).
  assert (Ho : origNote = mkNote "a" "plan" "text" "text/html" false false None 0)
    by (vm_compute in Hget; congruence).
  subst origNote t0.
  split; [exact Ht|].
  split; [apply Hone; vm_compute; lia|].
  split; [exact Hnew|]. split; [exact Hstored|].
  apply Hkept. reflexivity.
Defined.

Example duplicateSubtree_plan :
  match duplicateSubtree c5_session wordsReplace "a" "root" c6_store with
  | Return (note, _, _) => title note = "plan (dup)" /\ noteId note = "id0"
  | _ => False
  end.
Proof. vm_compute. split; reflexivity. Qed.

(** The claim as stated fails on a source title that already ends in two
    suffixes: the copy ends in two as well, not in exactly one. *)
Lemma duplicateSubtree_stacked_title :
  exists note branch s',
    duplicateSubtree c5_session wordsReplace "a2" "root" c6_store = Return (note, branch, s')
    /\ title note = "plan (dup) (dup)"
    /\ trailingDups (title note) <> 1%nat.
Proof.
  vm_compute. eexists _, _, _. split; [reflexivity|]. split; [reflexivity|]. discriminate.
Qed.

(** ** duplicateSubtree: relations are repointed into the copy *)

Lemma jsGet_not_hasOwn {V} (k : string) (o : JsObject V) :
  hasOwn k o = false ->
  jsGet k o = if isPrototypeKey k then Inherited else Undefined.
Proof.
  unfold hasOwn, jsGet. intros H.
  destruct (List.find (fun kv => String.eqb (fst kv) k) o) as [kv|] eqn:E; [|reflexivity].
  apply find_some in E as [Hin Hk].
  assert (existsb (fun kv => String.eqb (fst kv) k) o = true)
    by (apply existsb_exists; eauto).
  congruence.
Qed.

(** The value of a copy: the identifier pregenerated for the target when
    the attribute is a relation into the subtree, the value of the
    original otherwise. *)
Lemma copyOf_value (m : NoteIdMapping) (subtree : list string) (a : Attribute) (nx : string)
    (a' : Attribute) :
  (forall v, (exists n, jsGet v m = Own n) <-> In v subtree /\ v <> "__proto__") ->
  copyOf m a nx a' ->
  (a_type a = "relation" -> In (value a) subtree -> jsGet (value a) m = Own (value a'))
  /\ (a_type a <> "relation" \/ ~ In (value a) subtree -> value a' = value a).
Proof.
  intros Hkeys (_ & _ & _ & _ & _ & _ & Hv). unfold clonedValue, jsIn in Hv.
  destruct (String.eqb (a_type a) "relation") eqn:T; cbn [andb] in Hv.
  - apply String.eqb_eq in T. destruct (hasOwn (value a) m) eqn:O; cbn [orb] in Hv.
    + pose proof (proj1 (hasOwn_jsGet _ _) O) as [n Hn]. rewrite Hn in Hv.
      injection Hv as <-. split; [auto|].
      intros [Hne | Hout]; [contradiction|].
      exfalso. apply Hout. apply (Hkeys (value a)). eauto.
    + rewrite (jsGet_not_hasOwn _ _ O) in Hv.
      destruct (isPrototypeKey (value a)) eqn:K; [discriminate|].
      injection Hv as <-. split; [|reflexivity].
      intros _ Hin. exfalso.
      assert (Hne : value a <> "__proto__") by (intros E; rewrite E in K; discriminate).
      destruct (proj2 (Hkeys (value a)) (conj Hin Hne)) as [n Hn].
      assert (hasOwn (value a) m = true) by (apply hasOwn_jsGet; eauto). congruence.
  - injection Hv as <-. split; [|reflexivity].
    intros E. rewrite E in T. discriminate.
Qed.

Lemma childCopied_saveNote (m : NoteIdMapping) (nx : string) (cb : Branch) (note : Note)
    (s : Store) :
  childCopied m nx cb s -> childCopied m nx cb (saveNote note s).
Proof.
  intros (newId & b & H1 & H2 & H3 & H4 & H5 & H6 & H7 & H8).
  exists newId, b. repeat (split; [assumption|]).
  unfold getNote, saveNote. cbn [notes addEntityChange setEntityChanges setNotes].
  destruct (String.eqb (noteId note) newId) eqn:E.
  - apply String.eqb_eq in E. rewrite <- E, find_upsert_same. discriminate.
  - apply String.eqb_neq in E. rewrite find_upsert_other by exact E. exact H8.
Qed.

(** C7.  [duplicateSubtree] pregenerates an identifier for exactly the notes
    of the duplicated subtree (the source and its descendants; a note
    named [__proto__] gets none), each of them new and no two alike, and
    then ends.  When it returns on a store whose rows have no identifier
    that is still to be generated, the note it returns is the copy of the
    source, and every note of the subtree whose copy exists is copied
    whole: each attribute it owned has its copy in a new row, owned by the
    copy of the note, and each of its child branches has its copy, whose
    note exists.  The copy of a relation whose value is a note of the
    subtree has the identifier pregenerated for that note as its value;
    the copy of any other attribute keeps the value unchanged.  No other
    attribute row is written. *)
Theorem duplicateSubtree_relations
    (session : Session)
    (regExpReplace : string -> string -> (string -> string) -> option string)
    (origNoteId newParentNoteId : string) (s : Store) (origNote : Note) :
  idsFresh s ->
  getNote origNoteId s = Some origNote ->
  let noteIdMapping := fst (getNoteIdMapping origNote s) in
  let subtree := getDescendantNoteIds origNoteId s in
  let result := duplicateSubtree session regExpReplace origNoteId newParentNoteId s in
  In origNoteId subtree
  /\ (forall v, (exists n, jsGet v noteIdMapping = Own n)
                <-> In v subtree /\ v <> "__proto__")
  /\ (forall v n, jsGet v noteIdMapping = Own n -> getNote n s = None)
  /\ (forall v v' n, jsGet v noteIdMapping = Own n -> jsGet v' noteIdMapping = Own n ->
                     v = v')
  /\ (forall a nx a',
        copyOf noteIdMapping a nx a' ->
        (a_type a = "relation" -> In (value a) subtree ->
         jsGet (value a) noteIdMapping = Own (value a'))
        /\ (a_type a <> "relation" \/ ~ In (value a) subtree -> value a' = value a))
  /\ result <> OutOfFuel
  /\ forall note branch s',
      result = Return (note, branch, s') ->
      jsGet origNoteId noteIdMapping = Own (noteId note)
      /\ getNote (noteId note) s' = Some note
      /\ (forall x nx, jsGet x noteIdMapping = Own nx -> getNote nx s' <> None ->
                       noteCopied noteIdMapping s x nx s')
      /\ onlyCopies noteIdMapping s s'.
Proof.
  intros (Hfn & Hfb & Hfa) Hget. cbv zeta.
  pose proof (find_some_key noteId origNoteId _ _ Hget) as [Hino Hoid].
  pose proof (getNoteIdMapping_spec origNote s) as Hspec. cbv zeta in Hspec.
  unfold duplicateSubtree.
  destruct (String.eqb origNoteId "root") eqn:Hroot.
  { destruct (getNoteIdMapping origNote s) as [m s0]. cbn [fst snd] in *.
    destruct Hspec as (Hseed & Hnotes & _ & _ & _ & Hvalues & Hinj & Hkeys).
    rewrite Hoid in Hkeys.
    split; [apply descendantsFrom_incl; now left|]. split; [exact Hkeys|].
    split; [intros v n Hv;
            exact (fresh_not_generated s _ _ _ Hfn (Nat.le_refl _) (Hvalues v n Hv))|].
    split; [exact Hinj|].
    split; [intros a nx a'; apply copyOf_value; exact Hkeys|].
    split; discriminate. }
  rewrite Hget.
  destruct (getNoteIdMapping origNote s) as [m s0] eqn:Hmap. cbn [fst snd] in *.
  destruct Hspec as (Hseed & Hnotes & Hbranches & Hattributes & _ & Hvalues & Hinj & Hkeys).
  rewrite Hoid in Hkeys.
  assert (Hnew : forall v n, jsGet v m = Own n -> getNote n s = None).
  { intros v n Hv.
    exact (fresh_not_generated s _ _ _ Hfn (Nat.le_refl _) (Hvalues v n Hv)). }
  split; [apply descendantsFrom_incl; now left|]. split; [exact Hkeys|].
  split; [exact Hnew|]. split; [exact Hinj|].
  split; [intros a nx a'; apply copyOf_value; exact Hkeys|].
  pose proof (duplicateSubtreeInner_total session regExpReplace m (duplicateFuel m) origNote
                (List.find (fun branch => String.eqb (parentNoteId branch) newParentNoteId)
                   (getBranches (noteId origNote) s))
                newParentNoteId s0 (missingCopies_bound m s0)) as Htotal.
  destruct (duplicateSubtreeInner session regExpReplace (duplicateFuel m) origNote _
              newParentNoteId m s0) as [[[n0 b0] s2]| |] eqn:Hinner; cbn [bind];
    [|split; discriminate|contradiction].
  split; [discriminate|].
  intros note branch s' Hrun. injection Hrun as <- <- <-.
  destruct (duplicateSubtreeInner_grows _ _ _ _ _ _ _ _ _ _ _ Hinner)
    as (Hg & _ & _ & Hown & _ & _ & _ & Hnote & _).
  pose proof (find_some_key noteId _ _ _ Hnote) as [_ Hid].
  assert (Hstart : duplicating m s0 [] s0).
  { split; [apply Grows_refl|]. split; [intros a' Ha'; left; exact Ha'|].
    intros x nx Hx Hn. exfalso. apply Hn. unfold getNote. rewrite Hnotes.
    exact (Hnew x nx Hx). }
  assert (Hkeyfresh : forall x nx, jsGet x m = Own nx -> settled (idSeed s) x).
  { intros x nx Hx.
    assert (Hin : In x (getDescendantNoteIds origNoteId s))
      by (apply (Hkeys x); eauto).
    clear Hx. revert x Hin. unfold getDescendantNoteIds. apply descendantsFrom_notes.
    - intros x [<- | []]. rewrite <- Hoid. apply Hfn, Hino.
    - exact Hfn. }
  pose proof (duplicateSubtreeInner_duplicating session regExpReplace m s0 (idSeed s)
                Hseed Hkeyfresh Hvalues Hinj
                (fun b Hb => settled_le _ _ _ Hseed
                               (Hfb b (eq_ind _ (fun l => In b l) Hb _ Hbranches)))
                (fun a Ha => settled_le _ _ _ Hseed
                               (Hfa a (eq_ind _ (fun l => In a l) Ha _ Hattributes)))
                _ _ _ _ _ _ _ _ [] Hinner Hstart)
    as (_ & Honly & Hcopied).
  set (note := setTitle (appendDupSuffix (title n0)) n0).
  split; [rewrite <- Hoid; change (noteId note) with (noteId n0); rewrite Hid; exact Hown|].
  split.
  { unfold getNote, saveNote. cbn [notes addEntityChange setEntityChanges setNotes].
    apply (find_upsert_same noteId note). }
  split.
  - intros x nx Hx Hn.
    assert (Hn2 : getNote nx s2 <> None).
    { unfold getNote, saveNote in Hn. cbn [notes addEntityChange setEntityChanges setNotes] in Hn.
      destruct (String.eqb (noteId note) nx) eqn:E.
      - apply String.eqb_eq in E. rewrite <- E. change (noteId note) with (noteId n0).
        rewrite Hid, Hnote. discriminate.
      - apply String.eqb_neq in E. rewrite find_upsert_other in Hn by exact E. exact Hn. }
    destruct (Hcopied x nx Hx Hn2) as [[] | [Hattrs Hchildren]]. split.
    + intros a Ha. destruct (Hattrs a) as (a' & Hin & (k & Hk & Hgen) & Hcopy).
      { unfold getOwnedAttributes in *. rewrite Hattributes. exact Ha. }
      exists a'. split; [exact Hin|]. split; [|exact Hcopy].
      exists k. split; [|exact Hgen]. change (idSeed (saveNote note s2)) with (idSeed s2). lia.
    + intros cb Hcb. apply childCopied_saveNote. apply Hchildren.
      unfold getChildBranches in *. rewrite Hbranches. exact Hcb.
  - intros a' Ha'. change (attributes (saveNote note s2)) with (attributes s2) in Ha'.
    destruct (Honly a' Ha') as [Hold | (x & nx & a & Hx & Ha & Hcopy)].
    + left. rewrite <- Hattributes. exact Hold.
    + right. exists x, nx, a. split; [exact Hx|]. split; [|exact Hcopy].
      unfold getOwnedAttributes in *. rewrite <- Hattributes. exact Ha.
Qed.

Lemma c6_store_idsFresh : idsFresh c6_store.
Proof.
  split; [exact c6_store_noteIdsFresh|].
  split; intros x Hx k _ E; unfold genId in E; cbv [append] in E; simpl in Hx;
    repeat destruct Hx as [<- | Hx]; try discriminate; destruct Hx.
Qed.

(** On the small tree: [a] owns a relation to its child [b] and one to
    [root]; in the copy of [a] the first names the copy of [b], the second
    still names [root]. *)
Lemma duplicateSubtree_relations_witness :
  exists note branch s' inside outside,
    duplicateSubtree c5_session wordsReplace "a" "root" c6_store = Return (note, branch, s')
    /\ In inside (attributes s') /\ In outside (attributes s')
    /\ a_noteId inside = noteId note /\ a_noteId outside = noteId note
    /\ jsGet "b" (fst (getNoteIdMapping (mkNote "a" "plan" "text" "text/html" false false None 0)
                         c6_store)) = Own (value inside)
    /\ value outside = "root".
Proof.
  destruct (duplicateSubtree c5_session wordsReplace "a" "root" c6_store)
    as [[[note branch] s']| |] eqn:E; try (vm_compute in E; discriminate).
  destruct (duplicateSubtree_relations c5_session wordsReplace "a" "root" c6_store
              (mkNote "a" "plan" "text" "text/html" false false None 0)
              c6_store_idsFresh eq_refl)
    as (_ & _ & _ & _ & Hvalue & _ & Hrun).
  destruct (Hrun note branch s' E) as (Hown & Hstored & Hcopied & _).
  destruct (Hcopied "a" (noteId note) Hown) as [Hattrs _]; [rewrite Hstored; discriminate|].
  destruct (Hattrs (mkAttribute "r1" "a" "relation" "link" "b" 0 false false None))
    as (inside & Hin1 & _ & Hcopy1); [vm_compute; auto|].
  destruct (Hattrs (mkAttribute "r2" "a" "relation" "link" "root" 0 false false None))
    as (outside & Hin2 & _ & Hcopy2); [vm_compute; auto|].
  exists note, branch, s', inside, outside.
  split; [reflexivity|]. split; [exact Hin1|]. split; [exact Hin2|].
  split; [exact (proj1 Hcopy1)|]. split; [exact (proj1 Hcopy2)|].
  split.
  - apply (proj1 (Hvalue _ _ _ Hcopy1)); [reflexivity|]. vm_compute. auto.
  - apply (proj2 (Hvalue _ _ _ Hcopy2)). right. vm_compute.
    intros [H | [H | H]]; try discriminate. exact H.
Defined.

(** The run on the small tree: [a] (copied as [id0]) and [b] (copied as
    [id1]); the relation to [b] is repointed to [id1], the relation to
    [root] and the label naming [a] are copied unchanged, and the identifier
    of [b] inside the content of [a] is rewritten. *)
Example duplicateSubtree_small_tree :
  match duplicateSubtree c5_session wordsReplace "a" "root" c6_store with
  | Return (note, branch, s') =>
    noteId note = "id0"
    /\ map (fun a => (a_noteId a, a_type a, value a))
         (List.filter (fun a => negb (existsb (String.eqb (attributeId a)) ["r1"; "r2"; "l1"]))
            (attributes s'))
       = [("id0", "relation", "id1"); ("id0", "relation", "root"); ("id1", "label", "a")]
    /\ getContent "id0" s' = Some "see id1, too"
    /\ notePosition branch = 11
  | _ => False
  end.
Proof. vm_compute. repeat split. Qed.

(** A relation whose value is a member of [Object.prototype] passes the
    test [attr.value in noteIdMapping]; its copy gets that member for a
    value and is not saved. *)
Example duplicateSubtree_member_value_raises :
  duplicateSubtree c5_session wordsReplace "a" "root"
    (setAttributes
       (fun l => l ++ [mkAttribute "r3" "a" "relation" "link" "toString" 0 false false None])
       c6_store)
  = Throw "TypeError: the value of the attribute is not a string".
Proof. vm_compute. reflexivity. Qed.

(** ** Attribute inheritance through template relations *)

(** C10 at the failing input: on an empty cache [T.getAttributes()] holds
    the attributes of its template [A]; after [A.getAttributes()] has filled
    the shared cache, the same call on [T] no longer does. *)
Example getAttributes_depends_on_history :
  rs_alone rs_T = Return [rs_rT; rs_t1; rs_rA; rs_a1]
  /\ rs_second rs_A rs_T = Return [rs_rT; rs_t1].
Proof. split; vm_compute; reflexivity. Qed.

(** C3 at the failing input: [A] owns a template relation to [T]; on an
    empty cache its attributes include those of [T], but once
    [T.getAttributes()] has run, [A.getAttributes()] answers from the entry
    cached for [A] inside the truncated traversal and lacks them. *)
Example getAttributes_template_lost_after_warmup :
  rs_alone rs_A = Return [rs_rA; rs_a1; rs_rT; rs_t1]
  /\ rs_second rs_T rs_A = Return [rs_rA; rs_a1].
Proof. split; vm_compute; reflexivity. Qed.

(** ** The resolver ends, also on template cycles *)

Lemma foldM_returns {A B} (f : B -> A -> Result B) (l : list A) :
  (forall b x, In x l -> exists b', f b x = Return b') ->
  forall b, exists b', NoteShort.foldM f l b = Return b'.
Proof.
  induction l as [|x l IH]; intros H b; simpl.
  - eexists; reflexivity.
  - destruct (H b x (or_introl eq_refl)) as [b1 ->]. simpl.
    apply IH. intros b0 y Hy. apply H. right. exact Hy.
Qed.

Lemma cachedNoteIds_lookup (treeCache : NoteShort.TreeCache) (k : string)
    (n : NoteShort.NoteShort) :
  NoteShort.tc_notes treeCache !! k = Some n ->
  In (NoteShort.noteId n) (cachedNoteIds treeCache).
Proof.
  intros H. unfold cachedNoteIds. apply in_map_iff. exists (k, n). split; [reflexivity|].
  apply list_elem_of_In, elem_of_map_to_list. exact H.
Qed.

Lemma unvisited_step (treeCache : NoteShort.TreeCache) (path : list string) (id : string) :
  In id (cachedNoteIds treeCache) -> existsb (String.eqb id) path = false ->
  (length (unvisited treeCache (path ++ [id])) < length (unvisited treeCache path))%nat.
Proof.
  intros Hin Hpath. unfold unvisited.
  rewrite (List.filter_ext _
             (fun u => negb (existsb (String.eqb u) path) && negb (String.eqb u id))).
  - apply filter_remove_lt; [exact Hin|]. rewrite Hpath. reflexivity.
  - intros u. rewrite existsb_app. simpl. rewrite orb_false_r, negb_orb. reflexivity.
Qed.

Lemma unvisited_le (treeCache : NoteShort.TreeCache) (path : list string) (id : string) :
  (length (unvisited treeCache (path ++ [id])) <= length (unvisited treeCache path))%nat.
Proof.
  unfold unvisited. induction (cachedNoteIds treeCache) as [|u l IH]; simpl; [lia|].
  rewrite existsb_app. simpl. rewrite orb_false_r.
  destruct (existsb (String.eqb u) path); simpl; [exact IH|].
  destruct (String.eqb u id); simpl; lia.
Qed.

Lemma getCachedAttributes_returns (treeCache : NoteShort.TreeCache) (fuel : nat) :
  forall this path cache,
    (length (unvisited treeCache path) + (if isCached treeCache this then 0 else 1)
     < fuel)%nat ->
    exists r, NoteShort.getCachedAttributes fuel treeCache this path cache = Return r.
Proof.
  induction fuel as [|fuel IH]; intros this path cache Hfuel; [lia|].
  simpl. destruct (existsb (String.eqb (NoteShort.noteId this)) path) eqn:Hpath;
    [eexists; reflexivity|].
  destruct (cache !! NoteShort.noteId this); [eexists; reflexivity|].
  assert (Hrec : forall k n cache',
             NoteShort.tc_notes treeCache !! k = Some n ->
             exists r, NoteShort.getCachedAttributes fuel treeCache n
                         (path ++ [NoteShort.noteId this]) cache' = Return r).
  { intros k n cache' Hn. apply IH.
    pose proof (cachedNoteIds_lookup treeCache k n Hn) as Hin.
    assert (Hc : isCached treeCache n = true).
    { apply existsb_exists. exists (NoteShort.noteId n). split; [exact Hin|].
      apply String.eqb_refl. }
    rewrite Hc. destruct (isCached treeCache this) eqn:Hthis.
    - apply existsb_exists in Hthis as (u & Hu & E). apply String.eqb_eq in E. subst u.
      pose proof (unvisited_step treeCache path _ Hu Hpath). lia.
    - pose proof (unvisited_le treeCache path (NoteShort.noteId this)). lia. }
  match goal with
  | |- exists r, bind ?parents _ = _ =>
    assert (Hparents : exists st, parents = Return st)
  end.
  { destruct (String.eqb (NoteShort.noteId this) "root"); [eexists; reflexivity|].
    apply foldM_returns. intros [attrArrs cache1] parentNote Hp.
    destruct (negb (String.eqb (NoteShort.type parentNote) "search")); [|eexists; reflexivity].
    unfold NoteShort.getParentNotes in Hp.
    apply list_elem_of_In, list_elem_of_omap in Hp as (k & _ & Hk).
    destruct (Hrec k parentNote cache1 Hk) as [r ->]. simpl. eexists; reflexivity. }
  destruct Hparents as [st ->]. simpl.
  match goal with
  | |- exists r, bind ?templates _ = _ =>
    assert (Htemplates : exists st', templates = Return st')
  end.
  { apply foldM_returns. intros [attrArrs cache1] templateAttr _.
    destruct (NoteShort.tc_notes treeCache !! NoteShort.value templateAttr)
      as [templateNote|] eqn:Hk; [|eexists; reflexivity].
    destruct (negb (String.eqb (NoteShort.noteId templateNote) (NoteShort.noteId this)));
      [|eexists; reflexivity].
    destruct (Hrec _ templateNote cache1 Hk) as [r ->]. simpl. eexists; reflexivity. }
  destruct Htemplates as [st' ->]. simpl. eexists; reflexivity.
Qed.

(** X1: resolution always ends with an answer, whatever the template
    relations and the cache are. *)
Theorem getAttributes_total (treeCache : NoteShort.TreeCache) (this : NoteShort.NoteShort)
    (type name' : option string) (cache : NoteShort.AttributeCache) :
  exists r,
    NoteShort.getAttributes (resolverFuel treeCache) treeCache this type name' cache
    = Return r.
Proof.
  unfold NoteShort.getAttributes.
  destruct (getCachedAttributes_returns treeCache (resolverFuel treeCache) this [] cache)
    as [r ->].
  - unfold resolverFuel, unvisited.
    pose proof (filter_length_le (fun u => negb (existsb (String.eqb u) []))
                  (cachedNoteIds treeCache)).
    destruct (isCached treeCache this); lia.
  - simpl. eexists; reflexivity.
Qed.

(** A note that is already on the path contributes nothing and is not
    entered again. *)
Lemma getCachedAttributes_on_path (treeCache : NoteShort.TreeCache) (fuel : nat)
    (this : NoteShort.NoteShort) (path : list string) (cache : NoteShort.AttributeCache) :
  In (NoteShort.noteId this) path ->
  NoteShort.getCachedAttributes (S fuel) treeCache this path cache = Return ([], cache).
Proof.
  intros Hin. simpl.
  assert (E : existsb (String.eqb (NoteShort.noteId this)) path = true).
  { apply existsb_exists. exists (NoteShort.noteId this). split; [exact Hin|].
    apply String.eqb_refl. }
  rewrite E. reflexivity.
Qed.

Lemma getCachedAttributes_on_path_witness :
  NoteShort.getCachedAttributes 1 rs_treeCache rs_A ["T"; "A"] ∅ = Return ([], ∅).
Proof. apply getCachedAttributes_on_path. simpl. auto. Defined.

(** ** Template attributes on a fresh cache *)

Lemma foldM_inv {A B} (P : B -> Prop) (f : B -> A -> Result B) (l : list A) :
  (forall b x b', In x l -> P b -> f b x = Return b' -> P b') ->
  forall b b', P b -> NoteShort.foldM f l b = Return b' -> P b'.
Proof.
  induction l as [|x l IH]; intros Hstep b b' Hb H; simpl in H.
  - injection H as <-. exact Hb.
  - destruct (f b x) as [b1| |] eqn:E; try discriminate. simpl in H.
    apply (IH (fun b0 y b0' Hy => Hstep b0 y b0' (or_intror Hy)) b1 b');
      [|exact H].
    apply (Hstep b x b1); [left; reflexivity | exact Hb | exact E].
Qed.

Lemma foldM_reach {A B} (P Q : B -> Prop) (f : B -> A -> Result B) (l : list A) (x : A) :
  In x l ->
  (forall b y b', In y l -> P b -> f b y = Return b' -> P b') ->
  (forall b b', P b -> f b x = Return b' -> Q b') ->
  (forall b y b', Q b -> f b y = Return b' -> Q b') ->
  forall b b', P b -> NoteShort.foldM f l b = Return b' -> Q b'.
Proof.
  intros Hin HP Hx HQ. induction l as [|y l IH]; [contradiction|].
  intros b b' Hb H. simpl in H.
  destruct (f b y) as [b1| |] eqn:E; try discriminate. simpl in H.
  assert (Hb1 : P b1) by (apply (HP b y b1); [left; reflexivity | exact Hb | exact E]).
  destruct Hin as [-> | Hin].
  - assert (Hq : Q b1) by (apply (Hx b b1); [exact Hb | exact E]).
    clear - HQ Hq H. revert b1 Hq H.
    induction l as [|z l IH]; intros b1 Hq H; simpl in H.
    + injection H as <-. exact Hq.
    + destruct (f b1 z) as [b2| |] eqn:E; try discriminate. simpl in H.
      apply (IH b2); [|exact H]. apply (HQ b1 z b2); [exact Hq | exact E].
  - apply (IH Hin) with (b := b1); [|exact Hb1|exact H].
    intros b0 z b0' Hz. apply HP. right. exact Hz.
Qed.

Lemma addUnique_ids (seen : list string) (l : list NoteShort.Attribute)
    (a : NoteShort.Attribute) :
  In a l ->
  existsb (String.eqb (NoteShort.attributeId a)) seen = true
  \/ exists a', In a' (NoteShort.addUnique seen l)
                /\ NoteShort.attributeId a' = NoteShort.attributeId a.
Proof.
  revert seen. induction l as [|x l IH]; intros seen Hin; [contradiction|].
  simpl. destruct Hin as [-> | Hin].
  - destruct (existsb (String.eqb (NoteShort.attributeId a)) seen) eqn:E; [auto|].
    right. exists a. simpl. auto.
  - destruct (existsb (String.eqb (NoteShort.attributeId x)) seen) eqn:E.
    + apply IH, Hin.
    + destruct (IH (NoteShort.attributeId x :: seen) Hin) as [Hseen | (a' & Ha' & Hid)].
      * simpl in Hseen. apply orb_prop in Hseen as [Hx | Hseen]; [|auto].
        apply String.eqb_eq in Hx. right. exists x. simpl. auto.
      * right. exists a'. simpl. auto.
Qed.

Lemma addUnique_includes (treeCache : NoteShort.TreeCache) (n : NoteShort.NoteShort)
    (attrArrs : list (list NoteShort.Attribute)) (attrs : list NoteShort.Attribute) :
  In attrs attrArrs -> includesOwned treeCache n attrs ->
  includesOwned treeCache n (NoteShort.addUnique [] (concat attrArrs)).
Proof.
  intros Hin Hn a Ha. destruct (Hn a Ha) as (a' & Ha' & Hid).
  destruct (addUnique_ids [] (concat attrArrs) a') as [Hseen | (a2 & Ha2 & Hid2)].
  - apply in_concat. exists attrs. auto.
  - discriminate.
  - exists a2. split; [exact Ha2 | congruence].
Qed.

Lemma includesOwned_self (treeCache : NoteShort.TreeCache) (n : NoteShort.NoteShort) :
  includesOwned treeCache n (NoteShort.getOwnedAttributes treeCache n).
Proof. intros a Ha. exists a. auto. Qed.

Section FreshCache.

Variable treeCache : NoteShort.TreeCache.
Hypothesis Hkeys : wellKeyed treeCache.

Lemma getCachedAttributes_sound (fuel : nat) :
  forall this path cache attrs cache',
    cacheSound treeCache cache ->
    NoteShort.tc_notes treeCache !! NoteShort.noteId this = Some this ->
    NoteShort.getCachedAttributes fuel treeCache this path cache = Return (attrs, cache') ->
    cacheSound treeCache cache'
    /\ (existsb (String.eqb (NoteShort.noteId this)) path = false ->
        includesOwned treeCache this attrs).
Proof.
  induction fuel as [|fuel IH]; intros this path cache attrs cache' Hc Hthis H;
    [discriminate|].
  simpl in H. destruct (existsb (String.eqb (NoteShort.noteId this)) path) eqn:Hpath.
  { injection H as <- <-. split; [exact Hc | discriminate]. }
  destruct (cache !! NoteShort.noteId this) as [hit|] eqn:Hhit.
  { injection H as <- <-. split; [exact Hc|]. intros _. apply (Hc _ _ _ Hhit Hthis). }
  match type of H with
  | bind ?parents _ = _ => destruct parents as [st| |] eqn:Eparents; try discriminate
  end.
  simpl in H.
  match type of H with
  | bind ?templates _ = _ => destruct templates as [st'| |] eqn:Etemplates; try discriminate
  end.
  simpl in H. injection H as <- <-.
  assert (Hrec : forall k n c r,
             cacheSound treeCache c ->
             NoteShort.tc_notes treeCache !! k = Some n ->
             NoteShort.getCachedAttributes fuel treeCache n
               (path ++ [NoteShort.noteId this]) c = Return r ->
             cacheSound treeCache (snd r)).
  { intros k n c [ra rc] Hsound Hn Hr. pose proof (Hkeys k n Hn) as Hk. subst k.
    apply (IH n _ c ra rc Hsound Hn Hr). }
  assert (Hst : loopInv treeCache this st).
  { destruct (String.eqb (NoteShort.noteId this) "root").
    - injection Eparents as <-. split; [exact Hc | exists []; reflexivity].
    - revert Eparents. apply foldM_inv; [|split; [exact Hc | exists []; reflexivity]].
      intros [arrs c] parentNote [arrs' c'] Hp [Hsound [rest Hrest]] Hstep.
      simpl in Hsound, Hrest.
      destruct (negb (String.eqb (NoteShort.type parentNote) "search")).
      + destruct (NoteShort.getCachedAttributes fuel treeCache parentNote
                    (path ++ [NoteShort.noteId this]) c) as [r| |] eqn:Er; try discriminate.
        simpl in Hstep. injection Hstep as <- <-.
        unfold NoteShort.getParentNotes in Hp.
        apply list_elem_of_In, list_elem_of_omap in Hp as (k & _ & Hk).
        split; simpl.
        * apply (Hrec k parentNote c r Hsound Hk Er).
        * rewrite Hrest. eexists. reflexivity.
      + injection Hstep as <- <-. split; [exact Hsound | exists rest; exact Hrest]. }
  assert (Hst' : loopInv treeCache this st').
  { revert Etemplates. apply foldM_inv; [|exact Hst].
    intros [arrs c] templateAttr [arrs' c'] _ [Hsound [rest Hrest]] Hstep.
    simpl in Hsound, Hrest.
    destruct (NoteShort.tc_notes treeCache !! NoteShort.value templateAttr)
      as [templateNote|] eqn:Hk.
    - destruct (negb (String.eqb (NoteShort.noteId templateNote) (NoteShort.noteId this))).
      + destruct (NoteShort.getCachedAttributes fuel treeCache templateNote
                    (path ++ [NoteShort.noteId this]) c) as [r| |] eqn:Er; try discriminate.
        simpl in Hstep. injection Hstep as <- <-. split; simpl.
        * apply (Hrec _ templateNote c r Hsound Hk Er).
        * rewrite Hrest. eexists. reflexivity.
      + injection Hstep as <- <-. split; [exact Hsound | exists rest; exact Hrest].
    - injection Hstep as <- <-. split; [exact Hsound | exists rest; exact Hrest]. }
  destruct Hst' as [Hsound' [rest' Hrest']].
  assert (Hown : includesOwned treeCache this (NoteShort.addUnique [] (concat (fst st')))).
  { apply (addUnique_includes treeCache this _ (NoteShort.getOwnedAttributes treeCache this)).
    - rewrite Hrest'. left. reflexivity.
    - apply includesOwned_self. }
  split; [|intros _; exact Hown].
  intros k attrs n Hlookup Hn.
  destruct (string_dec (NoteShort.noteId this) k) as [<- | Hne].
  - rewrite lookup_insert in Hlookup.
    assert (n = this) by congruence. subst n.
    destruct (decide (NoteShort.noteId this = NoteShort.noteId this)); [|contradiction].
    injection Hlookup as <-. exact Hown.
  - rewrite lookup_insert_ne in Hlookup by exact Hne.
    apply (Hsound' _ _ _ Hlookup Hn).
Qed.

(** X2: when the note [A] is not yet in the (sound) cache, as on a fresh cache,
    and owns a template relation to another note [T], the attributes of
    [A] hold the own attributes of [T], inheritable or not. *)
Theorem getAttributes_includes_template (fuel : nat) (A T : NoteShort.NoteShort)
    (templateAttr : NoteShort.Attribute) (cache : NoteShort.AttributeCache)
    (r : list NoteShort.Attribute * NoteShort.AttributeCache) :
  cacheSound treeCache cache ->
  cache !! NoteShort.noteId A = None ->
  NoteShort.tc_notes treeCache !! NoteShort.noteId A = Some A ->
  In templateAttr (NoteShort.getOwnedAttributes treeCache A) ->
  NoteShort.isTemplateRelation templateAttr = true ->
  NoteShort.tc_notes treeCache !! NoteShort.value templateAttr = Some T ->
  NoteShort.noteId T <> NoteShort.noteId A ->
  NoteShort.getAttributes fuel treeCache A None None cache = Return r ->
  includesOwned treeCache T (fst r).
Proof.
  intros Hc Hmiss HA Hown Htemplate HT Hne H. unfold NoteShort.getAttributes in H.
  destruct (NoteShort.getCachedAttributes fuel treeCache A [] cache) as [[attrs cache']| |] eqn:E;
    try discriminate.
  simpl in H. injection H as <-. simpl.
  destruct fuel as [|fuel]; [discriminate|].
  simpl in E. rewrite Hmiss in E.
  match type of E with
  | bind ?parents _ = _ => destruct parents as [st| |] eqn:Eparents; try discriminate
  end.
  simpl in E.
  match type of E with
  | bind ?templates _ = _ => destruct templates as [st'| |] eqn:Etemplates; try discriminate
  end.
  simpl in E. injection E as <- <-.
  assert (Hrec : forall k n c ra rc,
             cacheSound treeCache c ->
             NoteShort.tc_notes treeCache !! k = Some n ->
             NoteShort.getCachedAttributes fuel treeCache n [NoteShort.noteId A] c
             = Return (ra, rc) ->
             cacheSound treeCache rc
             /\ (NoteShort.noteId n <> NoteShort.noteId A -> includesOwned treeCache n ra)).
  { intros k n c ra rc Hsound Hn Hr. pose proof (Hkeys k n Hn) as Hk. subst k.
    destruct (getCachedAttributes_sound fuel n _ c ra rc Hsound Hn Hr) as [Hs Hi].
    split; [exact Hs|]. intros Hd. apply Hi. simpl.
    apply String.eqb_neq in Hd. rewrite Hd. reflexivity. }
  assert (Hst : loopInv treeCache A st).
  { destruct (String.eqb (NoteShort.noteId A) "root").
    - injection Eparents as <-. split; [exact Hc | exists []; reflexivity].
    - revert Eparents. apply foldM_inv; [|split; [exact Hc | exists []; reflexivity]].
      intros [arrs c] parentNote [arrs' c'] Hp [Hsound [rest Hrest]] Hstep.
      simpl in Hsound, Hrest.
      destruct (negb (String.eqb (NoteShort.type parentNote) "search")).
      + destruct (NoteShort.getCachedAttributes fuel treeCache parentNote
                    [NoteShort.noteId A] c) as [[ra rc]| |] eqn:Er; try discriminate.
        simpl in Hstep. injection Hstep as <- <-.
        unfold NoteShort.getParentNotes in Hp.
        apply list_elem_of_In, list_elem_of_omap in Hp as (k & _ & Hk).
        split; simpl.
        * apply (Hrec k parentNote c ra rc Hsound Hk Er).
        * rewrite Hrest. eexists. reflexivity.
      + injection Hstep as <- <-. split; [exact Hsound | exists rest; exact Hrest]. }
  assert (Hq : exists X, In X (fst st') /\ includesOwned treeCache T X).
  { revert Etemplates.
    apply (foldM_reach (loopInv treeCache A)
             (fun st0 => exists X, In X (fst st0) /\ includesOwned treeCache T X)
             _ _ templateAttr).
    - apply List.filter_In. split; [|exact Htemplate].
      destruct Hst as [_ [rest ->]]. simpl. apply in_or_app. left. exact Hown.
    - intros [arrs c] ta [arrs' c'] _ [Hsound [rest Hrest]] Hstep.
      simpl in Hsound, Hrest.
      destruct (NoteShort.tc_notes treeCache !! NoteShort.value ta)
        as [templateNote|] eqn:Hk.
      + destruct (negb (String.eqb (NoteShort.noteId templateNote) (NoteShort.noteId A))).
        * destruct (NoteShort.getCachedAttributes fuel treeCache templateNote
                      [NoteShort.noteId A] c) as [[ra rc]| |] eqn:Er; try discriminate.
          simpl in Hstep. injection Hstep as <- <-. split; simpl.
          -- apply (Hrec _ templateNote c ra rc Hsound Hk Er).
          -- rewrite Hrest. eexists. reflexivity.
        * injection Hstep as <- <-. split; [exact Hsound | exists rest; exact Hrest].
      + injection Hstep as <- <-. split; [exact Hsound | exists rest; exact Hrest].
    - intros [arrs c] [arrs' c'] [Hsound _] Hstep. simpl in Hsound.
      rewrite HT in Hstep.
      assert (Hd : negb (String.eqb (NoteShort.noteId T) (NoteShort.noteId A)) = true)
        by (apply negb_true_iff, String.eqb_neq; exact Hne).
      rewrite Hd in Hstep.
      destruct (NoteShort.getCachedAttributes fuel treeCache T
                  [NoteShort.noteId A] c) as [[ra rc]| |] eqn:Er; try discriminate.
      simpl in Hstep. injection Hstep as <- <-.
      exists ra. split; [simpl; apply in_or_app; right; left; reflexivity|].
      apply (Hrec _ T c ra rc Hsound HT Er), Hne.
    - intros [arrs c] ta [arrs' c'] (X & HX & HiX) Hstep. simpl in HX.
      exists X. split; [|exact HiX]. simpl.
      destruct (NoteShort.tc_notes treeCache !! NoteShort.value ta) as [templateNote|].
      + destruct (negb (String.eqb (NoteShort.noteId templateNote) (NoteShort.noteId A))).
        * destruct (NoteShort.getCachedAttributes fuel treeCache templateNote
                      [NoteShort.noteId A] c) as [[ra rc]| |]; try discriminate.
          simpl in Hstep. injection Hstep as <- <-. apply in_or_app. left. exact HX.
        * injection Hstep as <- <-. exact HX.
      + injection Hstep as <- <-. exact HX.
    - exact Hst. }
  destruct Hq as (X & HX & HiX).
  apply (addUnique_includes treeCache T _ X HX HiX).
Qed.

End FreshCache.

Lemma rs_treeCache_wellKeyed : wellKeyed rs_treeCache.
Proof.
  intros k n H. unfold rs_treeCache in H. simpl in H.
  apply lookup_insert_Some in H as [[<- <-] | [_ H]]; [reflexivity|].
  apply lookup_insert_Some in H as [[<- <-] | [_ H]]; [reflexivity|].
  rewrite lookup_empty in H. discriminate.
Qed.

Lemma getAttributes_includes_template_witness :
  exists r,
    NoteShort.getAttributes 10 rs_treeCache rs_A None None ∅ = Return r
    /\ includesOwned rs_treeCache rs_T (fst r).
Proof.
  destruct (NoteShort.getAttributes 10 rs_treeCache rs_A None None ∅) as [r| |] eqn:E.
  - exists r. split; [reflexivity|].
    apply (getAttributes_includes_template rs_treeCache rs_treeCache_wellKeyed
             10 rs_A rs_T rs_rA ∅ r).
    + intros k attrs n H. rewrite lookup_empty in H. discriminate.
    + apply lookup_empty.
    + vm_compute. reflexivity.
    + vm_compute. left. reflexivity.
    + reflexivity.
    + vm_compute. reflexivity.
    + discriminate.
    + exact E.
  - vm_compute in E. discriminate.
  - vm_compute in E. discriminate.
Defined.

(** ** The consistency checker: fixers do not raise *)

Lemma find_upsert_keep {A} (key : A -> string) (x : A) (l : list A) (k : string) :
  List.find (fun y => String.eqb (key y) k) l <> None ->
  List.find (fun y => String.eqb (key y) k) (upsert key x l) <> None.
Proof.
  intros H. destruct (string_dec (key x) k) as [<- | Hne].
  - rewrite find_upsert_same. discriminate.
  - rewrite find_upsert_other by assumption. exact H.
Qed.

Lemma find_in_key {A} (key : A -> string) (l : list A) (x : A) :
  In x l -> List.find (fun y => String.eqb (key y) (key x)) l <> None.
Proof.
  intros Hin H. apply (find_none _ _ H) in Hin.
  rewrite String.eqb_refl in Hin. discriminate.
Qed.

Lemma fixable_total (chk : Check) :
  (forall s r, exists s', fixer chk true r s = Return s') -> fixable chk.
Proof.
  intros H. exists (fun _ _ => True). repeat split; auto.
Qed.

Lemma fixable_deleteBranchById (q : Store -> list (string * string)) :
  (forall s r, In r (q s) -> exists b, In b (branches s) /\ fst r = branchId b) ->
  fixable (mkCheck (string * string) q (fun autoFix r s => deleteBranchById autoFix (fst r) s)).
Proof.
  intros Hq. exists (fun r s => getBranch (fst r) s <> None). split; [|split].
  - intros s r Hr. destruct (Hq s r Hr) as (b & Hb & ->).
    apply (find_in_key branchId), Hb.
  - intros s r H. simpl. unfold deleteBranchById.
    destruct (getBranch (fst r) s); [eexists; reflexivity | contradiction].
  - intros s r r' s' H Hfix. simpl in Hfix. unfold deleteBranchById in Hfix.
    destruct (getBranch (fst r') s); [|discriminate].
    injection Hfix as <-. apply (find_upsert_keep branchId), H.
Qed.

Lemma fixable_deleteAttributeById (q : Store -> list (string * string)) :
  (forall s r, In r (q s) -> exists a, In a (attributes s) /\ fst r = attributeId a) ->
  fixable (mkCheck (string * string) q
             (fun autoFix r s => deleteAttributeById autoFix (fst r) s)).
Proof.
  intros Hq. exists (fun r s => getAttribute (fst r) s <> None). split; [|split].
  - intros s r Hr. destruct (Hq s r Hr) as (a & Ha & ->).
    apply (find_in_key attributeId), Ha.
  - intros s r H. simpl. unfold deleteAttributeById.
    destruct (getAttribute (fst r) s); [eexists; reflexivity | contradiction].
  - intros s r r' s' H Hfix. simpl in Hfix. unfold deleteAttributeById in Hfix.
    destruct (getAttribute (fst r') s); [|discriminate].
    injection Hfix as <-. apply (find_upsert_keep attributeId), H.
Qed.

Lemma in_distinct {A} (eqb : A -> A -> bool) (l : list A) (x : A) :
  In x (distinct eqb l) -> In x l.
Proof.
  induction l as [|y l IH]; simpl; [auto|].
  intros [-> | H]; [auto|]. apply List.filter_In in H as [H _]. auto.
Qed.

Lemma fixable_findBrokenReferenceIssues : List.Forall fixable findBrokenReferenceIssues.
Proof.
  unfold findBrokenReferenceIssues. repeat apply List.Forall_cons; [| | | |apply List.Forall_nil].
  - apply fixable_deleteBranchById. intros s r Hr.
    apply in_map_iff in Hr as (b & <- & Hb). apply List.filter_In in Hb as [Hb _].
    exists b. auto.
  - exists (fun r s => getBranch (fst r) s <> None). split; [|split].
    + intros s r Hr. simpl in Hr.
      apply in_map_iff in Hr as (b & <- & Hb). apply List.filter_In in Hb as [Hb _].
      apply (find_in_key branchId), Hb.
    + intros s r H. simpl.
      destruct (getBranch (fst r) s); [eexists; reflexivity | contradiction].
    + intros s r r' s' H Hfix. simpl in Hfix.
      destruct (getBranch (fst r') s); [|discriminate].
      injection Hfix as <-. apply (find_upsert_keep branchId), H.
  - apply fixable_deleteAttributeById. intros s r Hr.
    apply in_map_iff in Hr as (a & <- & Ha). apply List.filter_In in Ha as [Ha _].
    exists a. auto.
  - apply fixable_deleteAttributeById. intros s r Hr.
    apply in_map_iff in Hr as (a & <- & Ha). apply List.filter_In in Ha as [Ha _].
    exists a. auto.
Qed.

Lemma fixable_findExistencyIssues : List.Forall fixable findExistencyIssues.
Proof.
  unfold findExistencyIssues. repeat apply List.Forall_cons; [| | | |apply List.Forall_nil].
  - apply fixable_deleteBranchById. intros s r Hr.
    apply in_flat_map in Hr as (b & Hb & Hr). apply List.filter_In in Hb as [Hb _].
    apply in_map_iff in Hr as (n & <- & _). exists b. auto.
  - apply fixable_deleteBranchById. intros s r Hr.
    apply in_flat_map in Hr as (b & Hb & Hr). apply List.filter_In in Hb as [Hb _].
    apply in_map_iff in Hr as (n & <- & _). exists b. auto.
  - apply fixable_total. intros s r. simpl. eexists; reflexivity.
  - apply fixable_total. intros s r. simpl. eexists; reflexivity.
Qed.

Lemma fixable_findLogicIssues : List.Forall fixable findLogicIssues.
Proof.
  unfold findLogicIssues.
  repeat apply List.Forall_cons; [| | | | | | | | |apply List.Forall_nil].
  - exists (fun r s => getNote (fst r) s <> None). split; [|split].
    + intros s r Hr. simpl in Hr.
      apply in_map_iff in Hr as (n & <- & Hn). apply List.filter_In in Hn as [Hn _].
      apply (find_in_key noteId), Hn.
    + intros s r H. simpl.
      destruct (getNote (fst r) s); [eexists; reflexivity | contradiction].
    + intros s r r' s' H Hfix. simpl in Hfix.
      destruct (getNote (fst r') s); [|discriminate].
      injection Hfix as <-. apply (find_upsert_keep noteId), H.
  - exists (fun r s => getNote r s <> None). split; [|split].
    + intros s r Hr. simpl in Hr.
      apply in_map_iff in Hr as (n & <- & Hn). apply List.filter_In in Hn as [Hn _].
      apply (find_in_key noteId), Hn.
    + intros s r H. simpl.
      destruct (getNote r s) as [note|]; [|contradiction].
      destruct (isProtected note); eexists; reflexivity.
    + intros s r r' s' H Hfix. simpl in Hfix.
      destruct (getNote r' s) as [note|]; [|discriminate].
      destruct (isProtected note); injection Hfix as <-; exact H.
  - exists (fun r s => getNote r s <> None). split; [|split].
    + intros s r Hr. simpl in Hr.
      apply in_flat_map in Hr as (n & Hn & Hr). apply List.filter_In in Hn as [Hn _].
      apply in_map_iff in Hr as (x & <- & _).
      apply (find_in_key noteId), Hn.
    + intros s r H. simpl.
      destruct (getNote r s); [eexists; reflexivity | contradiction].
    + intros s r r' s' H Hfix. simpl in Hfix.
      destruct (getNote r' s); [|discriminate].
      injection Hfix as <-. exact H.
  - apply fixable_total. intros s r. simpl. eexists; reflexivity.
  - apply fixable_total. intros s r. simpl. eexists; reflexivity.
  - exists (fun r s => getAttribute r s <> None). split; [|split].
    + intros s r Hr. simpl in Hr.
      apply in_map_iff in Hr as (a & <- & Ha). apply List.filter_In in Ha as [Ha _].
      apply (find_in_key attributeId), Ha.
    + intros s r H. simpl. unfold deleteAttributeById.
      destruct (getAttribute r s); [eexists; reflexivity | contradiction].
    + intros s r r' s' H Hfix. simpl in Hfix. unfold deleteAttributeById in Hfix.
      destruct (getAttribute r' s); [|discriminate].
      injection Hfix as <-. apply (find_upsert_keep attributeId), H.
  - exists (fun r s => getAttribute (fst r) s <> None). split; [|split].
    + intros s r Hr. simpl in Hr.
      apply in_map_iff in Hr as (a & <- & Ha). apply List.filter_In in Ha as [Ha _].
      apply (find_in_key attributeId), Ha.
    + intros s r H. simpl.
      destruct (getAttribute (fst r) s); [eexists; reflexivity | contradiction].
    + intros s r r' s' H Hfix. simpl in Hfix.
      destruct (getAttribute (fst r') s); [|discriminate].
      injection Hfix as <-. apply (find_upsert_keep attributeId), H.
  - apply fixable_deleteAttributeById. intros s r Hr.
    apply in_flat_map in Hr as (a & Ha & Hr). apply List.filter_In in Ha as [Ha _].
    apply in_map_iff in Hr as (n & <- & _). exists a. auto.
  - apply fixable_deleteAttributeById. intros s r Hr.
    apply in_flat_map in Hr as (a & Ha & Hr). apply List.filter_In in Ha as [Ha _].
    apply in_map_iff in Hr as (n & <- & _). exists a. auto.
Qed.

Lemma trackedKeys_incl (en : string) (s : Store) (id : string) :
  In id (trackedKeys en s) -> In id (tableKeys en s).
Proof.
  unfold trackedKeys, tableKeys.
  destruct (String.eqb en "options") eqn:E; [|auto].
  apply String.eqb_eq in E. subst en. simpl.
  intros H. apply in_map_iff in H as (o & <- & Ho).
  apply List.filter_In in Ho as [Ho _]. apply in_map. exact Ho.
Qed.

Lemma fixable_runEntityChangeChecks (en : string) :
  List.Forall fixable (runEntityChangeChecks en).
Proof.
  unfold runEntityChangeChecks. repeat apply List.Forall_cons; [| |apply List.Forall_nil].
  - exists (fun r s => existsb (String.eqb r) (tableKeys en s) = true). split; [|split].
    + intros s r Hr. simpl in Hr. apply List.filter_In in Hr as [Hr _].
      apply existsb_exists. exists r. split; [|apply String.eqb_refl].
      apply trackedKeys_incl, Hr.
    + intros s r H. simpl. rewrite H. eexists; reflexivity.
    + intros s r r' s' H Hfix. simpl in Hfix.
      destruct (existsb (String.eqb r') (tableKeys en s)); [|discriminate].
      injection Hfix as <-. exact H.
  - apply fixable_total. intros s r. simpl. eexists; reflexivity.
Qed.

Lemma fixable_predicateChecks : List.Forall fixable predicateChecks.
Proof.
  unfold predicateChecks, findEntityChangeIssues.
  repeat (apply List.Forall_app; split);
    auto using fixable_findBrokenReferenceIssues, fixable_findExistencyIssues,
      fixable_findLogicIssues, fixable_runEntityChangeChecks.
Qed.

(** ** The consistency checker: the flags of an autofix run *)

Lemma findAndFixIssues_autofix (chk : Check) (c : ConsistencyChecks) (s : Store) :
  fixable chk -> autoFix c = true -> unrecoveredConsistencyErrors c = false ->
  exists c' s',
    findAndFixIssues chk (c, s) = (c', s')
    /\ autoFix c' = true
    /\ unrecoveredConsistencyErrors c' = false
    /\ fixedIssues c' = fixedIssues c || negb (noFindings chk s)
    /\ (noFindings chk s = true -> s' = s).
Proof.
  intros (P & Hscan & Hfix & Hkeep) Ha Hu.
  unfold findAndFixIssues, noFindings. simpl snd.
  assert (Hl : forall r, In r (scan chk s) -> P r s) by (intros r; apply Hscan).
  generalize dependent (scan chk s). intros l. revert c s Ha Hu.
  induction l as [|r l IH]; intros c s Ha Hu Hl.
  - exists c, s. simpl. rewrite orb_false_r. auto.
  - simpl fold_left. rewrite Ha.
    destruct (Hfix s r (Hl r (or_introl eq_refl))) as [s1 Hs1]. rewrite Hs1.
    destruct (IH (setFixed c) s1) as (c' & s' & Hrun & Ha' & Hu' & Hf' & _).
    + exact Ha.
    + exact Hu.
    + intros r0 Hr0. apply (Hkeep s r0 r s1); [apply Hl; right; exact Hr0 | exact Hs1].
    + exists c', s'. split; [exact Hrun|]. split; [exact Ha'|]. split; [exact Hu'|].
      split; [|discriminate].
      rewrite Hf'. simpl. rewrite orb_true_r. reflexivity.
Qed.

Lemma runChecks_autofix (l : list Check) :
  List.Forall fixable l ->
  forall c s,
    autoFix c = true -> unrecoveredConsistencyErrors c = false ->
    exists c' s',
      runChecks l (c, s) = (c', s')
      /\ autoFix c' = true
      /\ unrecoveredConsistencyErrors c' = false
      /\ (forallb (fun chk => noFindings chk s) l = true ->
          s' = s /\ fixedIssues c' = fixedIssues c)
      /\ (forallb (fun chk => noFindings chk s) l = false -> fixedIssues c' = true)
      /\ (fixedIssues c = true -> fixedIssues c' = true).
Proof.
  induction 1 as [|chk l Hchk _ IH]; intros c s Ha Hu.
  - exists c, s. simpl. repeat split; auto. discriminate.
  - destruct (findAndFixIssues_autofix chk c s Hchk Ha Hu)
      as (c1 & s1 & Hrun1 & Ha1 & Hu1 & Hf1 & Hs1).
    destruct (IH c1 s1 Ha1 Hu1) as (c' & s' & Hrun & Ha' & Hu' & Hclean & Hdirty & Hmono).
    exists c', s'. unfold runChecks in *. simpl fold_left. rewrite Hrun1.
    split; [exact Hrun|]. split; [exact Ha'|]. split; [exact Hu'|].
    simpl forallb. destruct (noFindings chk s) eqn:E.
    + rewrite (Hs1 eq_refl) in *. rewrite orb_false_r in Hf1. rewrite Hf1 in *.
      simpl. auto.
    + simpl. rewrite orb_true_r in Hf1.
      split; [discriminate|]. split; [intros _; auto|]. intros _. auto.
Qed.

Lemma runChecks_app (l1 l2 : list Check) (st : ConsistencyChecks * Store) :
  runChecks (l1 ++ l2) st = runChecks l2 (runChecks l1 st).
Proof. unfold runChecks. apply fold_left_app. Qed.

Lemma findWronglyNamedAttributes_autofix (sanitizeAttributeName : string -> string)
    (c : ConsistencyChecks) (s : Store) :
  autoFix c = true ->
  exists c' s',
    findWronglyNamedAttributes sanitizeAttributeName (c, s) = (c', s')
    /\ autoFix c' = true
    /\ unrecoveredConsistencyErrors c' = unrecoveredConsistencyErrors c
    /\ fixedIssues c' = fixedIssues c || negb (namesSane sanitizeAttributeName s)
    /\ (namesSane sanitizeAttributeName s = true -> s' = s).
Proof.
  intros Ha. unfold findWronglyNamedAttributes, namesSane. simpl snd.
  generalize (distinct String.eqb (map name (attributes s))). intros l.
  revert c s Ha. induction l as [|n l IH]; intros c s Ha.
  - exists c, s. simpl. rewrite orb_false_r. auto.
  - simpl fold_left. simpl forallb.
    destruct (String.eqb (sanitizeAttributeName n) n) eqn:E; simpl negb.
    + destruct (IH c s Ha) as (c' & s' & Hrun & H). exists c', s'. simpl. auto.
    + rewrite Ha.
      match goal with
      | |- context [fold_left _ l (setFixed c, ?s1)] =>
        destruct (IH (setFixed c) s1 Ha) as (c' & s' & Hrun & Ha' & Hu' & Hf' & _)
      end.
      exists c', s'. split; [exact Hrun|]. split; [exact Ha'|]. split; [exact Hu'|].
      split; [|discriminate]. rewrite Hf'. simpl. rewrite orb_true_r. reflexivity.
Qed.

(** The predicate scans and the renaming of an autofix run, before the root
    is expanded and the tree is checked. *)
Lemma scans_autofix (sanitizeAttributeName : string -> string) (s : Store) :
  exists c' s',
    findWronglyNamedAttributes sanitizeAttributeName
      (runChecks findEntityChangeIssues
         (runChecks findLogicIssues
            (runChecks findExistencyIssues
               (runChecks findBrokenReferenceIssues
                  (mkConsistencyChecks true false false, s))))) = (c', s')
    /\ c' = mkConsistencyChecks true false (negb (isClean sanitizeAttributeName s))
    /\ (isClean sanitizeAttributeName s = true -> s' = s).
Proof.
  assert (Hp : forall st,
             runChecks findEntityChangeIssues
               (runChecks findLogicIssues
                  (runChecks findExistencyIssues
                     (runChecks findBrokenReferenceIssues st)))
             = runChecks predicateChecks st).
  { intros st. unfold predicateChecks. rewrite !runChecks_app. reflexivity. }
  rewrite Hp.
  destruct (runChecks_autofix predicateChecks fixable_predicateChecks
              (mkConsistencyChecks true false false) s eq_refl eq_refl)
    as (c1 & s1 & Hrun1 & Ha1 & Hu1 & Hclean & Hdirty & _).
  rewrite Hrun1.
  destruct (findWronglyNamedAttributes_autofix sanitizeAttributeName c1 s1 Ha1)
    as (c' & s' & Hrun & Ha' & Hu' & Hf' & Hs').
  exists c', s'. split; [exact Hrun|]. unfold isClean.
  destruct (forallb (fun chk => noFindings chk s) predicateChecks) eqn:E.
  - destruct (Hclean eq_refl) as [-> Hf1]. simpl in Hf1. rewrite Hf1 in Hf'.
    simpl in *. split; [|exact Hs'].
    destruct c'. simpl in *. congruence.
  - rewrite (Hdirty eq_refl) in Hf'. simpl in *. split; [|discriminate].
    destruct c'. simpl in *. congruence.
Qed.

(** ** The consistency checker: the scans do not read [isExpanded] *)

Lemma expandBranch_fields (b : Branch) :
  branchId (expandBranch b) = branchId b
  /\ b_noteId (expandBranch b) = b_noteId b
  /\ parentNoteId (expandBranch b) = parentNoteId b
  /\ b_isDeleted (expandBranch b) = b_isDeleted b.
Proof.
  unfold expandBranch. destruct (String.eqb (branchId b) "root"); repeat split.
Qed.

Lemma expandBranch_idem (b : Branch) : expandBranch (expandBranch b) = expandBranch b.
Proof.
  unfold expandBranch. destruct (String.eqb (branchId b) "root") eqn:E; simpl.
  - rewrite E. reflexivity.
  - rewrite E. reflexivity.
Qed.

Lemma expandRoot_idem (s : Store) : expandRoot (expandRoot s) = expandRoot s.
Proof.
  unfold expandRoot, setBranches. simpl. f_equal.
  rewrite map_map. apply map_ext. intros b. apply expandBranch_idem.
Qed.

Section ExpandedRows.

Variable A : Type.
Variable l : list Branch.

Lemma filter_expanded (p : Branch -> bool) :
  (forall b, p (expandBranch b) = p b) ->
  List.filter p (map expandBranch l) = map expandBranch (List.filter p l).
Proof.
  intros Hp. induction l as [|b l' IH]; simpl; [reflexivity|].
  rewrite Hp. destruct (p b); simpl; rewrite IH; reflexivity.
Qed.

Lemma map_expanded (g : Branch -> A) :
  (forall b, g (expandBranch b) = g b) ->
  map g (map expandBranch l) = map g l.
Proof.
  intros Hg. rewrite map_map. apply map_ext. exact Hg.
Qed.

Lemma flat_map_expanded (g : Branch -> list A) :
  (forall b, g (expandBranch b) = g b) ->
  flat_map g (map expandBranch l) = flat_map g l.
Proof.
  intros Hg. induction l as [|b l' IH]; simpl; [reflexivity|].
  rewrite Hg, IH. reflexivity.
Qed.

Lemma existsb_expanded (q : Branch -> bool) :
  (forall b, q (expandBranch b) = q b) ->
  existsb q (map expandBranch l) = existsb q l.
Proof.
  intros Hq. induction l as [|b l' IH]; simpl; [reflexivity|].
  rewrite Hq, IH. reflexivity.
Qed.

End ExpandedRows.

Ltac expanded_fields :=
  intros; cbv beta;
  repeat match goal with
         | |- context [branchId (expandBranch ?b)] =>
           rewrite (proj1 (expandBranch_fields b))
         | |- context [b_noteId (expandBranch ?b)] =>
           rewrite (proj1 (proj2 (expandBranch_fields b)))
         | |- context [parentNoteId (expandBranch ?b)] =>
           rewrite (proj1 (proj2 (proj2 (expandBranch_fields b))))
         | |- context [b_isDeleted (expandBranch ?b)] =>
           rewrite (proj2 (proj2 (proj2 (expandBranch_fields b))))
         end;
  reflexivity.

Ltac expanded_scan s :=
  cbn [scan]; cbv zeta;
  change (branches (expandRoot s)) with (map expandBranch (branches s));
  repeat rewrite filter_expanded by expanded_fields;
  repeat rewrite map_expanded by expanded_fields;
  repeat rewrite flat_map_expanded by expanded_fields;
  try reflexivity.

Lemma findBrokenReferenceIssues_expandRoot :
  List.Forall ignoresExpansion findBrokenReferenceIssues.
Proof.
  unfold findBrokenReferenceIssues.
  repeat apply List.Forall_cons; [| | | |apply List.Forall_nil]; intros s.
  - expanded_scan s.
  - expanded_scan s.
  - reflexivity.
  - reflexivity.
Qed.

Lemma findExistencyIssues_expandRoot :
  List.Forall ignoresExpansion findExistencyIssues.
Proof.
  unfold findExistencyIssues.
  repeat apply List.Forall_cons; [| | | |apply List.Forall_nil]; intros s.
  - expanded_scan s.
  - expanded_scan s.
  - cbn [scan]. f_equal. f_equal. apply List.filter_ext. intros n.
    change (branches (expandRoot s)) with (map expandBranch (branches s)).
    rewrite existsb_expanded by expanded_fields. reflexivity.
  - expanded_scan s.
Qed.

Lemma findLogicIssues_expandRoot :
  List.Forall ignoresExpansion findLogicIssues.
Proof.
  unfold findLogicIssues.
  repeat apply List.Forall_cons; [| | | | | | | | |apply List.Forall_nil]; intros s;
    try reflexivity.
  expanded_scan s.
Qed.

Lemma tableKeys_expandRoot (en : string) (s : Store) :
  tableKeys en (expandRoot s) = tableKeys en s.
Proof.
  unfold tableKeys.
  repeat match goal with
         | |- context [if String.eqb en ?x then _ else _] => destruct (String.eqb en x)
         end; try reflexivity.
  change (branches (expandRoot s)) with (map expandBranch (branches s)).
  apply map_expanded. expanded_fields.
Qed.

Lemma trackedKeys_expandRoot (en : string) (s : Store) :
  trackedKeys en (expandRoot s) = trackedKeys en s.
Proof.
  unfold trackedKeys. destruct (String.eqb en "options"); [reflexivity|].
  apply tableKeys_expandRoot.
Qed.

Lemma runEntityChangeChecks_expandRoot (en : string) :
  List.Forall ignoresExpansion (runEntityChangeChecks en).
Proof.
  unfold runEntityChangeChecks.
  repeat apply List.Forall_cons; [| |apply List.Forall_nil]; intros s; cbn [scan].
  - rewrite trackedKeys_expandRoot. reflexivity.
  - f_equal. apply List.filter_ext. intros e.
    rewrite tableKeys_expandRoot. reflexivity.
Qed.

Lemma predicateChecks_expandRoot : List.Forall ignoresExpansion predicateChecks.
Proof.
  unfold predicateChecks, findEntityChangeIssues.
  repeat (apply List.Forall_app; split);
    auto using findBrokenReferenceIssues_expandRoot, findExistencyIssues_expandRoot,
      findLogicIssues_expandRoot, runEntityChangeChecks_expandRoot.
Qed.

Lemma isClean_expandRoot (sanitizeAttributeName : string -> string) (s : Store) :
  isClean sanitizeAttributeName (expandRoot s) = isClean sanitizeAttributeName s.
Proof.
  unfold isClean. f_equal.
  pose proof predicateChecks_expandRoot as H.
  induction H as [|chk l Hchk _ IH]; simpl; [reflexivity|].
  rewrite IH. unfold noFindings. rewrite (Hchk s). reflexivity.
Qed.

(** ** The consistency checker: the tree walk ends *)

Lemma jsGet_parentsOf (m : ChildToParents) (id : string) (ps : list string) :
  jsGet id m = Own ps <-> parentsOf id m = Some ps.
Proof.
  unfold jsGet, parentsOf.
  destruct (List.find (fun kv => String.eqb (fst kv) id) m) as [kv|]; simpl.
  - split; intros H; injection H as <-; reflexivity.
  - split; [destruct (isPrototypeKey id)|]; discriminate.
Qed.


Lemma parentsOf_treeIds (m : ChildToParents) (id : string) (ps : list string) (q : string) :
  jsGet id m = Own ps -> In q ps -> In q (treeIds m).
Proof.
  rewrite jsGet_parentsOf. unfold parentsOf, treeIds. intros H Hq.
  destruct (List.find (fun kv => String.eqb (fst kv) id) m) as [kv|] eqn:E; [|discriminate].
  injection H as <-. apply find_some in E as [Hin _].
  apply in_or_app. right. apply in_flat_map. exists kv. auto.
Qed.

Lemma treeMeasure_parent (m : ChildToParents) (id q : string) (path : list string) :
  In q (treeIds m) -> existsb (String.eqb q) path = false ->
  (treeMeasure m q (path ++ [id]) < treeMeasure m id path)%nat.
Proof.
  intros Hin Hq. unfold treeMeasure, offPath.
  set (p := fun u => negb (existsb (String.eqb u) path) && negb (String.eqb u id)).
  assert (E : List.filter
                (fun u => negb (existsb (String.eqb u) (path ++ [id]))
                          && negb (String.eqb u q)) (treeIds m)
              = List.filter (fun u => p u && negb (String.eqb u q)) (treeIds m)).
  { apply List.filter_ext. intros u. unfold p. rewrite existsb_app. simpl.
    rewrite orb_false_r, negb_orb. reflexivity. }
  rewrite E. rewrite existsb_app. simpl. rewrite orb_false_r.
  destruct (String.eqb q id) eqn:K.
  - apply String.eqb_eq in K. subst q. rewrite Hq. simpl.
    assert (E2 : List.filter (fun u => p u && negb (String.eqb u id)) (treeIds m)
                 = List.filter p (treeIds m)).
    { apply List.filter_ext. intros u. unfold p.
      destruct (existsb (String.eqb u) path), (String.eqb u id); reflexivity. }
    rewrite E2. lia.
  - rewrite Hq. simpl.
    assert (Hp : p q = true) by (unfold p; rewrite Hq, K; reflexivity).
    pose proof (filter_remove_lt p q (treeIds m) Hin Hp).
    destruct (existsb (String.eqb id) path); lia.
Qed.

Lemma checkTreeCycle_total (m : ChildToParents) (fuel : nat) :
  forall id path,
    (treeMeasure m id path < fuel)%nat ->
    checkTreeCycle fuel m id path <> OutOfFuel.
Proof.
  induction fuel as [|fuel IH]; intros id path Hfuel; [lia|].
  simpl. destruct (String.eqb id "root"); [discriminate|].
  destruct (jsGet id m) as [ps| |] eqn:Eps; [| |discriminate].
  2: { match goal with |- (if ?c then _ else _) <> _ => destruct c end; discriminate. }
  destruct ps as [|p0 ps0]; [discriminate|].
  assert (Hrec : forall q, In q (p0 :: ps0) -> existsb (String.eqb q) path = false ->
                           checkTreeCycle fuel m q (path ++ [id]) <> OutOfFuel).
  { intros q Hq Hpath. apply IH.
    pose proof (treeMeasure_parent m id q path (parentsOf_treeIds m id _ q Eps Hq) Hpath).
    lia. }
  generalize dependent (p0 :: ps0). intros ps _ Hrec.
  assert (Hacc : Return false <> @OutOfFuel bool) by discriminate.
  generalize dependent (@Return bool false). intros acc Hacc.
  revert acc Hacc. induction ps as [|q ps IHps]; intros acc Hacc; simpl.
  - exact Hacc.
  - apply IHps.
    + intros q' Hq'. apply Hrec. right. exact Hq'.
    + destruct acc as [err| |]; simpl; [|discriminate|contradiction].
      destruct (existsb (String.eqb q) path) eqn:Hq; [discriminate|].
      pose proof (Hrec q (or_introl eq_refl) Hq) as Hq'.
      destruct (checkTreeCycle fuel m q (path ++ [id])); simpl;
        [discriminate | discriminate | contradiction].
Qed.

Lemma treeMeasure_start (m : ChildToParents) (id : string) :
  (treeMeasure m id [] < treeFuel m)%nat.
Proof.
  unfold treeMeasure, treeFuel, offPath. simpl.
  pose proof (filter_length_le (fun u => negb (String.eqb u id)) (treeIds m)).
  simpl in *. lia.
Qed.

Lemma addParentRow_total (row : string * string) (m : ChildToParents) :
  addParentRow row m <> OutOfFuel.
Proof.
  unfold addParentRow. destruct row as [c p]. destruct (jsGet c m); discriminate.
Qed.

(** The loop of [checkTreeCycles] over the keys ends. *)
Lemma keys_loop_total (m : ChildToParents) (keys : list string) (acc : Result bool) :
  acc <> OutOfFuel ->
  fold_left (fun acc id =>
               err <- acc ;;
               e <- checkTreeCycle (treeFuel m) m id [] ;;
               Return (err || e))
    keys acc <> OutOfFuel.
Proof.
  revert acc. induction keys as [|id keys IH]; intros acc Hacc; simpl; [exact Hacc|].
  apply IH. destruct acc as [err| |]; simpl; [|discriminate|contradiction].
  pose proof (checkTreeCycle_total m (treeFuel m) id [] (treeMeasure_start m id)) as H.
  destruct (checkTreeCycle (treeFuel m) m id []); simpl;
    [discriminate | discriminate | contradiction].
Qed.

Lemma checkTreeCycles_total (s : Store) : checkTreeCycles s <> OutOfFuel.
Proof.
  unfold checkTreeCycles.
  pose proof (forEach_total addParentRow
                (map (fun b => (b_noteId b, parentNoteId b))
                   (List.filter (fun b => negb (b_isDeleted b)) (branches s)))
                addParentRow_total []) as Hbuild.
  fold (childToParentsOf s) in Hbuild.
  destruct (childToParentsOf s) as [m| |]; simpl; [|discriminate|contradiction].
  pose proof (keys_loop_total m (objectKeys m) (Return false)) as Hkeys.
  destruct (fold_left _ (objectKeys m) (Return false)) as [err| |]; simpl;
    [|discriminate|apply Hkeys; discriminate].
  repeat match goal with
         | |- context [match ?x with _ => _ end] => destruct x
         end; discriminate.
Qed.

(** ** The consistency checker: each fixer repairs its finding *)

Lemma existsb_upsert_key {A} (key : A -> string) (x : A) (l : list A) :
  existsb (fun y => String.eqb (key y) (key x)) (upsert key x l) = true.
Proof.
  pose proof (find_upsert_same key x l) as H. apply find_some in H as [Hin Hk].
  apply existsb_exists. exists x. auto.
Qed.

Lemma repairs_deleteBranchById (q : Store -> list (string * string)) :
  (forall s r, In r (q s) ->
     exists b, In b (branches s) /\ b_isDeleted b = false /\ fst r = branchId b) ->
  repairs (mkCheck (string * string) q (fun autoFix r s => deleteBranchById autoFix (fst r) s)).
Proof.
  intros Hq s r s' _ _ Hfix Hr'. simpl in *. unfold deleteBranchById in Hfix.
  destruct (getBranch (fst r) s) as [b0|] eqn:G; [|discriminate].
  injection Hfix as <-. apply find_some_key in G as [_ Hk0].
  destruct (Hq _ _ Hr') as (b' & Hin & Hlive & Hk).
  apply (upsert_key_replaced branchId) in Hin; [|simpl; congruence].
  subst b'. discriminate.
Qed.

Lemma repairs_deleteAttributeById (q : Store -> list (string * string)) :
  (forall s r, In r (q s) ->
     exists a, In a (attributes s) /\ a_isDeleted a = false /\ fst r = attributeId a) ->
  repairs (mkCheck (string * string) q
             (fun autoFix r s => deleteAttributeById autoFix (fst r) s)).
Proof.
  intros Hq s r s' _ _ Hfix Hr'. simpl in *. unfold deleteAttributeById in Hfix.
  destruct (getAttribute (fst r) s) as [a0|] eqn:G; [|discriminate].
  injection Hfix as <-. apply find_some_key in G as [_ Hk0].
  destruct (Hq _ _ Hr') as (a' & Hin & Hlive & Hk).
  apply (upsert_key_replaced attributeId) in Hin; [|simpl; congruence].
  subst a'. discriminate.
Qed.

Lemma repairs_findBrokenReferenceIssues : List.Forall repairs findBrokenReferenceIssues.
Proof.
  unfold findBrokenReferenceIssues. repeat apply List.Forall_cons; [| | | |apply List.Forall_nil].
  - apply repairs_deleteBranchById. intros s r Hr.
    apply in_map_iff in Hr as (b & <- & Hb). apply List.filter_In in Hb as [Hb Hp].
    apply andb_prop in Hp as [Hp _]. apply negb_true_iff in Hp. exists b. auto.
  - intros s r s' [Hroot _] _ Hfix Hr'. simpl in *.
    destruct (getBranch (fst r) s) as [b0|] eqn:G; [|discriminate].
    injection Hfix as <-. apply find_some_key in G as [_ Hk0].
    apply in_map_iff in Hr' as (b' & <- & Hb'). apply List.filter_In in Hb' as [Hin Hp].
    apply (upsert_key_replaced branchId) in Hin; [|simpl in *; congruence].
    subst b'. simpl in Hp. unfold hasNote in *. simpl in Hp. rewrite Hroot in Hp.
    rewrite andb_false_r in Hp. discriminate.
  - apply repairs_deleteAttributeById. intros s r Hr.
    apply in_map_iff in Hr as (a & <- & Ha). apply List.filter_In in Ha as [Ha Hp].
    apply andb_prop in Hp as [Hp _]. apply negb_true_iff in Hp. exists a. auto.
  - apply repairs_deleteAttributeById. intros s r Hr.
    apply in_map_iff in Hr as (a & <- & Ha). apply List.filter_In in Ha as [Ha Hp].
    apply andb_prop in Hp as [Hp _]. apply andb_prop in Hp as [Hp _].
    apply negb_true_iff in Hp. exists a. auto.
Qed.

Lemma filter_filter_and {A} (f g : A -> bool) (l : list A) :
  List.filter f (List.filter g l) = List.filter (fun x => g x && f x) l.
Proof.
  induction l as [|x l IH]; simpl; [reflexivity|].
  destruct (g x); simpl; [destruct (f x)|]; rewrite IH; reflexivity.
Qed.

Lemma filter_all {A} (f : A -> bool) (l : list A) :
  (forall x, In x l -> f x = true) -> List.filter f l = l.
Proof.
  induction l as [|x l IH]; simpl; intros H; [reflexivity|].
  rewrite (H x (or_introl eq_refl)), IH; auto.
Qed.

Lemma filter_none {A} (f : A -> bool) (l : list A) :
  (forall x, In x l -> f x = false) -> List.filter f l = [].
Proof.
  induction l as [|x l IH]; simpl; intros H; [reflexivity|].
  rewrite (H x (or_introl eq_refl)), IH; auto.
Qed.

(** The rows that satisfy [p], after a row that does not satisfy it is
    saved: those with another key. *)
Lemma filter_upsert_out {A} (key : A -> string) (p : A -> bool) (x : A) (l : list A) :
  p x = false ->
  List.filter p (upsert key x l)
  = List.filter (fun y => negb (String.eqb (key y) (key x))) (List.filter p l).
Proof.
  intros Hx. unfold upsert.
  destruct (existsb (fun y => String.eqb (key y) (key x)) l) eqn:E.
  - clear E. induction l as [|y l IH]; simpl; [reflexivity|].
    destruct (String.eqb (key y) (key x)) eqn:K.
    + rewrite Hx. destruct (p y); simpl; rewrite ?K; exact IH.
    + destruct (p y); simpl; rewrite ?K, IH; reflexivity.
  - rewrite List.filter_app. simpl. rewrite Hx, app_nil_r.
    symmetry. apply filter_all. intros y Hy. apply List.filter_In in Hy as [Hy _].
    destruct (String.eqb (key y) (key x)) eqn:K; [|reflexivity].
    assert (existsb (fun y0 => String.eqb (key y0) (key x)) l = true)
      by (apply existsb_exists; exists y; auto).
    congruence.
Qed.

(** The same after a loop of saves. *)
Lemma filter_fold_saveBranch (p : Branch -> bool) (g : Branch -> Branch) (T : list Branch) :
  (forall b, p (g b) = false) -> (forall b, branchId (g b) = branchId b) ->
  forall s,
    List.filter p (branches (fold_left (fun s b => saveBranch (g b) s) T s))
    = List.filter (fun y => negb (existsb (fun b => String.eqb (branchId y) (branchId b)) T))
        (List.filter p (branches s)).
Proof.
  intros Hp Hk. induction T as [|b T IH]; intros s; simpl.
  - symmetry. apply filter_all. reflexivity.
  - rewrite IH. change (branches (saveBranch (g b) s))
      with (upsert branchId (g b) (branches s)).
    rewrite (filter_upsert_out branchId p (g b)) by apply Hp.
    rewrite filter_filter_and. apply List.filter_ext. intros y.
    rewrite Hk, negb_orb. reflexivity.
Qed.

Lemma filter_own_keys (T l : list Branch) :
  (forall y, In y l -> In y T) ->
  List.filter (fun y => negb (existsb (fun b => String.eqb (branchId y) (branchId b)) T)) l
  = [].
Proof.
  intros H. apply filter_none. intros y Hy. apply negb_false_iff.
  apply existsb_exists. exists y. split; [auto | apply String.eqb_refl].
Qed.

Lemma length_filter_map {A B} (f : A -> B) (p : B -> bool) (l : list A) :
  length (List.filter p (map f l)) = length (List.filter (fun x => p (f x)) l).
Proof.
  induction l as [|x l IH]; simpl; [reflexivity|].
  destruct (p (f x)); simpl; rewrite IH; reflexivity.
Qed.

Lemma repairs_findExistencyIssues : List.Forall repairs findExistencyIssues.
Proof.
  unfold findExistencyIssues. repeat apply List.Forall_cons; [| | | |apply List.Forall_nil].
  - apply repairs_deleteBranchById. intros s r Hr.
    apply in_flat_map in Hr as (b & Hb & Hr). apply List.filter_In in Hb as [Hb Hp].
    apply negb_true_iff in Hp.
    apply in_map_iff in Hr as (n & <- & _). exists b. auto.
  - apply repairs_deleteBranchById. intros s r Hr.
    apply in_flat_map in Hr as (b & Hb & Hr). apply List.filter_In in Hb as [Hb Hp].
    apply negb_true_iff in Hp.
    apply in_map_iff in Hr as (n & <- & _). exists b. auto.
  - intros s r s' _ _ Hfix Hr'. simpl in Hfix, Hr'. injection Hfix as <-.
    apply in_distinct in Hr'. apply in_map_iff in Hr' as (n & <- & Hn).
    apply List.filter_In in Hn as [_ Hp]. apply andb_prop in Hp as [_ Hp].
    apply negb_true_iff in Hp.
    match type of Hp with
    | existsb ?f (branches (createBranch ?a ?b ?c ?s0)) = false =>
      assert (Hex : existsb f (branches (createBranch a b c s0)) = true)
    end; [|congruence].
    apply existsb_exists. eexists. split.
    + unfold createBranch. simpl. apply in_upsert. left. reflexivity.
    + simpl. rewrite String.eqb_refl. reflexivity.
  - intros s r s' _ _ Hfix Hr'. simpl in Hfix, Hr'. injection Hfix as <-.
    apply List.filter_In in Hr' as [_ Hcount]. apply Nat.ltb_lt in Hcount.
    rewrite length_filter_map, filter_filter_and in Hcount.
    set (p := fun b => String.eqb (b_noteId b) (fst r)
                       && String.eqb (parentNoteId b) (snd r)
                       && negb (b_isDeleted b)) in *.
    assert (E : forall l,
               List.filter (fun x => negb (b_isDeleted x)
                                     && pairEqb r (b_noteId x, parentNoteId x)) l
               = List.filter p l).
    { intros l. apply List.filter_ext. intros b. unfold p, pairEqb. simpl.
      rewrite (String.eqb_sym (fst r)), (String.eqb_sym (snd r)).
      destruct (b_isDeleted b), (String.eqb (b_noteId b) (fst r)),
        (String.eqb (parentNoteId b) (snd r)); reflexivity. }
    rewrite E in Hcount.
    rewrite (filter_fold_saveBranch p markBranchDeleted) in Hcount.
    + destruct (List.filter p (branches s)) as [|x T]; simpl in Hcount; [lia|].
      rewrite (filter_own_keys T T) in Hcount by auto.
      destruct (negb _) in Hcount; simpl in Hcount; lia.
    + intros b. unfold p. simpl. apply andb_false_r.
    + reflexivity.
Qed.

Lemma repairs_findLogicIssues : List.Forall repairs findLogicIssues.
Proof.
  unfold findLogicIssues.
  repeat apply List.Forall_cons; [| | | | | | | | |apply List.Forall_nil].
  - intros s r s' _ _ Hfix Hr'. simpl in Hfix, Hr'.
    destruct (getNote (fst r) s) as [n0|] eqn:G; [|discriminate].
    injection Hfix as <-. apply find_some_key in G as [_ Hk0].
    apply in_map_iff in Hr' as (n' & <- & Hn'). apply List.filter_In in Hn' as [Hin Hp].
    apply (upsert_key_replaced noteId) in Hin; [|simpl in *; congruence].
    subst n'. simpl in Hp. rewrite andb_false_r in Hp. discriminate.
  - intros s r s' _ _ Hfix Hr'. simpl in Hfix, Hr'.
    destruct (getNote r s) as [n0|] eqn:G; [|discriminate].
    apply in_map_iff in Hr' as (n' & <- & Hn'). apply List.filter_In in Hn' as [_ Hp].
    apply negb_true_iff in Hp. unfold hasContentRow in Hp.
    destruct (isProtected n0); injection Hfix as <-; simpl in Hp;
      match type of Hp with
      | existsb _ (upsert fst ?x ?l) = false =>
        pose proof (existsb_upsert_key fst x l) as Hex
      end; simpl in Hex; congruence.
  - intros s r s' _ _ Hfix Hr'. simpl in Hfix, Hr'.
    destruct (getNote r s) as [n0|] eqn:G; [|discriminate].
    injection Hfix as <-.
    apply in_flat_map in Hr' as (n' & _ & Hr'). apply in_map_iff in Hr' as (row & <- & Hrow).
    apply List.filter_In in Hrow as [Hin Hp]. apply andb_prop in Hp as [Hk Hnull].
    apply String.eqb_eq in Hk. simpl in Hin.
    apply (upsert_key_replaced fst) in Hin; [|simpl; congruence].
    subst row. discriminate.
  - intros s r s' _ _ Hfix Hr'. simpl in Hfix, Hr'. injection Hfix as <-.
    apply in_map_iff in Hr' as (rev & <- & Hrev). apply List.filter_In in Hrev as [Hin _].
    simpl in Hin. apply List.filter_In in Hin as [_ Hne].
    rewrite String.eqb_refl in Hne. discriminate.
  - intros s r s' [_ Hroot] Hr Hfix Hr'. simpl in r, Hfix, Hr, Hr'. injection Hfix as <-.
    assert (Hne : r <> "root").
    { apply in_flat_map in Hr as (b & _ & Hr). apply in_map_iff in Hr as (n & <- & Hn).
      apply List.filter_In in Hn as [Hn Hp]. apply andb_prop in Hp as [Hp Hsearch].
      apply andb_prop in Hp as [Hk _]. apply String.eqb_eq in Hk, Hsearch.
      intros E. apply (Hroot n Hn); congruence. }
    apply in_flat_map in Hr' as (b' & Hb' & Hr'). apply in_map_iff in Hr' as (n & Hpar & _).
    apply List.filter_In in Hb' as [Hin Hlive].
    set (p := fun b => negb (b_isDeleted b) && String.eqb (parentNoteId b) r) in *.
    assert (Hq : In b' (List.filter p
                          (branches
                             (fold_left (fun s branch => saveBranch (setParentNoteId "root" branch) s)
                                (List.filter p (branches s)) s)))).
    { apply List.filter_In. split; [exact Hin|]. unfold p. rewrite Hlive, Hpar.
      apply String.eqb_refl. }
    rewrite (filter_fold_saveBranch p (setParentNoteId "root")) in Hq.
    + rewrite filter_own_keys in Hq by auto. destruct Hq.
    + intros b. unfold p, setParentNoteId. cbn [parentNoteId b_isDeleted].
      destruct (String.eqb "root" r) eqn:K; [|apply andb_false_r].
      apply String.eqb_eq in K. congruence.
    + reflexivity.
  - intros s r s' _ _ Hfix Hr'. simpl in Hfix, Hr'. unfold deleteAttributeById in Hfix.
    destruct (getAttribute r s) as [a0|] eqn:G; [|discriminate].
    injection Hfix as <-. apply find_some_key in G as [_ Hk0].
    apply in_map_iff in Hr' as (a' & <- & Ha'). apply List.filter_In in Ha' as [Hin Hp].
    apply (upsert_key_replaced attributeId) in Hin; [|simpl in *; congruence].
    subst a'. discriminate.
  - intros s r s' _ _ Hfix Hr'. simpl in Hfix, Hr'.
    destruct (getAttribute (fst r) s) as [a0|] eqn:G; [|discriminate].
    injection Hfix as <-. apply find_some_key in G as [_ Hk0].
    apply in_map_iff in Hr' as (a' & <- & Ha'). apply List.filter_In in Ha' as [Hin Hp].
    apply (upsert_key_replaced attributeId) in Hin; [|simpl in *; congruence].
    subst a'. simpl in Hp. rewrite andb_false_r in Hp. discriminate.
  - apply repairs_deleteAttributeById. intros s r Hr.
    apply in_flat_map in Hr as (a & Ha & Hr). apply List.filter_In in Ha as [Ha Hp].
    apply negb_true_iff in Hp.
    apply in_map_iff in Hr as (n & <- & _). exists a. auto.
  - apply repairs_deleteAttributeById. intros s r Hr.
    apply in_flat_map in Hr as (a & Ha & Hr). apply List.filter_In in Ha as [Ha Hp].
    apply andb_prop in Hp as [Hp _]. apply negb_true_iff in Hp.
    apply in_map_iff in Hr as (n & <- & _). exists a. auto.
Qed.

Lemma repairs_runEntityChangeChecks (en : string) :
  List.Forall repairs (runEntityChangeChecks en).
Proof.
  unfold runEntityChangeChecks. repeat apply List.Forall_cons; [| |apply List.Forall_nil].
  - intros s r s' _ _ Hfix Hr'. simpl in Hfix, Hr'.
    destruct (existsb (String.eqb r) (tableKeys en s)); [|discriminate].
    injection Hfix as <-. apply List.filter_In in Hr' as [_ Hp].
    apply negb_true_iff in Hp. unfold hasEntityChange in Hp. simpl in Hp.
    rewrite existsb_app in Hp. simpl in Hp. rewrite !String.eqb_refl in Hp.
    simpl in Hp. rewrite orb_true_r in Hp. discriminate.
  - intros s r s' _ _ Hfix Hr'. simpl in Hfix, Hr'. injection Hfix as <-.
    apply in_map_iff in Hr' as (e & <- & He). apply List.filter_In in He as [Hin Hp].
    simpl in Hin. apply List.filter_In in Hin as [_ Hne].
    apply andb_prop in Hp as [Hp _]. apply andb_prop in Hp as [_ Hname].
    rewrite Hname, String.eqb_refl in Hne. discriminate.
Qed.

Lemma repairs_predicateChecks : List.Forall repairs predicateChecks.
Proof.
  unfold predicateChecks, findEntityChangeIssues.
  repeat (apply List.Forall_app; split);
    auto using repairs_findBrokenReferenceIssues, repairs_findExistencyIssues,
      repairs_findLogicIssues, repairs_runEntityChangeChecks.
Qed.

(** ** The consistency checker: an autofix run *)

(** C4 (as amended): an autofix run of the checker always ends, and when it
    returns, [fixedIssues] tells exactly whether some predicate scan had a
    finding or some attribute name had to be rewritten in the store it
    started from; no fixer raises, so [unrecoveredConsistencyErrors] is set
    only by the tree walk of the final store.  Each fixer repairs the
    finding it is called for: the scan no longer reports it in the store
    the fixer leaves, as long as the root note exists and is not a saved
    search.  A run on a store without findings changes nothing but the
    expansion of the root branch and an immediately following run gives the
    same flags and the same store.  A run that repaired something promises
    nothing about the next run. *)
Theorem runAllChecksAndFixers_autofix (sanitizeAttributeName : string -> string) (s : Store) :
  runAllChecksAndFixers sanitizeAttributeName true s <> OutOfFuel
  /\ (forall chk, In chk predicateChecks -> repairs chk)
  /\ forall c s',
      runAllChecksAndFixers sanitizeAttributeName true s = Return (c, s') ->
      fixedIssues c = negb (isClean sanitizeAttributeName s)
      /\ (unrecoveredConsistencyErrors c = true <-> checkTreeCycles s' = Return true)
      /\ (isClean sanitizeAttributeName s = true ->
          s' = expandRoot s
          /\ runAllChecksAndFixers sanitizeAttributeName true s' = Return (c, s')).
Proof.
  assert (Hrepairs : forall chk, In chk predicateChecks -> repairs chk)
    by exact (proj1 (List.Forall_forall repairs predicateChecks) repairs_predicateChecks).
  assert (Hrun : forall s0,
             exists s1,
               runAllChecksAndFixers sanitizeAttributeName true s0
               = (err <- checkTreeCycles (expandRoot s1) ;;
                  Return (if err
                          then setUnrecovered
                                 (mkConsistencyChecks true false
                                    (negb (isClean sanitizeAttributeName s0)))
                          else mkConsistencyChecks true false
                                 (negb (isClean sanitizeAttributeName s0)),
                          expandRoot s1))
               /\ (isClean sanitizeAttributeName s0 = true -> s1 = s0)).
  { intros s0. unfold runAllChecksAndFixers. cbv zeta.
    destruct (scans_autofix sanitizeAttributeName s0) as (c1 & s1 & E & -> & Hs).
    rewrite E. exists s1. split; [reflexivity | exact Hs]. }
  destruct (Hrun s) as (s1 & E & Hs1). rewrite E.
  pose proof (checkTreeCycles_total (expandRoot s1)) as Htotal.
  destruct (checkTreeCycles (expandRoot s1)) as [err|msg|] eqn:T; simpl.
  - split; [discriminate|]. split; [exact Hrepairs|].
    intros c s' H. injection H as <- <-.
    split; [destruct err; reflexivity|]. split.
    + rewrite T. destruct err; simpl; split; congruence.
    + intros Hclean. rewrite (Hs1 Hclean) in *. split; [reflexivity|].
      destruct (Hrun (expandRoot s)) as (s2 & E2 & Hs2). rewrite E2.
      rewrite isClean_expandRoot in *. rewrite (Hs2 Hclean).
      rewrite expandRoot_idem, T. reflexivity.
  - split; [discriminate|]. split; [exact Hrepairs|]. intros c s' H. discriminate.
  - contradiction.
Qed.

Lemma runAllChecksAndFixers_autofix_witness :
  runAllChecksAndFixers ck_sanitize true ck_clean_store
  = Return (mkConsistencyChecks true false false, expandRoot ck_clean_store)
  /\ runAllChecksAndFixers ck_sanitize true (expandRoot ck_clean_store)
     = Return (mkConsistencyChecks true false false, expandRoot ck_clean_store).
Proof.
  assert (H : runAllChecksAndFixers ck_sanitize true ck_clean_store
              = Return (mkConsistencyChecks true false false, expandRoot ck_clean_store))
    by (vm_compute; reflexivity).
  split; [exact H|].
  destruct (runAllChecksAndFixers_autofix ck_sanitize ck_clean_store) as (_ & _ & Hret).
  destruct (Hret _ _ H) as (_ & _ & Hclean).
  apply Hclean. vm_compute. reflexivity.
Defined.

(** The first autofix run moves the branch of [x] from the saved search to
    root, where [x] already is: the store it leaves has a finding, two
    branches of one note under one parent, which the scan for duplicates had
    looked for before.  The second run repairs that and reports a fix; only
    the third run has nothing to do. *)
Example runAllChecksAndFixers_second_run_repairs :
  (r1 <- runAllChecksAndFixers ck_sanitize true ck_search_store ;;
   Return (fixedIssues (fst r1), isClean ck_sanitize (snd r1)))
  = Return (true, false)
  /\ (r1 <- runAllChecksAndFixers ck_sanitize true ck_search_store ;;
      r2 <- runAllChecksAndFixers ck_sanitize true (snd r1) ;;
      Return (fixedIssues (fst r2), isClean ck_sanitize (snd r2)))
     = Return (true, true).
Proof. split; vm_compute; reflexivity. Qed.

(** A cycle of branches is found by the tree walk and by no scan, so no
    fixer sees it: every autofix run reports an unrecovered error and
    leaves the store as it is. *)
Example runAllChecksAndFixers_cycle_unrecovered :
  runAllChecksAndFixers ck_sanitize true ck_cycle_store
  = Return (mkConsistencyChecks true true false, ck_cycle_store).
Proof. vm_compute. reflexivity. Qed.

(** Without a branch of the root note the last test of the tree walk reads
    a property of [undefined]. *)
Example runAllChecksAndFixers_empty_store_raises :
  runAllChecksAndFixers ck_sanitize true (mkStore [] [] [] [] [] [] [] [] [] 0 0)
  = Throw "TypeError: childToParents['root'] is undefined".
Proof. vm_compute. reflexivity. Qed.

(** ** The consistency checker: report mode *)

Lemma reportOnly_predicateChecks : List.Forall reportOnly predicateChecks.
Proof.
  unfold predicateChecks, findEntityChangeIssues, findBrokenReferenceIssues,
    findExistencyIssues, findLogicIssues, runEntityChangeChecks.
  repeat (apply List.Forall_app; split);
    repeat apply List.Forall_cons; try apply List.Forall_nil;
    intros r s; reflexivity.
Qed.

Lemma findAndFixIssues_report (chk : Check) (c : ConsistencyChecks) (s : Store) :
  reportOnly chk -> autoFix c = false ->
  exists c',
    findAndFixIssues chk (c, s) = (c', s)
    /\ autoFix c' = false
    /\ fixedIssues c' = fixedIssues c
    /\ unrecoveredConsistencyErrors c'
       = unrecoveredConsistencyErrors c || negb (noFindings chk s).
Proof.
  intros Hchk Ha. unfold findAndFixIssues, noFindings. simpl snd.
  generalize (scan chk s). intros l. revert c Ha.
  induction l as [|r l IH]; intros c Ha.
  - exists c. simpl. rewrite orb_false_r. auto.
  - simpl fold_left. rewrite Ha, Hchk.
    destruct (IH (setUnrecovered c) Ha) as (c' & Hrun & Ha' & Hf' & Hu').
    exists c'. split; [exact Hrun|]. split; [exact Ha'|]. split; [exact Hf'|].
    rewrite Hu'. simpl. rewrite orb_true_r. reflexivity.
Qed.

Lemma runChecks_report (l : list Check) :
  List.Forall reportOnly l ->
  forall c s,
    autoFix c = false ->
    exists c',
      runChecks l (c, s) = (c', s)
      /\ autoFix c' = false
      /\ fixedIssues c' = fixedIssues c
      /\ unrecoveredConsistencyErrors c'
         = unrecoveredConsistencyErrors c
           || negb (forallb (fun chk => noFindings chk s) l).
Proof.
  induction 1 as [|chk l Hchk _ IH]; intros c s Ha.
  - exists c. simpl. rewrite orb_false_r. auto.
  - destruct (findAndFixIssues_report chk c s Hchk Ha) as (c1 & Hrun1 & Ha1 & Hf1 & Hu1).
    destruct (IH c1 s Ha1) as (c' & Hrun & Ha' & Hf' & Hu').
    exists c'. unfold runChecks in *. simpl fold_left. rewrite Hrun1.
    split; [exact Hrun|]. split; [exact Ha'|]. split; [congruence|].
    rewrite Hu', Hu1. simpl forallb. rewrite negb_andb, orb_assoc. reflexivity.
Qed.

Lemma findWronglyNamedAttributes_report (sanitizeAttributeName : string -> string)
    (c : ConsistencyChecks) (s : Store) :
  autoFix c = false ->
  exists c',
    findWronglyNamedAttributes sanitizeAttributeName (c, s) = (c', s)
    /\ autoFix c' = false
    /\ fixedIssues c' = fixedIssues c
    /\ unrecoveredConsistencyErrors c'
       = unrecoveredConsistencyErrors c || negb (namesSane sanitizeAttributeName s).
Proof.
  intros Ha. unfold findWronglyNamedAttributes, namesSane. simpl snd.
  generalize (distinct String.eqb (map name (attributes s))). intros l.
  revert c Ha. induction l as [|n l IH]; intros c Ha.
  - exists c. simpl. rewrite orb_false_r. auto.
  - simpl fold_left. simpl forallb.
    destruct (String.eqb (sanitizeAttributeName n) n) eqn:E; simpl negb.
    + destruct (IH c Ha) as (c' & Hrun & H). exists c'. simpl. auto.
    + rewrite Ha. destruct (IH (setUnrecovered c) Ha) as (c' & Hrun & Ha' & Hf' & Hu').
      exists c'. split; [exact Hrun|]. split; [exact Ha'|]. split; [exact Hf'|].
      rewrite Hu'. simpl. rewrite orb_true_r. reflexivity.
Qed.

(** X4: in report mode a run of the checker changes nothing in the store but
    the expansion of the root branch and never reports a fix; it reports an
    unrecovered error as soon as a predicate scan has a finding or an
    attribute is wrongly named, and otherwise exactly when the tree walk
    finds one. *)
Theorem runAllChecksAndFixers_report (sanitizeAttributeName : string -> string) (s : Store) :
  runAllChecksAndFixers sanitizeAttributeName false s <> OutOfFuel
  /\ forall c s',
      runAllChecksAndFixers sanitizeAttributeName false s = Return (c, s') ->
      s' = expandRoot s
      /\ fixedIssues c = false
      /\ (unrecoveredConsistencyErrors c = true <->
          isClean sanitizeAttributeName s = false
          \/ checkTreeCycles (expandRoot s) = Return true).
Proof.
  unfold runAllChecksAndFixers. cbv zeta.
  assert (Hp : forall st,
             runChecks findEntityChangeIssues
               (runChecks findLogicIssues
                  (runChecks findExistencyIssues
                     (runChecks findBrokenReferenceIssues st)))
             = runChecks predicateChecks st).
  { intros st. unfold predicateChecks. rewrite !runChecks_app. reflexivity. }
  rewrite Hp.
  destruct (runChecks_report predicateChecks reportOnly_predicateChecks
              (mkConsistencyChecks false false false) s eq_refl)
    as (c1 & -> & Ha1 & Hf1 & Hu1).
  destruct (findWronglyNamedAttributes_report sanitizeAttributeName c1 s Ha1)
    as (c2 & -> & Ha2 & Hf2 & Hu2).
  assert (Hu : unrecoveredConsistencyErrors c2 = negb (isClean sanitizeAttributeName s)).
  { rewrite Hu2, Hu1. unfold isClean. cbn [unrecoveredConsistencyErrors orb].
    rewrite negb_andb. reflexivity. }
  assert (Hf : fixedIssues c2 = false) by (rewrite Hf2, Hf1; reflexivity).
  rewrite Hu. destruct (isClean sanitizeAttributeName s) eqn:Hclean; simpl.
  - pose proof (checkTreeCycles_total (expandRoot s)) as Htotal.
    destruct (checkTreeCycles (expandRoot s)) as [err|msg|]; simpl.
    + split; [discriminate|]. intros c s' H. injection H as <- <-.
      split; [reflexivity|]. split; [destruct err; exact Hf|].
      destruct err; simpl.
      * split; [intros _; right; reflexivity | reflexivity].
      * rewrite Hu. simpl. split; [discriminate | intros [H | H]; discriminate].
    + split; discriminate.
    + contradiction.
  - split; [discriminate|]. intros c s' H. injection H as <- <-.
    split; [reflexivity|]. split; [exact Hf|]. rewrite Hu. simpl. tauto.
Qed.

(** ** Erasure *)

Lemma existsb_eqb_In (x : string) (l : list string) :
  existsb (String.eqb x) l = true <-> In x l.
Proof.
  rewrite existsb_exists. split.
  - intros (y & Hy & E). apply String.eqb_eq in E. subst. exact Hy.
  - intros H. exists x. split; [exact H | apply String.eqb_refl].
Qed.

Lemma existsb_eqb_not_In (x : string) (l : list string) :
  negb (existsb (String.eqb x) l) = true <-> ~ In x l.
Proof.
  rewrite negb_true_iff, <- not_true_iff_false, existsb_eqb_In. reflexivity.
Qed.

Lemma store_eta (s : Store) :
  mkStore (notes s) (note_contents s) (branches s) (attributes s) (note_revisions s)
    (note_revision_contents s) (api_tokens s) (options s) (entity_changes s) (idSeed s)
    (progressCount s) = s.
Proof. destruct s. reflexivity. Qed.

Lemma markErased_nil (en : string) (s : Store) : markErased en [] s = s.
Proof.
  unfold markErased, setEntityChanges. simpl.
  rewrite (map_ext _ (fun e => e)), map_id; [apply store_eta|].
  intros e. rewrite andb_false_r. reflexivity.
Qed.

Lemma eraseBranches_unfold (ids : list string) (s : Store) :
  eraseBranches ids s
  = markErased "branches" ids
      (setBranches (List.filter (fun b => negb (existsb (String.eqb (branchId b)) ids))) s).
Proof.
  destruct ids as [|id ids]; [|reflexivity].
  simpl. rewrite markErased_nil. unfold setBranches.
  rewrite filter_all by reflexivity. symmetry. apply store_eta.
Qed.

Lemma eraseAttributes_unfold (ids : list string) (s : Store) :
  eraseAttributes ids s
  = markErased "attributes" ids
      (setAttributes (List.filter (fun a => negb (existsb (String.eqb (attributeId a)) ids))) s).
Proof.
  destruct ids as [|id ids]; [|reflexivity].
  simpl. rewrite markErased_nil. unfold setAttributes.
  rewrite filter_all by reflexivity. symmetry. apply store_eta.
Qed.

Lemma eraseNoteRevisions_tables (ids : list string) (s : Store) :
  notes (eraseNoteRevisions ids s) = notes s
  /\ note_contents (eraseNoteRevisions ids s) = note_contents s
  /\ branches (eraseNoteRevisions ids s) = branches s
  /\ attributes (eraseNoteRevisions ids s) = attributes s
  /\ note_revisions (eraseNoteRevisions ids s)
     = List.filter (fun r => negb (existsb (String.eqb (noteRevisionId r)) ids))
         (note_revisions s).
Proof.
  unfold eraseNoteRevisions. revert s. induction ids as [|id ids IH]; intros s; simpl.
  - repeat split. symmetry. apply filter_all. reflexivity.
  - destruct (IH (eraseNoteRevision id s)) as (H1 & H2 & H3 & H4 & H5).
    rewrite H1, H2, H3, H4, H5. repeat split.
    simpl. rewrite filter_filter_and. apply List.filter_ext. intros r.
    rewrite negb_orb. reflexivity.
Qed.

(** The rows that [eraseNotes] leaves. *)
Lemma eraseNotes_tables (ids : list string) (s : Store) :
  notes (eraseNotes ids s)
  = List.filter (fun n => negb (existsb (String.eqb (noteId n)) ids)) (notes s)
  /\ note_contents (eraseNotes ids s)
     = List.filter (fun r => negb (existsb (String.eqb (fst r)) ids)) (note_contents s)
  /\ branches (eraseNotes ids s)
     = List.filter
         (fun b => negb (existsb (String.eqb (branchId b))
                           (map branchId
                              (List.filter (fun b0 => existsb (String.eqb (b_noteId b0)) ids)
                                 (branches s)))))
         (branches s)
  /\ attributes (eraseNotes ids s)
     = List.filter
         (fun a => negb (existsb (String.eqb (attributeId a))
                           (map attributeId
                              (List.filter (fun a0 => existsb (String.eqb (a_noteId a0)) ids)
                                 (attributes s)))))
         (attributes s)
  /\ note_revisions (eraseNotes ids s)
     = List.filter
         (fun r => negb (existsb (String.eqb (noteRevisionId r))
                           (map noteRevisionId
                              (List.filter (fun r0 => existsb (String.eqb (r_noteId r0)) ids)
                                 (note_revisions s)))))
         (note_revisions s).
Proof.
  destruct ids as [|id ids].
  - simpl. repeat split; symmetry; apply filter_all; intros x _; try reflexivity;
      rewrite filter_none by reflexivity; reflexivity.
  - unfold eraseNotes. cbv zeta.
    match goal with
    | |- context [eraseNoteRevisions ?K ?s0] =>
      destruct (eraseNoteRevisions_tables K s0) as (H1 & H2 & H3 & H4 & H5)
    end.
    rewrite H1, H2, H3, H4, H5. rewrite !eraseAttributes_unfold, !eraseBranches_unfold.
    repeat split.
Qed.

(** X5: [eraseNotes] leaves no row of the erased notes in [notes],
    [note_contents], [branches], [attributes] (by owner) and
    [note_revisions], and removes nothing else from [notes] and
    [note_contents]; with unique keys every branch and every attribute of
    another note stays, also a branch placed under an erased note and a
    relation that targets one. *)
Theorem eraseNotes_rows (ids : list string) (s : Store) :
  (forall n, In n (notes (eraseNotes ids s)) <-> In n (notes s) /\ ~ In (noteId n) ids)
  /\ (forall r, In r (note_contents (eraseNotes ids s))
                <-> In r (note_contents s) /\ ~ In (fst r) ids)
  /\ (forall b, In b (branches (eraseNotes ids s)) ->
                In b (branches s) /\ ~ In (b_noteId b) ids)
  /\ (forall a, In a (attributes (eraseNotes ids s)) ->
                In a (attributes s) /\ ~ In (a_noteId a) ids)
  /\ (forall r, In r (note_revisions (eraseNotes ids s)) ->
                In r (note_revisions s) /\ ~ In (r_noteId r) ids)
  /\ (uniqueKeys s ->
      (forall b, In b (branches s) -> ~ In (b_noteId b) ids ->
                 In b (branches (eraseNotes ids s)))
      /\ (forall a, In a (attributes s) -> ~ In (a_noteId a) ids ->
                    In a (attributes (eraseNotes ids s)))).
Proof.
  destruct (eraseNotes_tables ids s) as (Hn & Hc & Hb & Ha & Hr).
  rewrite Hn, Hc, Hb, Ha, Hr. clear Hn Hc Hb Ha Hr.
  split; [|split; [|split; [|split; [|split]]]].
  - intros n. rewrite List.filter_In, existsb_eqb_not_In. reflexivity.
  - intros r. rewrite List.filter_In, existsb_eqb_not_In. reflexivity.
  - intros b Hb. apply List.filter_In in Hb as [Hin Hk]. split; [exact Hin|].
    intros Hids. apply existsb_eqb_not_In in Hk. apply Hk.
    apply in_map. apply List.filter_In. split; [exact Hin|]. apply existsb_eqb_In, Hids.
  - intros a Ha. apply List.filter_In in Ha as [Hin Hk]. split; [exact Hin|].
    intros Hids. apply existsb_eqb_not_In in Hk. apply Hk.
    apply in_map. apply List.filter_In. split; [exact Hin|]. apply existsb_eqb_In, Hids.
  - intros r Hr. apply List.filter_In in Hr as [Hin Hk]. split; [exact Hin|].
    intros Hids. apply existsb_eqb_not_In in Hk. apply Hk.
    apply in_map. apply List.filter_In. split; [exact Hin|]. apply existsb_eqb_In, Hids.
  - intros (Hkb & _ & Hka). split.
    + intros b Hin Hids. apply List.filter_In. split; [exact Hin|].
      apply existsb_eqb_not_In. intros Hk.
      apply in_map_iff in Hk as (b0 & Hid & Hb0). apply List.filter_In in Hb0 as [Hin0 Hids0].
      apply existsb_eqb_In in Hids0.
      assert (b0 = b) by (apply (NoDup_key_inj branchId (branches s)); auto).
      subst b0. contradiction.
    + intros a Hin Hids. apply List.filter_In. split; [exact Hin|].
      apply existsb_eqb_not_In. intros Hk.
      apply in_map_iff in Hk as (a0 & Hid & Ha0). apply List.filter_In in Ha0 as [Hin0 Hids0].
      apply existsb_eqb_In in Hids0.
      assert (a0 = a) by (apply (NoDup_key_inj attributeId (attributes s)); auto).
      subst a0. contradiction.
Qed.

(** *** Erasure and the change journal *)

Lemma sameRecords_refl (s : Store) : sameRecords s s.
Proof. exists (fun e => e). split; [symmetry; apply map_id | auto]. Qed.

Lemma sameRecords_trans (s1 s2 s3 : Store) :
  sameRecords s1 s2 -> sameRecords s2 s3 -> sameRecords s1 s3.
Proof.
  intros (f & Hf & Pf) (g & Hg & Pg). exists (fun e => g (f e)). split.
  - rewrite Hg, Hf, map_map. reflexivity.
  - intros e. destruct (Pf e) as (F1 & F2 & F3 & F4), (Pg (f e)) as (G1 & G2 & G3 & G4).
    split; [congruence|]. split; [congruence|]. split.
    + intros H. apply G3, F3, H.
    + intros H. pose proof (G4 H) as E. rewrite E in H. rewrite E. apply F4, H.
Qed.

Lemma sameRecords_in (s s' : Store) (e' : EntityChange) :
  sameRecords s s' -> In e' (entity_changes s') ->
  exists e, In e (entity_changes s)
            /\ entityName e' = entityName e /\ entityId e' = entityId e
            /\ (isErased e = true -> isErased e' = true)
            /\ (isErased e' = false -> e' = e).
Proof.
  intros (f & Hf & Pf) Hin. rewrite Hf in Hin. apply in_map_iff in Hin as (e & <- & He).
  exists e. destruct (Pf e) as (F1 & F2 & F3 & F4). auto.
Qed.

Lemma Erases_refl (s : Store) : Erases s s.
Proof.
  split; [apply sameRecords_refl|]. split; [auto|]. intros en id H Hn. contradiction.
Qed.

Lemma Erases_trans (s1 s2 s3 : Store) : Erases s1 s2 -> Erases s2 s3 -> Erases s1 s3.
Proof.
  intros (R12 & K12 & E12) (R23 & K23 & E23).
  split; [exact (sameRecords_trans _ _ _ R12 R23)|]. split; [auto|].
  intros en id H1 H3 e He Hname Hid.
  destruct (in_dec string_dec id (tableKeys en s2)) as [H2 | H2].
  - apply (E23 en id H2 H3 e He Hname Hid).
  - destruct (sameRecords_in _ _ e R23 He) as (e2 & He2 & N & I & Hmono & _).
    apply Hmono. apply (E12 en id H1 H2 e2 He2); congruence.
Qed.

Lemma tableKeys_setEntityChanges (en : string)
    (f : list EntityChange -> list EntityChange) (s : Store) :
  tableKeys en (setEntityChanges f s) = tableKeys en s.
Proof. reflexivity. Qed.

(** One [DELETE] with the [UPDATE] of the journal that follows it. *)
Lemma Erases_step (en0 : string) (K : list string) (s s1 : Store) :
  entity_changes s1 = entity_changes s ->
  (forall en id, In id (tableKeys en s1) -> In id (tableKeys en s)) ->
  (forall en id, In id (tableKeys en s) -> ~ In id (tableKeys en s1) -> en = en0 /\ In id K) ->
  Erases s (markErased en0 K s1).
Proof.
  intros Hj Hsub Hrem. split; [|split].
  - eexists. split; [unfold markErased; simpl; rewrite Hj; reflexivity|].
    intros e. simpl.
    destruct (String.eqb (entityName e) en0 && existsb (String.eqb (entityId e)) K);
      simpl; repeat split; auto; discriminate.
  - intros en id. unfold markErased. rewrite tableKeys_setEntityChanges. apply Hsub.
  - intros en id H Hn e He Hname Hid.
    unfold markErased in Hn, He. rewrite tableKeys_setEntityChanges in Hn.
    destruct (Hrem en id H Hn) as [-> HK].
    simpl in He. apply in_map_iff in He as (e0 & <- & _).
    destruct (String.eqb (entityName e0) en0 && existsb (String.eqb (entityId e0)) K) eqn:C;
      [reflexivity|].
    simpl in Hname, Hid. rewrite Hname, Hid, String.eqb_refl in C. simpl in C.
    apply existsb_eqb_In in HK. congruence.
Qed.

Ltac table_cases en :=
  unfold tableKeys;
  repeat match goal with
         | |- context [if String.eqb en ?x then _ else _] =>
           let E := fresh "E" in destruct (String.eqb en x) eqn:E
         | H : context [if String.eqb en ?x then _ else _] |- _ =>
           let E := fresh "E" in destruct (String.eqb en x) eqn:E
         end.

Lemma In_map_filter {A} (key : A -> string) (p : A -> bool) (l : list A) (id : string) :
  In id (map key (List.filter p l)) -> In id (map key l).
Proof.
  intros H. apply in_map_iff in H as (x & <- & Hx). apply List.filter_In in Hx as [Hx _].
  apply in_map. exact Hx.
Qed.

Lemma removed_key {A} (key : A -> string) (K : list string) (l : list A) (id : string) :
  In id (map key l) ->
  ~ In id (map key (List.filter (fun x => negb (existsb (String.eqb (key x)) K)) l)) ->
  In id K.
Proof.
  intros H Hn. apply in_map_iff in H as (x & <- & Hx).
  destruct (in_dec string_dec (key x) K) as [HK | HK]; [exact HK|].
  exfalso. apply Hn. apply in_map. apply List.filter_In. split; [exact Hx|].
  apply existsb_eqb_not_In. exact HK.
Qed.

Lemma Erases_notes (K : list string) (s : Store) :
  Erases s (markErased "notes" K
              (setNotes (List.filter (fun n => negb (existsb (String.eqb (noteId n)) K))) s)).
Proof.
  apply Erases_step; [reflexivity| |].
  - intros en id. table_cases en; simpl; auto. apply In_map_filter.
  - intros en id. table_cases en; simpl; intros H Hn; try contradiction.
    apply String.eqb_eq in E. split; [exact E|]. apply (removed_key noteId K (notes s)); auto.
Qed.

Lemma Erases_note_contents (K : list string) (s : Store) :
  Erases s (markErased "note_contents" K
              (setNoteContents (List.filter (fun r => negb (existsb (String.eqb (fst r)) K))) s)).
Proof.
  apply Erases_step; [reflexivity| |].
  - intros en id. table_cases en; simpl; auto. apply In_map_filter.
  - intros en id. table_cases en; simpl; intros H Hn; try contradiction.
    apply String.eqb_eq in E0. split; [exact E0|].
    apply (removed_key fst K (note_contents s)); auto.
Qed.

Lemma Erases_eraseBranches (K : list string) (s : Store) : Erases s (eraseBranches K s).
Proof.
  rewrite eraseBranches_unfold. apply Erases_step; [reflexivity| |].
  - intros en id. table_cases en; simpl; auto. apply In_map_filter.
  - intros en id. table_cases en; simpl; intros H Hn; try contradiction.
    apply String.eqb_eq in E2. split; [exact E2|].
    apply (removed_key branchId K (branches s)); auto.
Qed.

Lemma Erases_eraseAttributes (K : list string) (s : Store) : Erases s (eraseAttributes K s).
Proof.
  rewrite eraseAttributes_unfold. apply Erases_step; [reflexivity| |].
  - intros en id. table_cases en; simpl; auto. apply In_map_filter.
  - intros en id. table_cases en; simpl; intros H Hn; try contradiction.
    apply String.eqb_eq in E3. split; [exact E3|].
    apply (removed_key attributeId K (attributes s)); auto.
Qed.

Lemma Erases_eraseNoteRevision (id : string) (s : Store) : Erases s (eraseNoteRevision id s).
Proof.
  split; [|split].
  - eexists. split; [reflexivity|]. intros e. simpl.
    destruct ((String.eqb (entityName e) "note_revisions"
               || String.eqb (entityName e) "note_revision_contents")
              && String.eqb (entityId e) id); simpl; repeat split; auto; discriminate.
  - intros en id0. unfold eraseNoteRevision. rewrite tableKeys_setEntityChanges.
    table_cases en; simpl; auto. apply In_map_filter.
  - intros en id0 H Hn e He Hname Hid. unfold eraseNoteRevision in Hn, He.
    rewrite tableKeys_setEntityChanges in Hn.
    assert (Hrem : en = "note_revisions" /\ id0 = id).
    { revert H Hn. table_cases en; simpl; intros H Hn; try contradiction.
      apply String.eqb_eq in E1. split; [exact E1|].
      apply in_map_iff in H as (r & <- & Hr).
      destruct (String.eqb (noteRevisionId r) id) eqn:K; [apply String.eqb_eq, K|].
      exfalso. apply Hn. apply in_map. apply List.filter_In. rewrite K. auto. }
    destruct Hrem as [-> ->]. simpl in He. apply in_map_iff in He as (e0 & <- & _).
    destruct ((String.eqb (entityName e0) "note_revisions"
               || String.eqb (entityName e0) "note_revision_contents")
              && String.eqb (entityId e0) id) eqn:C; [reflexivity|].
    simpl in Hname, Hid. rewrite Hname, Hid, !String.eqb_refl in C. discriminate.
Qed.

Lemma Erases_eraseNoteRevisions (K : list string) (s : Store) :
  Erases s (eraseNoteRevisions K s).
Proof.
  unfold eraseNoteRevisions. revert s. induction K as [|id K IH]; intros s; simpl.
  - apply Erases_refl.
  - eapply Erases_trans; [apply Erases_eraseNoteRevision | apply IH].
Qed.

Lemma Erases_eraseNotes (ids : list string) (s : Store) : Erases s (eraseNotes ids s).
Proof.
  destruct ids as [|id ids]; [apply Erases_refl|].
  unfold eraseNotes. cbv zeta.
  eapply Erases_trans; [|apply Erases_eraseNoteRevisions].
  eapply Erases_trans; [|apply Erases_eraseAttributes].
  eapply Erases_trans; [|apply Erases_eraseBranches].
  eapply Erases_trans; [apply Erases_notes | apply Erases_note_contents].
Qed.

Lemma Erases_eraseDeletedEntities (session : Session) (noteModified : Note -> Z)
    (branchModified : Branch -> Z) (attributeModified : Attribute -> Z) (retention : Z)
    (t : option Z) (s : Store) :
  Erases s (eraseDeletedEntities session noteModified branchModified attributeModified
              retention t s).
Proof.
  unfold eraseDeletedEntities. cbv zeta.
  eapply Erases_trans; [|apply Erases_eraseAttributes].
  eapply Erases_trans; [|apply Erases_eraseBranches].
  apply Erases_eraseNotes.
Qed.

Lemma Erases_journal (s s' : Store) :
  Erases s s' ->
  map (fun e => (entityName e, entityId e)) (entity_changes s')
  = map (fun e => (entityName e, entityId e)) (entity_changes s)
  /\ forall en id, In id (strayChanges en s') -> In id (strayChanges en s).
Proof.
  intros (R & Hsub & Hrem). split.
  - destruct R as (f & -> & Pf). rewrite map_map. apply map_ext.
    intros e. destruct (Pf e) as (-> & -> & _). reflexivity.
  - intros en id H. unfold strayChanges in *.
    apply in_map_iff in H as (e' & <- & He'). apply List.filter_In in He' as [Hin Hp].
    apply andb_prop in Hp as [Hp Hkeys]. apply andb_prop in Hp as [Herased Hname].
    apply negb_true_iff in Herased. apply String.eqb_eq in Hname.
    apply existsb_eqb_not_In in Hkeys.
    destruct (sameRecords_in _ _ e' R Hin) as (e & He & _ & _ & _ & Hsame).
    specialize (Hsame Herased). subst e.
    apply in_map. apply List.filter_In. split; [exact He|].
    rewrite Herased, Hname, String.eqb_refl. simpl.
    apply existsb_eqb_not_In. intros Hk.
    pose proof (Hrem en (entityId e') Hk Hkeys e' Hin Hname eq_refl). congruence.
Qed.

(** X6: erasure (of given notes, or the sweep of soft-deleted rows) never
    removes a record of the change journal and never changes its entity
    name or id, it only flags records as erased; and it leaves no record
    that the checker would report as stray: a stray record of any table
    after the erasure was one before. *)
Theorem erasure_journal (session : Session) (noteModified : Note -> Z)
    (branchModified : Branch -> Z) (attributeModified : Attribute -> Z) (retention : Z)
    (t : option Z) (ids : list string) (s : Store) :
  let swept := eraseDeletedEntities session noteModified branchModified attributeModified
                 retention t s in
  (map (fun e => (entityName e, entityId e)) (entity_changes (eraseNotes ids s))
   = map (fun e => (entityName e, entityId e)) (entity_changes s)
   /\ forall en id, In id (strayChanges en (eraseNotes ids s)) -> In id (strayChanges en s))
  /\ (map (fun e => (entityName e, entityId e)) (entity_changes swept)
      = map (fun e => (entityName e, entityId e)) (entity_changes s)
      /\ forall en id, In id (strayChanges en swept) -> In id (strayChanges en s)).
Proof.
  split.
  - apply Erases_journal, Erases_eraseNotes.
  - apply Erases_journal, Erases_eraseDeletedEntities.
Qed.

(** [strayChanges] is the scan of the checker. *)
Lemma strayChanges_scan (en : string) :
  exists fx, nth_error (runEntityChangeChecks en) 1 = Some (mkCheck string (strayChanges en) fx).
Proof. eexists. reflexivity. Qed.

(** *** The sweep of soft-deleted rows *)

Section Sweep.

Variable session : Session.
Variable noteModified : Note -> Z.
Variable branchModified : Branch -> Z.
Variable attributeModified : Attribute -> Z.
Variable retention : Z.
Variable t : option Z.
Variable s : Store.

Let cutoffDate : Z :=
  now session - match t with None => retention | Some t' => t' end * 1000.

Let noteIdsToErase : list string :=
  map noteId (List.filter (fun n => n_isDeleted n && (noteModified n <=? cutoffDate)) (notes s)).

Let s1 : Store := eraseNotes noteIdsToErase s.

Let branchIdsToErase : list string :=
  map branchId
    (List.filter (fun b => b_isDeleted b && (branchModified b <=? cutoffDate)) (branches s1)).

Let attributeIdsToErase : list string :=
  map attributeId
    (List.filter (fun a => a_isDeleted a && (attributeModified a <=? cutoffDate))
       (attributes s1)).

Let swept : Store :=
  eraseDeletedEntities session noteModified branchModified attributeModified retention t s.



End Sweep.


(** ** The tree walk of the checker: what a clean answer means *)













Section Walk.

Variable m : ChildToParents.












End Walk.










(** A note whose id is [constructor] makes the walk raise on a store in
    which root has its branch. *)
Example checkTreeCycles_constructor_raises :
  checkTreeCycles
    (mkStore [] []
       [mkBranch "root" "root" "none" 0 "" true false None;
        mkBranch "b1" "constructor" "root" 10 "" false false None]
       [] [] [] [] [] [] 0 0)
  = Throw "TypeError: childToParents[childNoteId].push is not a function".
Proof. reflexivity. Qed.

(** A branch that places a note under [hasOwnProperty] makes it raise too,
    while a parent [toString], found as a function of length 0, counts as
    a note without parents. *)
Example checkTreeCycles_parent_member :
  checkTreeCycles
    (mkStore [] []
       [mkBranch "root" "root" "none" 0 "" true false None;
        mkBranch "b1" "a" "hasOwnProperty" 10 "" false false None]
       [] [] [] [] [] [] 0 0)
  = Throw "TypeError: childToParents[noteId] is not iterable"
  /\ checkTreeCycles
       (mkStore [] []
          [mkBranch "root" "root" "none" 0 "" true false None;
           mkBranch "b1" "a" "toString" 10 "" false false None]
          [] [] [] [] [] [] 0 0)
     = Return true.
Proof. split; reflexivity. Qed.

(** ** createNewNoteWithTarget: a note placed after another *)









(** ** copyChildAttributes *)

(** Saving a row under an identifier that was just generated adds the row
    and keeps the others. *)
Lemma saveAttribute_fresh (s : Store) (x : Attribute) :
  attributeIdsFresh s -> attributeId x = genId (idSeed s) ->
  let s' := saveAttribute x (setIdSeed (S (idSeed s)) s) in
  attributeIdsFresh s'
  /\ (forall a, In a (attributes s') <-> a = x \/ In a (attributes s)).
Proof.
  intros Hfresh Hid s'. split.
  - intros a k Hin Hk. simpl in Hin, Hk. apply in_upsert in Hin as [-> | [Hin _]].
    + rewrite Hid. intros E. apply genId_inj in E. lia.
    + apply Hfresh; [exact Hin | lia].
  - intros a. simpl. rewrite in_upsert. split; [tauto|].
    intros [-> | Hin]; [auto|]. right. split; [exact Hin|].
    apply String.eqb_neq. rewrite Hid. apply (Hfresh a (idSeed s) Hin). lia.
Qed.

Lemma substr_child (x : string) : substr 6 ("child:" ++ x) = x.
Proof. reflexivity. Qed.

Section ChildAttributes.

Variable getAttributes : Note -> Store -> list Attribute.
Variable parentNote childNote : Note.



End ChildAttributes.



(** ** saveLinks: the relations of a note follow the links of its content *)

Lemma NoDup_key_eq {A} (key : A -> string) (l : list A) (x y : A) :
  List.NoDup (map key l) -> In x l -> In y l -> key x = key y -> x = y.
Proof.
  induction l as [|z l IH]; simpl; [intros _ []|].
  intros Hnd Hx Hy Hk. inversion Hnd as [|k ks Hnotin Hnd']; subst.
  destruct Hx as [Hx | Hx], Hy as [Hy | Hy].
  - congruence.
  - exfalso. apply Hnotin. rewrite Hx, Hk. now apply in_map.
  - exfalso. apply Hnotin. rewrite Hy, <- Hk. now apply in_map.
  - now apply IH.
Qed.

Lemma NoDup_snoc (l : list string) (k : string) :
  List.NoDup l -> ~ In k l -> List.NoDup (l ++ [k]).
Proof.
  induction l as [|z l IH]; simpl; intros Hnd Hk.
  - constructor; [intros []| constructor].
  - inversion Hnd as [|z' l' Hz Hnd']; subst. constructor.
    + rewrite in_app_iff. intros [H | [H | []]]; [now apply Hz|].
      apply Hk. left. symmetry. exact H.
    + apply IH; [exact Hnd'|]. intros H. apply Hk. right. exact H.
Qed.

(** A save keeps the primary keys of a table unique. *)
Lemma NoDup_upsert {A} (key : A -> string) (x : A) (l : list A) :
  List.NoDup (map key l) -> List.NoDup (map key (upsert key x l)).
Proof.
  intros Hnd. unfold upsert.
  destruct (existsb (fun y => String.eqb (key y) (key x)) l) eqn:E.
  - rewrite map_map.
    rewrite (map_ext (fun y => key (if String.eqb (key y) (key x) then x else y)) key);
      [exact Hnd|].
    intros y. destruct (String.eqb (key y) (key x)) eqn:K; [|reflexivity].
    symmetry. now apply String.eqb_eq.
  - rewrite map_app. simpl. apply NoDup_snoc; [exact Hnd|].
    intros Hin. apply in_map_iff in Hin as (y & Hy & Hin).
    assert (existsb (fun y => String.eqb (key y) (key x)) l = true); [|congruence].
    apply existsb_exists. exists y. split; [exact Hin|]. now apply String.eqb_eq.
Qed.

(** [replaceFirst] for the element that [find] returned, in a list
    without two rows of one key. *)
Lemma replaceFirst_keys {A} (key : A -> string) (p : A -> bool) (x e : A) (l : list A) :
  List.find p l = Some e -> key x = key e ->
  map key (replaceFirst p x l) = map key l.
Proof.
  intros Hf Hk. induction l as [|z l IH]; [reflexivity|].
  simpl in *. destruct (p z).
  - injection Hf as ->. simpl. now rewrite Hk.
  - simpl. f_equal. now apply IH.
Qed.

Lemma in_replaceFirst {A} (key : A -> string) (p : A -> bool) (x e : A) (l : list A) :
  List.find p l = Some e -> List.NoDup (map key l) ->
  forall y, In y (replaceFirst p x l) <-> y = x \/ (In y l /\ key y <> key e).
Proof.
  induction l as [|z l IH]; [discriminate|].
  simpl. intros Hf Hnd y. inversion Hnd as [|k ks Hz Hnd']; subst.
  destruct (p z).
  - injection Hf as ->. simpl. split.
    + intros [<- | Hin]; [left; reflexivity|]. right. split; [right; exact Hin|].
      intros Hk. apply Hz. rewrite <- Hk. now apply in_map.
    + intros [-> | [[<- | Hin] Hk]]; [left; reflexivity | | right; exact Hin].
      now elim Hk.
  - simpl. rewrite (IH Hf Hnd' y). split.
    + intros [<- | [-> | [Hin Hk]]].
      * right. split; [left; reflexivity|]. intros Hk. apply Hz. rewrite Hk.
        apply in_map. now apply find_some in Hf.
      * left; reflexivity.
      * right. split; [right; exact Hin | exact Hk].
    + intros [-> | [[<- | Hin] Hk]].
      * right; left; reflexivity.
      * left; reflexivity.
      * right; right. split; [exact Hin | exact Hk].
Qed.

Lemma linkMatches_undeleted (l : Link) (e : Attribute) :
  linkMatches l (undeletedAttribute e) = linkMatches l e.
Proof. reflexivity. Qed.

Lemma found_match (foundLinks : list Link) (l : Link) (e : Attribute) :
  In l foundLinks -> linkMatches l e = true ->
  negb (existsb (fun foundLink => linkMatches foundLink e) foundLinks) = false.
Proof.
  intros Hin Hm. apply negb_false_iff, existsb_exists. exists l. split; assumption.
Qed.

(** The loop that marks the unused links. *)
Lemma mark_loop (us : list Attribute) : forall s1,
  List.NoDup (map attributeId us) ->
  let s2 := fold_left (fun s u => saveAttribute (markAttributeDeleted u) s) us s1 in
  (notes s2 = notes s1 /\ branches s2 = branches s1 /\ note_contents s2 = note_contents s1)
  /\ (List.NoDup (map attributeId (attributes s1)) ->
      List.NoDup (map attributeId (attributes s2)))
  /\ forall a, In a (attributes s2) <->
               (exists u, In u us /\ a = markAttributeDeleted u)
               \/ (In a (attributes s1) /\ forall u, In u us -> attributeId u <> attributeId a).
Proof.
  induction us as [|u us IH]; intros s1 Hnd.
  - simpl. split; [auto|]. split; [auto|]. intros a. split.
    + intros Hin. right. split; [exact Hin | intros u []].
    + intros [(u & [] & _) | [Hin _]]. exact Hin.
  - cbn [fold_left]. simpl in Hnd. inversion Hnd as [|k ks Hu Hnd']; subst.
    destruct (IH (saveAttribute (markAttributeDeleted u) s1) Hnd') as ((Hn & Hb & Hc) & Hk & Hrows).
    split; [|split].
    + rewrite Hn, Hb, Hc. repeat split.
    + intros H1. apply Hk. simpl. apply NoDup_upsert. exact H1.
    + intros a. rewrite Hrows. simpl. rewrite in_upsert. split.
      * intros [(u' & Hin & ->) | [[-> | [Hin Hne]] Hothers]].
        -- left. exists u'. split; [right; exact Hin | reflexivity].
        -- left. exists u. split; [left; reflexivity | reflexivity].
        -- right. split; [exact Hin|]. intros u' [<- | Hin'].
           ++ intros E. simpl in Hne. rewrite E, String.eqb_refl in Hne. discriminate.
           ++ now apply Hothers.
      * intros [(u' & [<- | Hin] & ->) | [Hin Hothers]].
        -- right. split; [left; reflexivity|]. intros u' Hin' E. apply Hu.
           simpl in E. rewrite <- E. now apply in_map.
        -- left. exists u'. split; [exact Hin | reflexivity].
        -- right. split.
           ++ right. split; [exact Hin|]. apply String.eqb_neq. simpl.
              intros E. apply (Hothers u); [left; reflexivity | now symmetry].
           ++ intros u' Hin'. apply Hothers. right. exact Hin'.
Qed.

Lemma NoDup_map_filter {A} (key : A -> string) (p : A -> bool) (l : list A) :
  List.NoDup (map key l) -> List.NoDup (map key (List.filter p l)).
Proof.
  induction l as [|z l IH]; simpl; intros Hnd; [constructor|].
  inversion Hnd as [|k ks Hz Hnd']; subst.
  destruct (p z); [|now apply IH]. simpl. constructor; [|now apply IH].
  intros Hin. apply Hz. apply in_map_iff in Hin as (y & Hy & Hin).
  apply List.filter_In in Hin as [Hin _]. rewrite <- Hy. now apply in_map.
Qed.

Section Links.

Variable newAttributePosition : string -> Store -> Z.
Variable note : Note.
Variable foundLinks : list Link.
Variable s : Store.
Variable links0 : list Attribute.

Local Abbreviation Inv := (linksInv note foundLinks s links0).
Local Abbreviation step := (saveFoundLink newAttributePosition note).

(** One found link: the loop state stays as [linksInv] describes it. *)
Lemma saveFoundLink_inv (st : list Attribute * Store) (l : Link) :
  In l foundLinks -> Inv st -> Inv (step st l).
Proof.
  destruct st as [ex si]. intros Hl HI. unfold saveFoundLink.
  destruct (getNote (l_value l) si) as [target|] eqn:Ht; [|exact HI].
  destruct (n_isDeleted target) eqn:Hd; [exact HI|].
  destruct HI as ((Hn & Hb & Hc) & Hfresh & Hnd & Hndex & Hex & Hkeep & Hl0 & Hprov & Hrows).
  destruct (List.find (linkMatches l) ex) as [e|] eqn:Hf.
  - destruct (a_isDeleted e) eqn:He;
      [|exact (conj (conj Hn (conj Hb Hc))
                 (conj Hfresh (conj Hnd (conj Hndex (conj Hex (conj Hkeep
                    (conj Hl0 (conj Hprov Hrows))))))))].
    pose proof (find_some _ _ Hf) as [Hine Hme].
    assert (He0 : In e links0).
    { destruct (Hprov e Hine) as [H | [[H _] | [H _]]];
        [exact H | congruence | congruence]. }
    pose proof (in_replaceFirst attributeId (linkMatches l) (undeletedAttribute e) e ex
                  Hf Hndex) as Hrep.
    unfold linksInv.
    split; [simpl; auto|].
    split.
    { intros a k Hin Hk. simpl in Hin, Hk. apply in_upsert in Hin as [-> | [Hin _]].
      - simpl. exact (Hfresh e k (Hex e Hine) Hk).
      - exact (Hfresh a k Hin Hk). }
    split; [simpl; apply NoDup_upsert; exact Hnd|].
    split.
    { rewrite (replaceFirst_keys attributeId _ _ e); [exact Hndex | exact Hf | reflexivity]. }
    split.
    { intros x Hx. simpl. apply in_upsert. apply Hrep in Hx as [-> | [Hx Hk]].
      - left; reflexivity.
      - right. split; [apply Hex, Hx|]. apply String.eqb_neq. exact Hk. }
    split.
    { intros a Ha Hno. simpl. apply in_upsert. right. split; [apply Hkeep; assumption|].
      apply String.eqb_neq. simpl. intros E. apply (Hno e He0). symmetry. exact E. }
    split.
    { intros e0 He0'. destruct (Hl0 e0 He0') as [Hin | [Hin Hm]].
      - destruct (String.eqb (attributeId e0) (attributeId e)) eqn:K.
        + apply String.eqb_eq in K.
          assert (e0 = e) by (apply (NoDup_key_eq attributeId ex); assumption).
          subst e0. right. split; [apply Hrep; left; reflexivity|].
          exists l. split; assumption.
        + left. apply Hrep. right. split; [exact Hin|]. now apply String.eqb_neq.
      - right. split; [|exact Hm]. apply Hrep. right. split; [exact Hin|].
        intros E.
        assert (undeletedAttribute e0 = e)
          by (apply (NoDup_key_eq attributeId ex); assumption).
        subst e. simpl in He. discriminate. }
    split.
    { intros x Hx. apply Hrep in Hx as [-> | [Hx Hk]].
      - right; left. split; [reflexivity|]. exists e. split; [exact He0|].
        split; [reflexivity|]. exists l. split; [exact Hl | exact Hme].
      - apply Hprov, Hx. }
    intros a Ha. simpl in Ha. apply in_upsert in Ha as [-> | [Ha K]].
    + right. apply Hrep. left; reflexivity.
    + destruct (Hrows a Ha) as [H | H]; [left; exact H|]. right. apply Hrep. right.
      split; [exact H|]. apply String.eqb_neq in K. exact K.
  - rewrite newEntityId_genId. cbv beta iota.
    set (s1 := setIdSeed (S (idSeed si)) si).
    set (newLink := mkAttribute (genId (idSeed si)) (noteId note) "relation" (l_name l)
                      (l_value l) (newAttributePosition (noteId note) s1) false false None).
    destruct (saveAttribute_fresh si newLink Hfresh eq_refl) as [Hfresh' Hrows'].
    fold s1 in Hfresh', Hrows'.
    unfold linksInv.
    split; [simpl; auto|].
    split; [exact Hfresh'|].
    split; [simpl; apply NoDup_upsert; exact Hnd|].
    split.
    { rewrite map_app. apply NoDup_snoc; [exact Hndex|]. simpl.
      intros Hin. apply in_map_iff in Hin as (y & Hy & Hin).
      exact (Hfresh y (idSeed si) (Hex y Hin) (le_n _) Hy). }
    split.
    { intros x Hx. apply Hrows'. apply in_app_iff in Hx as [Hx | [<- | []]].
      - right. apply Hex, Hx.
      - left; reflexivity. }
    split.
    { intros a Ha Hno. apply Hrows'. right. apply Hkeep; assumption. }
    split.
    { intros e0 He0. destruct (Hl0 e0 He0) as [Hin | [Hin Hm]].
      - left. apply in_app_iff. left; exact Hin.
      - right. split; [|exact Hm]. apply in_app_iff. left; exact Hin. }
    split.
    { intros x Hx. apply in_app_iff in Hx as [Hx | [<- | []]]; [apply Hprov, Hx|].
      right; right. split; [reflexivity|]. split; [reflexivity|]. split; [reflexivity|].
      exists l. split; [exact Hl|]. split.
      - unfold linkMatches, newLink. cbn [value name]. now rewrite !String.eqb_refl.
      - exists target. split; [|exact Hd]. unfold getNote in *. rewrite <- Hn. exact Ht. }
    intros a Ha. apply Hrows' in Ha as [-> | Ha].
    + right. apply in_app_iff. right. left; reflexivity.
    + destruct (Hrows a Ha) as [H | H]; [left; exact H|]. right.
      apply in_app_iff. left; exact H.
Qed.

(** A live link that matches stays in the list. *)
Lemma saveFoundLink_keeps_live (st : list Attribute * Store) (l l0 : Link) :
  Inv st -> hasLiveLink l0 (fst st) -> hasLiveLink l0 (fst (step st l)).
Proof.
  destruct st as [ex si]. intros HI Hlive. unfold saveFoundLink.
  destruct (getNote (l_value l) si) as [target|]; [|exact Hlive].
  destruct (n_isDeleted target); [exact Hlive|].
  destruct HI as (_ & _ & _ & Hndex & _).
  destruct Hlive as (x & Hx & Hm & Hxl).
  destruct (List.find (linkMatches l) ex) as [e|] eqn:Hf.
  - destruct (a_isDeleted e) eqn:He; [|exists x; auto].
    pose proof (find_some _ _ Hf) as [Hine _].
    exists x. split; [|split; assumption]. simpl.
    apply (in_replaceFirst attributeId (linkMatches l) (undeletedAttribute e) e ex Hf Hndex).
    right. split; [exact Hx|]. intros E.
    assert (x = e) by (apply (NoDup_key_eq attributeId ex); assumption).
    congruence.
  - rewrite newEntityId_genId. cbv beta iota. exists x. simpl.
    split; [|split; assumption]. apply in_app_iff. left; exact Hx.
Qed.

(** A found link with a live target has a live link afterwards. *)
Lemma saveFoundLink_makes_live (st : list Attribute * Store) (l : Link) :
  Inv st -> liveTarget (l_value l) s -> hasLiveLink l (fst (step st l)).
Proof.
  destruct st as [ex si]. intros HI (target & Ht & Hd). unfold saveFoundLink.
  destruct HI as ((Hn & _) & _ & _ & Hndex & _).
  assert (Ht' : getNote (l_value l) si = Some target)
    by (unfold getNote in *; rewrite Hn; exact Ht).
  rewrite Ht', Hd.
  destruct (List.find (linkMatches l) ex) as [e|] eqn:Hf.
  - pose proof (find_some _ _ Hf) as [Hine Hme].
    destruct (a_isDeleted e) eqn:He.
    + exists (undeletedAttribute e). simpl. split; [|split; [exact Hme | reflexivity]].
      apply (in_replaceFirst attributeId (linkMatches l) (undeletedAttribute e) e ex
               Hf Hndex).
      left; reflexivity.
    + exists e. auto.
  - rewrite newEntityId_genId. cbv beta iota. eexists. simpl. split.
    + apply in_app_iff. right. left. reflexivity.
    + split; [|reflexivity]. unfold linkMatches. cbn [value name].
      now rewrite !String.eqb_refl.
Qed.

Lemma links_loop (ls : list Link) : forall st,
  incl ls foundLinks -> Inv st ->
  let st' := fold_left step ls st in
  Inv st'
  /\ (forall l0, hasLiveLink l0 (fst st) -> hasLiveLink l0 (fst st'))
  /\ (forall l, In l ls -> liveTarget (l_value l) s -> hasLiveLink l (fst st')).
Proof.
  induction ls as [|l ls IH]; intros st Hincl HI.
  - simpl. split; [exact HI|]. split; [auto | intros l []].
  - cbn [fold_left].
    assert (Hl : In l foundLinks) by (apply Hincl; left; reflexivity).
    assert (Hincl' : incl ls foundLinks) by (intros x Hx; apply Hincl; right; exact Hx).
    pose proof (saveFoundLink_inv st l Hl HI) as HI'.
    destruct (IH (step st l) Hincl' HI') as (HI'' & Hkeep & Hnew).
    split; [exact HI''|]. split.
    + intros l0 H0. apply Hkeep. apply saveFoundLink_keeps_live; assumption.
    + intros l1 [<- | Hin] Hlive.
      * apply Hkeep. apply saveFoundLink_makes_live; assumption.
      * apply Hnew; assumption.
Qed.

End Links.

Section Reconcile.

Variable getLinks : Note -> Store -> list Attribute.
Variable newAttributePosition : string -> Store -> Z.
Variable note : Note.
Variable foundLinks : list Link.
Variable s : Store.

(** X12. [saveLinks], from the links found in the content on, for a note
    whose link rows [getLinks] returns once each, in a table with unique
    keys and no identifier still to be generated.  Afterwards every found
    link whose target exists and is not deleted has a live relation of its
    name and value, which is one of the note's link rows or a new relation
    of the note; every link row that matches no found link is marked
    deleted; the rows that [getLinks] did not return are as they were; and
    every row of the table is an old row, a link row undeleted for a found
    link or marked deleted for want of one, or a new live relation of the
    note for a found link with a live target.  Notes, branches and contents
    are untouched, and the keys stay unique. *)
Theorem reconcileLinks_spec :
  attributeIdsFresh s ->
  List.NoDup (map attributeId (attributes s)) ->
  List.NoDup (map attributeId (getLinks note s)) ->
  (forall e, In e (getLinks note s) -> In e (attributes s)) ->
  let s' := reconcileLinks getLinks newAttributePosition note foundLinks s in
  (notes s' = notes s /\ branches s' = branches s /\ note_contents s' = note_contents s)
  /\ List.NoDup (map attributeId (attributes s'))
  /\ (forall l, In l foundLinks -> liveTarget (l_value l) s ->
        exists a, In a (attributes s') /\ linkMatches l a = true /\ a_isDeleted a = false
                  /\ ((exists e, In e (getLinks note s) /\ attributeId a = attributeId e)
                      \/ createdLink note foundLinks s a))
  /\ (forall e, In e (getLinks note s) ->
                (forall l, In l foundLinks -> linkMatches l e = false) ->
                In (markAttributeDeleted e) (attributes s'))
  /\ (forall a, In a (attributes s) ->
                (forall e, In e (getLinks note s) -> attributeId e <> attributeId a) ->
                In a (attributes s'))
  /\ (forall a, In a (attributes s') ->
        In a (attributes s)
        \/ (exists e, In e (getLinks note s)
                      /\ ((a = undeletedAttribute e
                           /\ exists l, In l foundLinks /\ linkMatches l e = true)
                          \/ (a = markAttributeDeleted e
                              /\ forall l, In l foundLinks -> linkMatches l e = false)))
        \/ createdLink note foundLinks s a).
Proof.
  intros Hfresh Hnd Hnd0 Hsub. unfold reconcileLinks.
  assert (H0 : linksInv note foundLinks s (getLinks note s) (getLinks note s, s)).
  { unfold linksInv. repeat split; auto. }
  destruct (links_loop newAttributePosition note foundLinks s (getLinks note s) foundLinks
              (getLinks note s, s) (incl_refl _) H0) as (HI & _ & Hlive).
  destruct (fold_left (saveFoundLink newAttributePosition note) foundLinks
              (getLinks note s, s)) as [ex s1].
  cbv beta iota.
  set (unused := List.filter
                   (fun existingLink =>
                      negb (existsb (fun foundLink => linkMatches foundLink existingLink)
                              foundLinks)) ex).
  destruct HI as ((Hn & Hb & Hc) & _ & Hnd1 & Hndex & Hex & Hkeep & Hl0 & Hprov & Hrows).
  assert (Hnomatch : forall u, In u unused ->
                               forall l, In l foundLinks -> linkMatches l u = false).
  { intros u Hu l Hl. apply List.filter_In in Hu as [_ Hu].
    destruct (linkMatches l u) eqn:Hm; [|reflexivity].
    rewrite (found_match foundLinks l u Hl Hm) in Hu. discriminate. }
  assert (Hun : forall u, In u unused -> In u ex /\ In u (getLinks note s)).
  { intros u Hu. pose proof (Hnomatch u Hu) as Hno.
    apply List.filter_In in Hu as [Hu _]. split; [exact Hu|].
    destruct (Hprov u Hu) as [H | [(_ & _ & _ & _ & l & Hl & Hm) | (_ & _ & _ & l & Hl & Hm & _)]].
    - exact H.
    - rewrite (Hno l Hl) in Hm. discriminate.
    - rewrite (Hno l Hl) in Hm. discriminate. }
  assert (Hndu : List.NoDup (map attributeId unused))
    by (apply NoDup_map_filter; exact Hndex).
  destruct (mark_loop unused s1 Hndu) as ((Hn2 & Hb2 & Hc2) & Hk2 & Hrows2).
  simpl in Hlive.
  split; [rewrite Hn2, Hb2, Hc2; auto|].
  split; [apply Hk2; exact Hnd1|].
  split.
  { intros l Hl Ht. destruct (Hlive l Hl Ht) as (a & Ha & Hm & Hal).
    exists a. split; [|split; [exact Hm|split; [exact Hal|]]].
    - apply Hrows2. right. split; [apply Hex, Ha|]. intros u Hu E.
      assert (u = a) by (apply (NoDup_key_eq attributeId ex);
                         [exact Hndex | apply Hun, Hu | exact Ha | exact E]).
      subst u. rewrite (Hnomatch a Hu l Hl) in Hm. discriminate.
    - destruct (Hprov a Ha) as [H | [(_ & e0 & He0 & -> & _) | H]].
      + left. exists a. split; [exact H | reflexivity].
      + left. exists e0. split; [exact He0 | reflexivity].
      + right. exact H. }
  split.
  { intros e He Hno. apply Hrows2. left. exists e. split; [|reflexivity].
    apply List.filter_In. split.
    - destruct (Hl0 e He) as [H | [_ (l & Hl & Hm)]]; [exact H|].
      rewrite (Hno l Hl) in Hm. discriminate.
    - apply negb_true_iff. destruct (existsb _ foundLinks) eqn:E; [|reflexivity].
      apply existsb_exists in E as (l & Hl & Hm). rewrite (Hno l Hl) in Hm. discriminate. }
  split.
  { intros a Ha Hno. apply Hrows2. right. split; [apply Hkeep; assumption|].
    intros u Hu. apply Hno. apply Hun, Hu. }
  intros a Ha. apply Hrows2 in Ha as [(u & Hu & ->) | [Ha _]].
  - right; left. exists u. split; [apply Hun, Hu|]. right.
    split; [reflexivity | exact (Hnomatch u Hu)].
  - destruct (Hrows a Ha) as [H | H]; [left; exact H|].
    destruct (Hprov a H) as [H' | [(_ & e0 & He0 & -> & l & Hl & Hm) | H']].
    + left. apply Hsub, H'.
    + right; left. exists e0. split; [exact He0|]. left. split; [reflexivity|].
      exists l. split; [exact Hl | exact Hm].
    + right; right. exact H'.
Qed.

End Reconcile.

Lemma lk_store_attributeIdsFresh : attributeIdsFresh lk_store.
Proof.
  intros a k Hin _. simpl in Hin.
  destruct Hin as [<- | [<- | [<- | [<- | []]]]]; discriminate.
Qed.

Lemma reconcileLinks_spec_witness :
  In (mkAttribute "k1" "a" "relation" "internalLink" "b" 10 false true None)
    (attributes (reconcileLinks getLinksOf (fun _ _ => 0) lk_note lk_found lk_store)).
Proof.
  assert (Hnd : List.NoDup (map attributeId (attributes lk_store))).
  { simpl. repeat constructor; simpl; intuition discriminate. }
  assert (Hnd0 : List.NoDup (map attributeId (getLinksOf lk_note lk_store))).
  { vm_compute. repeat constructor; simpl; intuition discriminate. }
  assert (Hsub : forall e, In e (getLinksOf lk_note lk_store) -> In e (attributes lk_store)).
  { intros e He. apply List.filter_In in He as [He _]. exact He. }
  destruct (reconcileLinks_spec getLinksOf (fun _ _ => 0) lk_note lk_found lk_store
              lk_store_attributeIdsFresh Hnd Hnd0 Hsub) as (_ & _ & _ & H & _).
  apply (H (mkAttribute "k1" "a" "relation" "internalLink" "b" 10 false false None)).
  - vm_compute. left; reflexivity.
  - intros l [<- | [<- | [<- | []]]]; reflexivity.
Defined.

(** ** The consistency checker: what it keeps of notes and attributes *)

Lemma Forall2_same {A} (R : A -> A -> Prop) (l : list A) :
  (forall x, R x x) -> List.Forall2 R l l.
Proof. intros HR. induction l; constructor; auto. Qed.

Lemma Forall2_compose {A} (R : A -> A -> Prop) (l1 l2 l3 : list A) :
  (forall x y z, R x y -> R y z -> R x z) ->
  List.Forall2 R l1 l2 -> List.Forall2 R l2 l3 -> List.Forall2 R l1 l3.
Proof.
  intros HR H12. revert l3. induction H12 as [|x y l1 l2 Hxy _ IH]; intros l3 H23.
  - inversion H23. constructor.
  - inversion H23 as [|y' z l2' l3' Hyz Hrest]; subst. constructor.
    + exact (HR x y z Hxy Hyz).
    + apply IH. exact Hrest.
Qed.

Lemma Forall2_map_in {A} (R : A -> A -> Prop) (f : A -> A) (l : list A) :
  (forall x, In x l -> R x (f x)) -> List.Forall2 R l (map f l).
Proof.
  induction l as [|x l IH]; intros H; simpl; constructor.
  - apply H. left; reflexivity.
  - apply IH. intros y Hy. apply H. right; exact Hy.
Qed.

Lemma Forall2_keys {A} (R : A -> A -> Prop) (key : A -> string) (l l' : list A) :
  (forall x y, R x y -> key y = key x) ->
  List.Forall2 R l l' -> map key l' = map key l.
Proof.
  intros HR. induction 1 as [|x y l l' Hxy _ IH]; simpl; [reflexivity|].
  rewrite IH, (HR x y Hxy). reflexivity.
Qed.

(** Saving a changed copy of a row of the table. *)
Lemma upsert_Forall2 {A} (R : A -> A -> Prop) (key : A -> string) (x y : A) (l : list A) :
  List.NoDup (map key l) -> In y l -> key x = key y -> R y x -> (forall z, R z z) ->
  List.Forall2 R l (upsert key x l).
Proof.
  intros Hnd Hin Hk Hyx Hrefl. unfold upsert.
  assert (E : existsb (fun z => String.eqb (key z) (key x)) l = true).
  { apply existsb_exists. exists y. split; [exact Hin|]. apply String.eqb_eq.
    symmetry. exact Hk. }
  rewrite E. apply Forall2_map_in. intros z Hz.
  destruct (String.eqb (key z) (key x)) eqn:K; [|apply Hrefl].
  apply String.eqb_eq in K.
  assert (z = y) by (apply (NoDup_key_eq key l); [assumption .. | congruence]).
  subst z. exact Hyx.
Qed.

Lemma noteKept_refl (n : Note) : noteKept n n.
Proof. left; reflexivity. Qed.

Lemma noteKept_trans (x y z : Note) : noteKept x y -> noteKept y z -> noteKept x z.
Proof.
  intros [-> | ->] [-> | ->]; [left | right | right | right]; reflexivity.
Qed.

Lemma noteKept_key (x y : Note) : noteKept x y -> noteId y = noteId x.
Proof. intros [-> | ->]; reflexivity. Qed.

Lemma attributeKept_refl (a : Attribute) : attributeKept a a.
Proof. unfold attributeKept. auto 10. Qed.

Lemma attributeKept_trans (x y z : Attribute) :
  attributeKept x y -> attributeKept y z -> attributeKept x z.
Proof.
  intros (H1 & H2 & H3 & H4 & H5 & H6 & H7) (K1 & K2 & K3 & K4 & K5 & K6 & K7).
  unfold attributeKept. repeat split; try congruence. auto.
Qed.

Lemma attributeKept_key (x y : Attribute) : attributeKept x y -> attributeId y = attributeId x.
Proof. intros (H & _). exact H. Qed.

Lemma keepsRows_refl (s : Store) : keepsRows s s.
Proof.
  split; apply Forall2_same; [exact noteKept_refl | exact attributeKept_refl].
Qed.

Lemma keepsRows_trans (s1 s2 s3 : Store) :
  keepsRows s1 s2 -> keepsRows s2 s3 -> keepsRows s1 s3.
Proof.
  intros [Hn Ha] [Hn' Ha']. split.
  - exact (Forall2_compose noteKept _ _ _ noteKept_trans Hn Hn').
  - exact (Forall2_compose attributeKept _ _ _ attributeKept_trans Ha Ha').
Qed.

Lemma keepsRows_same (s s' : Store) :
  notes s' = notes s -> attributes s' = attributes s -> keepsRows s s'.
Proof.
  intros Hn Ha. unfold keepsRows. rewrite Hn, Ha. apply keepsRows_refl.
Qed.

Lemma keepsRows_keyed (s s' : Store) : keepsRows s s' -> keyed s -> keyed s'.
Proof.
  intros [Hn Ha] [Kn Ka]. split.
  - rewrite (Forall2_keys noteKept noteId _ _ noteKept_key Hn). exact Kn.
  - rewrite (Forall2_keys attributeKept attributeId _ _ attributeKept_key Ha). exact Ka.
Qed.

Lemma fold_saveBranch_rows (g : Branch -> Branch) (l : list Branch) (s : Store) :
  notes (fold_left (fun s b => saveBranch (g b) s) l s) = notes s
  /\ attributes (fold_left (fun s b => saveBranch (g b) s) l s) = attributes s.
Proof.
  revert s. induction l as [|b l IH]; intros s; [split; reflexivity|].
  cbn [fold_left]. destruct (IH (saveBranch (g b) s)) as [-> ->]. split; reflexivity.
Qed.

Lemma keepsRows_saveAttribute (g : Attribute -> Attribute) (id : string) (a : Attribute)
    (s : Store) :
  keyed s -> getAttribute id s = Some a -> attributeKept a (g a) ->
  keepsRows s (saveAttribute (g a) s).
Proof.
  intros [_ Ka] Hget Hg. split; [apply Forall2_same; exact noteKept_refl|].
  apply find_some in Hget as [Hin _].
  change (attributes (saveAttribute (g a) s)) with (upsert attributeId (g a) (attributes s)).
  apply (upsert_Forall2 attributeKept attributeId (g a) a); auto.
  - apply (attributeKept_key a (g a) Hg).
  - exact attributeKept_refl.
Qed.

Lemma keepsRows_saveNote (id : string) (n : Note) (s : Store) :
  keyed s -> getNote id s = Some n -> keepsRows s (saveNote (setNoteType "file" n) s).
Proof.
  intros [Kn _] Hget. split; [|apply Forall2_same; exact attributeKept_refl].
  apply find_some in Hget as [Hin _].
  change (notes (saveNote (setNoteType "file" n) s))
    with (upsert noteId (setNoteType "file" n) (notes s)).
  apply (upsert_Forall2 noteKept noteId (setNoteType "file" n) n); auto.
  - right; reflexivity.
  - exact noteKept_refl.
Qed.

Lemma attributeKept_marked (a : Attribute) : attributeKept a (markAttributeDeleted a).
Proof. unfold attributeKept. simpl. auto 10. Qed.

Lemma attributeKept_typed (t : string) (a : Attribute) : attributeKept a (setAttributeType t a).
Proof. unfold attributeKept. simpl. auto 10. Qed.

Lemma attributeKept_named (n : string) (a : Attribute) : attributeKept a (setAttributeName n a).
Proof. unfold attributeKept. simpl. auto 10. Qed.

Ltac fixer_cases H :=
  cbn [fixer] in H;
  unfold deleteBranchById, deleteAttributeById in H;
  repeat match type of H with
         | context [match ?x with _ => _ end] => destruct x eqn:?
         end;
  try discriminate; injection H as <-.

Ltac keeps_rows :=
  first
    [ apply keepsRows_refl
    | eapply (keepsRows_saveAttribute markAttributeDeleted);
        [eassumption | eassumption | apply attributeKept_marked]
    | eapply (keepsRows_saveAttribute (setAttributeType "label"));
        [eassumption | eassumption | apply attributeKept_typed]
    | eapply keepsRows_saveNote; eassumption
    | apply keepsRows_same; [apply fold_saveBranch_rows | apply fold_saveBranch_rows]
    | apply keepsRows_same; reflexivity ].

Lemma keeping_findBrokenReferenceIssues : List.Forall keeping findBrokenReferenceIssues.
Proof.
  unfold findBrokenReferenceIssues.
  repeat apply List.Forall_cons; try apply List.Forall_nil;
    intros autoFix r s s' Hk H; fixer_cases H; keeps_rows.
Qed.

Lemma keeping_findExistencyIssues : List.Forall keeping findExistencyIssues.
Proof.
  unfold findExistencyIssues.
  repeat apply List.Forall_cons; try apply List.Forall_nil;
    intros autoFix r s s' Hk H; fixer_cases H; keeps_rows.
Qed.

Lemma keeping_findLogicIssues : List.Forall keeping findLogicIssues.
Proof.
  unfold findLogicIssues.
  repeat apply List.Forall_cons; try apply List.Forall_nil;
    intros autoFix r s s' Hk H; fixer_cases H; keeps_rows.
Qed.

Lemma keeping_runEntityChangeChecks (en : string) :
  List.Forall keeping (runEntityChangeChecks en).
Proof.
  unfold runEntityChangeChecks.
  repeat apply List.Forall_cons; try apply List.Forall_nil;
    intros autoFix r s s' Hk H; fixer_cases H; keeps_rows.
Qed.

Lemma keeping_predicateChecks : List.Forall keeping predicateChecks.
Proof.
  unfold predicateChecks, findEntityChangeIssues.
  repeat (apply List.Forall_app; split);
    first [ exact keeping_findBrokenReferenceIssues
          | exact keeping_findExistencyIssues
          | exact keeping_findLogicIssues
          | apply keeping_runEntityChangeChecks ].
Qed.

Lemma findAndFixIssues_keeps (chk : Check) (c : ConsistencyChecks) (s : Store) :
  keeping chk -> keyed s -> keepsRows s (snd (findAndFixIssues chk (c, s))).
Proof.
  intros Hchk. unfold findAndFixIssues. simpl snd at 2.
  generalize (scan chk s). intros l. revert c s.
  induction l as [|r l IH]; intros c s Hk; [apply keepsRows_refl|].
  cbn [fold_left].
  destruct (fixer chk (autoFix c) r s) as [s1| |] eqn:E; try (apply IH; exact Hk).
  pose proof (Hchk _ _ _ _ Hk E) as H1.
  apply (keepsRows_trans s s1); [exact H1|].
  apply IH. exact (keepsRows_keyed s s1 H1 Hk).
Qed.

Lemma runChecks_keeps (l : list Check) :
  List.Forall keeping l ->
  forall c s, keyed s -> keepsRows s (snd (runChecks l (c, s))).
Proof.
  induction 1 as [|chk l Hchk _ IH]; intros c s Hk; [apply keepsRows_refl|].
  unfold runChecks in *. cbn [fold_left].
  pose proof (findAndFixIssues_keeps chk c s Hchk Hk) as H1.
  destruct (findAndFixIssues chk (c, s)) as [c1 s1]. simpl in H1.
  apply (keepsRows_trans s s1); [exact H1|].
  apply IH. exact (keepsRows_keyed s s1 H1 Hk).
Qed.

Lemma findWronglyNamedAttributes_keeps (sanitizeAttributeName : string -> string)
    (c : ConsistencyChecks) (s : Store) :
  keepsRows s (snd (findWronglyNamedAttributes sanitizeAttributeName (c, s))).
Proof.
  unfold findWronglyNamedAttributes. simpl snd at 2.
  generalize (distinct String.eqb (map name (attributes s))). intros l. revert c s.
  induction l as [|n l IH]; intros c s; [apply keepsRows_refl|].
  cbn [fold_left].
  destruct (negb (String.eqb (sanitizeAttributeName n) n)); [|apply IH].
  destruct (autoFix c); [|apply IH].
  eapply keepsRows_trans; [|apply IH]. split.
  - apply Forall2_same. exact noteKept_refl.
  - simpl. apply Forall2_map_in. intros a _.
    destruct (String.eqb (name a) n);
      [apply attributeKept_named | apply attributeKept_refl].
Qed.

(** X13. Whatever a run of the checker repairs, with or without autofix, in
    a store whose note and attribute keys are unique: no note and no
    attribute row is added or removed, a note row is as it was or differs
    in its type alone, which is then file, and an attribute row keeps its
    key, owner, value, position, inheritance and delete id and is not
    undeleted. *)
Theorem runAllChecksAndFixers_keeps_rows (sanitizeAttributeName : string -> string)
    (autoFix' : bool) (s : Store) (c : ConsistencyChecks) (s' : Store) :
  keyed s ->
  runAllChecksAndFixers sanitizeAttributeName autoFix' s = Return (c, s') ->
  List.Forall2 noteKept (notes s) (notes s')
  /\ List.Forall2 attributeKept (attributes s) (attributes s').
Proof.
  intros Hk. unfold runAllChecksAndFixers. cbv zeta.
  assert (Hp : forall st,
             runChecks findEntityChangeIssues
               (runChecks findLogicIssues
                  (runChecks findExistencyIssues
                     (runChecks findBrokenReferenceIssues st)))
             = runChecks predicateChecks st).
  { intros st. unfold predicateChecks. rewrite !runChecks_app. reflexivity. }
  rewrite Hp.
  pose proof (runChecks_keeps predicateChecks keeping_predicateChecks
                (mkConsistencyChecks autoFix' false false) s Hk) as H1.
  destruct (runChecks predicateChecks (mkConsistencyChecks autoFix' false false, s))
    as [c1 s1]. simpl in H1.
  pose proof (findWronglyNamedAttributes_keeps sanitizeAttributeName c1 s1) as H2.
  destruct (findWronglyNamedAttributes sanitizeAttributeName (c1, s1)) as [c2 s2].
  simpl in H2.
  assert (H3 : keepsRows s (expandRoot s2)).
  { apply (keepsRows_trans s s1); [exact H1|]. apply (keepsRows_trans s1 s2); [exact H2|].
    apply keepsRows_same; reflexivity. }
  intros H.
  destruct (negb (unrecoveredConsistencyErrors c2)).
  - destruct (checkTreeCycles (expandRoot s2)) as [err| |]; try discriminate.
    simpl in H. injection H as _ <-. exact H3.
  - injection H as _ <-. exact H3.
Qed.

Lemma ck_type_store_keyed : keyed ck_type_store.
Proof.
  split; simpl; repeat constructor; simpl; intuition discriminate.
Qed.

Lemma runAllChecksAndFixers_keeps_rows_witness :
  exists c s',
    runAllChecksAndFixers ck_sanitize true ck_type_store = Return (c, s')
    /\ List.Forall2 noteKept (notes ck_type_store) (notes s')
    /\ List.Forall2 attributeKept (attributes ck_type_store) (attributes s').
Proof.
  destruct (runAllChecksAndFixers ck_sanitize true ck_type_store) as [[c s']| |] eqn:E;
    try (vm_compute in E; discriminate).
  exists c, s'. split; [reflexivity|].
  exact (runAllChecksAndFixers_keeps_rows ck_sanitize true ck_type_store c s'
           ck_type_store_keyed E).
Defined.

(** ** Own attributes come first *)

Lemma addUnique_app (seen : list string) (l1 l2 : list NoteShort.Attribute) :
  exists seen',
    NoteShort.addUnique seen (l1 ++ l2)
    = NoteShort.addUnique seen l1 ++ NoteShort.addUnique seen' l2.
Proof.
  revert seen. induction l1 as [|x l1 IH]; intros seen; simpl.
  - exists seen. reflexivity.
  - destruct (existsb (String.eqb (NoteShort.attributeId x)) seen).
    + apply IH.
    + destruct (IH (NoteShort.attributeId x :: seen)) as [seen' ->].
      exists seen'. reflexivity.
Qed.

Lemma ownFirst_concat (treeCache : NoteShort.TreeCache) (n : NoteShort.NoteShort)
    (rest : list (list NoteShort.Attribute)) :
  ownFirst treeCache n
    (NoteShort.addUnique [] (concat (NoteShort.getOwnedAttributes treeCache n :: rest))).
Proof.
  simpl.
  destruct (addUnique_app [] (NoteShort.getOwnedAttributes treeCache n) (concat rest))
    as [seen' ->].
  eexists. reflexivity.
Qed.

(** The first match of a filter survives the removal of repeated ids, when
    equal ids mean equal attributes. *)
Lemma addUnique_first (p : NoteShort.Attribute -> bool) (l : list NoteShort.Attribute) :
  (forall x y, In x l -> In y l ->
               NoteShort.attributeId x = NoteShort.attributeId y -> x = y) ->
  forall seen a tl,
    List.filter p l = a :: tl ->
    (forall x, In x l -> p x = true ->
               existsb (String.eqb (NoteShort.attributeId x)) seen = false) ->
    exists tl', List.filter p (NoteShort.addUnique seen l) = a :: tl'.
Proof.
  induction l as [|x l IH]; intros Hfun seen a tl Hf Hseen; [discriminate|].
  assert (Hfun' : forall x0 y, In x0 l -> In y l ->
                               NoteShort.attributeId x0 = NoteShort.attributeId y -> x0 = y).
  { intros x0 y Hx0 Hy. apply Hfun; right; assumption. }
  simpl in Hf. simpl. destruct (p x) eqn:Hp.
  - injection Hf as -> _.
    rewrite (Hseen a (or_introl eq_refl) Hp). simpl. rewrite Hp. eexists. reflexivity.
  - destruct (existsb (String.eqb (NoteShort.attributeId x)) seen) eqn:E.
    + apply (IH Hfun' seen a tl Hf). intros y Hy. apply Hseen. right. exact Hy.
    + simpl. rewrite Hp. apply (IH Hfun' _ a tl Hf).
      intros y Hy Hpy. simpl. rewrite (Hseen y (or_intror Hy) Hpy), orb_false_r.
      apply String.eqb_neq. intros Hid.
      assert (y = x) by (apply Hfun; [right; exact Hy | left; reflexivity | exact Hid]).
      congruence.
Qed.

Lemma filterAttrs_filter (type name' : option string) :
  exists p, forall l, NoteShort.filterAttrs l type name' = List.filter p l.
Proof.
  destruct type as [t|], name' as [n|]; simpl.
  - eexists. intros l. reflexivity.
  - eexists. intros l. reflexivity.
  - eexists. intros l. reflexivity.
  - exists (fun _ => true). intros l. symmetry. apply filter_all. reflexivity.
Qed.

Lemma owned_by_id (treeCache : NoteShort.TreeCache) (n : NoteShort.NoteShort) :
  attributesKeyed treeCache ->
  forall x y, In x (NoteShort.getOwnedAttributes treeCache n) ->
              In y (NoteShort.getOwnedAttributes treeCache n) ->
              NoteShort.attributeId x = NoteShort.attributeId y -> x = y.
Proof.
  intros Hkeys x y Hx Hy Hid. unfold NoteShort.getOwnedAttributes in Hx, Hy.
  apply list_elem_of_In, list_elem_of_omap in Hx as (k1 & _ & H1).
  apply list_elem_of_In, list_elem_of_omap in Hy as (k2 & _ & H2).
  pose proof (Hkeys _ _ H1). pose proof (Hkeys _ _ H2). congruence.
Qed.

Section OwnFirst.

Variable treeCache : NoteShort.TreeCache.
Hypothesis Hkeys : wellKeyed treeCache.

Lemma getCachedAttributes_ownFirst (fuel : nat) :
  forall this path cache attrs cache',
    cacheOwnFirst treeCache cache ->
    NoteShort.tc_notes treeCache !! NoteShort.noteId this = Some this ->
    NoteShort.getCachedAttributes fuel treeCache this path cache = Return (attrs, cache') ->
    cacheOwnFirst treeCache cache'
    /\ (existsb (String.eqb (NoteShort.noteId this)) path = false ->
        ownFirst treeCache this attrs).
Proof.
  induction fuel as [|fuel IH]; intros this path cache attrs cache' Hc Hthis H;
    [discriminate|].
  simpl in H. destruct (existsb (String.eqb (NoteShort.noteId this)) path) eqn:Hpath.
  { injection H as <- <-. split; [exact Hc | discriminate]. }
  destruct (cache !! NoteShort.noteId this) as [hit|] eqn:Hhit.
  { injection H as <- <-. split; [exact Hc|]. intros _. apply (Hc _ _ _ Hhit Hthis). }
  match type of H with
  | bind ?parents _ = _ => destruct parents as [st| |] eqn:Eparents; try discriminate
  end.
  simpl in H.
  match type of H with
  | bind ?templates _ = _ => destruct templates as [st'| |] eqn:Etemplates; try discriminate
  end.
  simpl in H. injection H as <- <-.
  assert (Hrec : forall k n c r,
             cacheOwnFirst treeCache c ->
             NoteShort.tc_notes treeCache !! k = Some n ->
             NoteShort.getCachedAttributes fuel treeCache n
               (path ++ [NoteShort.noteId this]) c = Return r ->
             cacheOwnFirst treeCache (snd r)).
  { intros k n c [ra rc] Hsound Hn Hr. pose proof (Hkeys k n Hn) as Hk. subst k.
    apply (IH n _ c ra rc Hsound Hn Hr). }
  assert (Hst : ownLoopInv treeCache this st).
  { destruct (String.eqb (NoteShort.noteId this) "root").
    - injection Eparents as <-. split; [exact Hc | exists []; reflexivity].
    - revert Eparents. apply foldM_inv; [|split; [exact Hc | exists []; reflexivity]].
      intros [arrs c] parentNote [arrs' c'] Hp [Hsound [rest Hrest]] Hstep.
      simpl in Hsound, Hrest.
      destruct (negb (String.eqb (NoteShort.type parentNote) "search")).
      + destruct (NoteShort.getCachedAttributes fuel treeCache parentNote
                    (path ++ [NoteShort.noteId this]) c) as [r| |] eqn:Er; try discriminate.
        simpl in Hstep. injection Hstep as <- <-.
        unfold NoteShort.getParentNotes in Hp.
        apply list_elem_of_In, list_elem_of_omap in Hp as (k & _ & Hk).
        split; simpl.
        * apply (Hrec k parentNote c r Hsound Hk Er).
        * rewrite Hrest. eexists. reflexivity.
      + injection Hstep as <- <-. split; [exact Hsound | exists rest; exact Hrest]. }
  assert (Hst' : ownLoopInv treeCache this st').
  { revert Etemplates. apply foldM_inv; [|exact Hst].
    intros [arrs c] templateAttr [arrs' c'] _ [Hsound [rest Hrest]] Hstep.
    simpl in Hsound, Hrest.
    destruct (NoteShort.tc_notes treeCache !! NoteShort.value templateAttr)
      as [templateNote|] eqn:Hk.
    - destruct (negb (String.eqb (NoteShort.noteId templateNote) (NoteShort.noteId this))).
      + destruct (NoteShort.getCachedAttributes fuel treeCache templateNote
                    (path ++ [NoteShort.noteId this]) c) as [r| |] eqn:Er; try discriminate.
        simpl in Hstep. injection Hstep as <- <-. split; simpl.
        * apply (Hrec _ templateNote c r Hsound Hk Er).
        * rewrite Hrest. eexists. reflexivity.
      + injection Hstep as <- <-. split; [exact Hsound | exists rest; exact Hrest].
    - injection Hstep as <- <-. split; [exact Hsound | exists rest; exact Hrest]. }
  destruct Hst' as [Hsound' [rest' Hrest']].
  assert (Hown : ownFirst treeCache this (NoteShort.addUnique [] (concat (fst st')))).
  { rewrite Hrest'. apply ownFirst_concat. }
  split; [|intros _; exact Hown].
  intros k attrs n Hlookup Hn.
  destruct (string_dec (NoteShort.noteId this) k) as [<- | Hne].
  - rewrite lookup_insert in Hlookup.
    assert (n = this) by congruence. subst n.
    destruct (decide (NoteShort.noteId this = NoteShort.noteId this)); [|contradiction].
    injection Hlookup as <-. exact Hown.
  - rewrite lookup_insert_ne in Hlookup by exact Hne.
    apply (Hsound' _ _ _ Hlookup Hn).
Qed.

(** X3. Own attributes take precedence.  In a tree cache that stores its
    notes and attributes under their own ids, and with an attribute cache
    that only the resolver has filled (an empty one, say): when the note
    owns an attribute of the type and name, so that [getOwnedAttribute]
    finds one, [getAttribute] returns that very attribute, whatever the
    note inherits, and so does [getAttributeValue] its value; the cache it
    leaves is again such a cache. *)
Theorem getAttribute_prefers_owned (this : NoteShort.NoteShort) (type name' : option string)
    (cache : NoteShort.AttributeCache) (attr : NoteShort.Attribute) :
  attributesKeyed treeCache ->
  cacheOwnFirst treeCache cache ->
  NoteShort.tc_notes treeCache !! NoteShort.noteId this = Some this ->
  NoteShortLookup.getOwnedAttribute treeCache this type name' = NoteShortLookup.Found attr ->
  exists cache',
    NoteShortLookup.getAttribute (resolverFuel treeCache) treeCache this type name' cache
    = Return (NoteShortLookup.Found attr, cache')
    /\ NoteShortLookup.getAttributeValue (resolverFuel treeCache) treeCache this type name'
         cache
       = Return (NoteShortLookup.getOwnedAttributeValue treeCache this type name', cache')
    /\ cacheOwnFirst treeCache cache'.
Proof.
  intros Hattrs Hc Hthis Hown.
  unfold NoteShortLookup.getAttributeValue, NoteShortLookup.getOwnedAttributeValue,
    NoteShortLookup.getAttribute.
  rewrite Hown.
  unfold NoteShortLookup.getOwnedAttribute, NoteShortLookup.getOwnedAttributes in Hown.
  unfold NoteShort.getAttributes.
  destruct (getCachedAttributes_returns treeCache (resolverFuel treeCache) this [] cache)
    as [[attrs cache'] E].
  { unfold resolverFuel, unvisited.
    pose proof (filter_length_le (fun u => negb (existsb (String.eqb u) []))
                  (cachedNoteIds treeCache)).
    destruct (isCached treeCache this); lia. }
  rewrite E. simpl.
  destruct (getCachedAttributes_ownFirst _ this [] cache attrs cache' Hc Hthis E)
    as [Hc' Hfirst].
  destruct (Hfirst eq_refl) as [rest ->].
  destruct (filterAttrs_filter type name') as [p Hp]. rewrite Hp in Hown. rewrite Hp.
  destruct (List.filter p (NoteShort.getOwnedAttributes treeCache this)) as [|a tl] eqn:Hf;
    [discriminate|].
  injection Hown as ->.
  destruct (addUnique_first p (NoteShort.getOwnedAttributes treeCache this)
              (owned_by_id treeCache this Hattrs) [] attr tl Hf) as [tl' Htl'].
  { intros x _ _. reflexivity. }
  rewrite List.filter_app, Htl'. simpl.
  exists cache'. split; [reflexivity|]. split; [reflexivity | exact Hc'].
Qed.

End OwnFirst.

Lemma rs_treeCache_attributesKeyed : attributesKeyed rs_treeCache.
Proof.
  intros k a H. unfold rs_treeCache in H. simpl in H.
  apply lookup_insert_Some in H as [[<- <-] | [_ H]]; [reflexivity|].
  apply lookup_insert_Some in H as [[<- <-] | [_ H]]; [reflexivity|].
  apply lookup_insert_Some in H as [[<- <-] | [_ H]]; [reflexivity|].
  apply lookup_insert_Some in H as [[<- <-] | [_ H]]; [reflexivity|].
  rewrite lookup_empty in H. discriminate.
Qed.

Lemma getAttribute_prefers_owned_witness :
  exists cache',
    NoteShortLookup.getAttribute (resolverFuel rs_treeCache) rs_treeCache rs_A
      (Some "relation") (Some "template") ∅
    = Return (NoteShortLookup.Found rs_rA, cache').
Proof.
  destruct (getAttribute_prefers_owned rs_treeCache rs_treeCache_wellKeyed rs_A
              (Some "relation") (Some "template") ∅ rs_rA)
    as (cache' & H & _).
  - exact rs_treeCache_attributesKeyed.
  - intros k attrs n H. rewrite lookup_empty in H. discriminate.
  - vm_compute. reflexivity.
  - vm_compute. reflexivity.
  - exists cache'. exact H.
Defined.

(** ** hasAncestor: the search ends and follows every parent link *)



Lemma parent_lookup (treeCache : NoteShort.TreeCache) (n p : NoteShort.NoteShort) :
  In p (NoteShort.getParentNotes treeCache n) ->
  exists k, NoteShort.tc_notes treeCache !! k = Some p.
Proof.
  intros Hp. unfold NoteShort.getParentNotes in Hp.
  apply list_elem_of_In, list_elem_of_omap in Hp as (k & _ & Hk). exists k. exact Hk.
Qed.





Section Explored.

Variable treeCache : NoteShort.TreeCache.
Variable ancestorNote : NoteShort.NoteShort.
Hypothesis Hkeys : wellKeyed treeCache.






End Explored.

Lemma hs_treeCache_wellKeyed : wellKeyed hs_treeCache.
Proof.
  intros k n H. unfold hs_treeCache in H. simpl in H.
  apply lookup_insert_Some in H as [[<- <-] | [_ H]]; [reflexivity|].
  apply lookup_insert_Some in H as [[<- <-] | [_ H]]; [reflexivity|].
  apply lookup_insert_Some in H as [[<- <-] | [_ H]]; [reflexivity|].
  rewrite lookup_empty in H. discriminate.
Qed.


(** ** duplicateSubtreeWithoutRoot: the children are copied, the notes kept *)

(** X16. [duplicateSubtreeWithoutRoot] ends.  When it returns, the source
    note exists and is not root; every note row that was there is still
    there, unchanged and in place, the copies being added after them; and
    each non-deleted child branch of the source has its copy, a new branch
    that places the note pregenerated for the child under the target, one
    position after the original, with that note in the store. *)
Theorem duplicateSubtreeWithoutRoot_children
    (session : Session)
    (regExpReplace : string -> string -> (string -> string) -> option string)
    (origNoteId newNoteId : string) (s : Store) :
  let result := duplicateSubtreeWithoutRoot session regExpReplace origNoteId newNoteId s in
  result <> OutOfFuel
  /\ forall s',
      result = Return s' ->
      exists origNote,
        getNote origNoteId s = Some origNote
        /\ origNoteId <> "root"
        /\ (exists added, notes s' = notes s ++ added)
        /\ forall childBranch,
            In childBranch (getChildBranches origNoteId s) ->
            childCopied (fst (getNoteIdMapping origNote s)) newNoteId childBranch s'.
Proof.
  cbv zeta. unfold duplicateSubtreeWithoutRoot.
  destruct (String.eqb origNoteId "root") eqn:Hroot; [split; discriminate|].
  destruct (getNote origNoteId s) as [origNote|] eqn:Hget; [|split; discriminate].
  pose proof (find_some_key noteId origNoteId _ _ Hget) as [_ Hid].
  pose proof (getNoteIdMapping_spec origNote s) as Hspec. cbv zeta in Hspec.
  destruct (getNoteIdMapping origNote s) as [m s1] eqn:Hm. cbn [fst snd] in *.
  destruct Hspec as (Hseed & Hnotes & Hbranches & _).
  split.
  - apply (forEach_total_inv _ (fun st => (missingCopies m st < duplicateFuel m)%nat)).
    + intros cb st Hst. destruct (getNote (b_noteId cb) st) as [child|]; [|discriminate].
      pose proof (duplicateSubtreeInner_total session regExpReplace m (duplicateFuel m) child
                    (Some cb) newNoteId st Hst) as Hcall.
      destruct (duplicateSubtreeInner session regExpReplace (duplicateFuel m) child (Some cb)
                  newNoteId m st) as [[[n1 b1] s3]| |]; cbn [bind];
        [discriminate | discriminate | contradiction].
    + intros cb st st' _ _. apply missingCopies_bound.
    + apply missingCopies_bound.
  - intros s' H. exists origNote. split; [reflexivity|]. split; [now apply String.eqb_neq|].
    apply (forEach_grows _ (fun _ => True) (childCopied m newNoteId)) in H
      as (Hg & _ & Hall); [| | |exact I].
    + split.
      * destruct Hg as (_ & [added Hadded] & _). exists added. rewrite Hadded, Hnotes.
        reflexivity.
      * intros cb Hcb. rewrite Hm. cbn [fst]. apply Hall. unfold getChildBranches in *.
        rewrite Hid, Hbranches. exact Hcb.
    + intros x st st'. apply childCopied_grows.
    + intros cb st st' _ _ Hstep.
      destruct (getNote (b_noteId cb) st) as [child|] eqn:Hchild; [|discriminate].
      match type of Hstep with
      | bind ?c _ = _ => destruct c as [[[n1 b1] s3]| |] eqn:Hc; cbn [bind] in Hstep;
                           try discriminate
      end.
      injection Hstep as <-. cbn [snd].
      pose proof (find_some_key noteId _ _ _ Hchild) as [_ Hcid].
      destruct (duplicateSubtreeInner_grows _ _ _ _ _ _ _ _ _ _ _ Hc)
        as (Hg & Hin & Hgen & Hmap & Hpar & Hpos & Hdel & Hnote & _).
      split; [exact Hg|]. split; [exact I|].
      exists (b_noteId b1), b1. rewrite <- Hcid.
      split; [exact Hmap|]. split; [exact Hin|]. split; [exact Hgen|].
      split; [reflexivity|]. split; [exact Hpar|]. split; [exact (Hpos cb eq_refl)|].
      split; [exact Hdel|]. rewrite Hnote. discriminate.
Qed.

Lemma duplicateSubtreeWithoutRoot_children_witness :
  exists s' b,
    duplicateSubtreeWithoutRoot c5_session wordsReplace "a" "a2" c6_store = Return s'
    /\ In b (branches s') /\ parentNoteId b = "a2" /\ notePosition b = 11
    /\ getNote (b_noteId b) s' <> None.
Proof.
  destruct (duplicateSubtreeWithoutRoot c5_session wordsReplace "a" "a2" c6_store)
    as [s'| |] eqn:E; try (vm_compute in E; discriminate).
  destruct (proj2 (duplicateSubtreeWithoutRoot_children c5_session wordsReplace "a" "a2"
                     c6_store) s' E)
    as (origNote & _ & _ & _ & Hall).
  destruct (Hall (mkBranch "bb" "b" "a" 10 "" false false None))
    as (newId & b & _ & Hin & _ & Hid & Hpar & Hpos & _ & Hnote).
  { vm_compute. left. reflexivity. }
  exists s', b. split; [reflexivity|]. split; [exact Hin|]. split; [exact Hpar|].
  split; [exact Hpos|]. rewrite Hid. exact Hnote.
Defined.

(** ** createNewNote and updateNote: what a later lookup finds *)

Section Lookup.

Variable session : Session.
Variable scanForLinks : Note -> Store -> Store.
Variable copyChildAttributes : Note -> Note -> Store -> Store.
Variable saveLinks : Note -> string -> Store -> Result (string * Store).
Variable hasLabel : Note -> string -> Store -> bool.
Variable protectNoteRevisions : Note -> Store -> Store.

(** X17. A call of [createNewNote] that returns, with collaborators that
    leave the note and branch tables alone: the note and the branch it
    returns are what a lookup under their ids finds afterwards; the note
    has the title, type and protection of the parameters, the mime that
    [deriveMime] gives, and is not deleted; the branch places it under the
    parent; and a lookup under any other id finds what it found before. *)
Theorem createNewNote_lookup (params : NoteParams) (s : Store) (note : Note)
    (branch : Branch) (s' : Store) :
  (forall n st, notes (scanForLinks n st) = notes st
                /\ branches (scanForLinks n st) = branches st) ->
  (forall p n st, notes (copyChildAttributes p n st) = notes st
                  /\ branches (copyChildAttributes p n st) = branches st) ->
  createNewNote session scanForLinks copyChildAttributes params s
  = Return (note, branch, s') ->
  getNote (noteId note) s' = Some note
  /\ getBranch (branchId branch) s' = Some branch
  /\ (title note = p_title params /\ type note = p_type params
      /\ isProtected note = p_isProtected params /\ n_isDeleted note = false
      /\ deriveMime (p_type params) (p_mime params) = Return (mime note))
  /\ (b_noteId branch = noteId note /\ parentNoteId branch = p_parentNoteId params
      /\ prefix branch = p_prefix params /\ b_isDeleted branch = false)
  /\ (forall nid, p_noteId params = Some nid -> noteId note = nid)
  /\ (forall id, id <> noteId note -> getNote id s' = getNote id s)
  /\ (forall id, id <> branchId branch -> getBranch id s' = getBranch id s).
Proof.
  intros Hs Hc Hrun. unfold createNewNote in Hrun.
  destruct (getNote (p_parentNoteId params) s) as [parentNote|]; [|discriminate].
  destruct (String.eqb (p_title params) "" || isBlank (p_title params)); [discriminate|].
  destruct (deriveMime (p_type params) (p_mime params)) as [mime'| |] eqn:Hmime;
    try discriminate.
  cbn [bind] in Hrun.
  assert (Hid : exists nid s0,
             match p_noteId params with
             | Some nid => (nid, s)
             | None => newEntityId s
             end = (nid, s0)
             /\ notes s0 = notes s /\ branches s0 = branches s
             /\ forall nid', p_noteId params = Some nid' -> nid = nid').
  { destruct (p_noteId params) as [nid|].
    - exists nid, s. repeat split. intros nid' E. congruence.
    - eexists _, _. split; [reflexivity|]. repeat split. discriminate. }
  destruct Hid as (nid & s0 & E & Hn0 & Hb0 & Hforced).
  rewrite E, newEntityId_genId in Hrun. cbv beta iota zeta in Hrun.
  injection Hrun as <- <- <-.
  match goal with
  | |- context [copyChildAttributes parentNote ?n _] => set (note := n)
  end.
  match goal with
  | |- context [saveBranch _ ?st] => set (s1 := st)
  end.
  match goal with
  | |- context [saveBranch ?b s1] => set (branch := b)
  end.
  assert (Hn : notes (copyChildAttributes parentNote note
                        (scanForLinks note (saveBranch branch s1)))
               = upsert noteId note (notes s)).
  { rewrite (proj1 (Hc _ _ _)), (proj1 (Hs _ _)), <- Hn0. reflexivity. }
  assert (Hb : branches (copyChildAttributes parentNote note
                           (scanForLinks note (saveBranch branch s1)))
               = upsert branchId branch (branches s)).
  { rewrite (proj2 (Hc _ _ _)), (proj2 (Hs _ _)), <- Hb0. reflexivity. }
  unfold getNote, getBranch. rewrite Hn, Hb.
  split; [apply find_upsert_same|]. split; [apply find_upsert_same|].
  split; [repeat split; reflexivity|]. split; [repeat split; reflexivity|].
  split; [exact Hforced|]. split.
  - intros id Hne. apply find_upsert_other. intros K. apply Hne. symmetry. exact K.
  - intros id Hne. apply find_upsert_other. intros K. apply Hne. symmetry. exact K.
Qed.


End Lookup.

Lemma createNewNote_lookup_witness :
  exists note branch s',
    createNewNote c5_session (fun _ s => s) (fun _ _ s => s) c5_params c5_store
    = Return (note, branch, s')
    /\ getNote (noteId note) s' = Some note
    /\ getBranch (branchId branch) s' = Some branch.
Proof.
  destruct (createNewNote c5_session (fun _ s => s) (fun _ _ s => s) c5_params c5_store)
    as [[[note branch] s']| |] eqn:E; try (vm_compute in E; discriminate).
  exists note, branch, s'. split; [reflexivity|].
  destruct (createNewNote_lookup c5_session (fun _ s => s) (fun _ _ s => s) c5_params
              c5_store note branch s') as (Hn & Hb & _).
  - intros n st. split; reflexivity.
  - intros p n st. split; reflexivity.
  - exact E.
  - split; [exact Hn | exact Hb].
Defined.


(** What [saveLinks] raises on a relation map that is no JSON, [updateNote]
    raises. *)
Example updateNote_raises_with_saveLinks :
  updateNote c8_session (fun _ _ _ => Throw "SyntaxError") (fun _ _ _ => false)
    (fun _ s => s) "n1" (mkNoteUpdates "renamed" false (Some "{")) c8_store
  = Throw "SyntaxError".
Proof. reflexivity. Qed.

(** ** Inheritable attributes of a parent are inherited *)

Lemma addUnique_keeps (l : list NoteShort.Attribute) :
  (forall x y, In x l -> In y l ->
               NoteShort.attributeId x = NoteShort.attributeId y -> x = y) ->
  forall seen a,
    In a l -> existsb (String.eqb (NoteShort.attributeId a)) seen = false ->
    In a (NoteShort.addUnique seen l).
Proof.
  induction l as [|x l IH]; intros Hfun seen a Hin Hseen; [contradiction|].
  assert (Hfun' : forall x0 y, In x0 l -> In y l ->
                               NoteShort.attributeId x0 = NoteShort.attributeId y -> x0 = y).
  { intros x0 y Hx0 Hy. apply Hfun; right; assumption. }
  simpl. destruct Hin as [-> | Hin].
  - rewrite Hseen. left. reflexivity.
  - destruct (existsb (String.eqb (NoteShort.attributeId x)) seen) eqn:E.
    + apply IH; assumption.
    + destruct (String.eqb (NoteShort.attributeId a) (NoteShort.attributeId x)) eqn:K.
      * apply String.eqb_eq in K. left. symmetry.
        apply Hfun; [right; exact Hin | left; reflexivity | exact K].
      * right. apply IH; [exact Hfun' | exact Hin|]. simpl. rewrite K, Hseen. reflexivity.
Qed.

Section Inherit.

Variable treeCache : NoteShort.TreeCache.
Hypothesis Hkeys : wellKeyed treeCache.
Hypothesis Hattrs : attributesKeyed treeCache.

(** X20. Inheritance from a parent.  In a tree cache that stores its notes
    and attributes under their own ids, with an attribute cache that only
    the resolver has filled and that has no entry for the note [A] yet
    (an empty one, say): when [A] is not root and a loaded note [P] other
    than [A] that is not a saved search is one of its parents, the
    attributes of [A] hold every inheritable own attribute of [P] (or the
    attribute seen first under the same id). *)
Theorem getAttributes_inherits (fuel : nat) (A P : NoteShort.NoteShort)
    (attr : NoteShort.Attribute) (cache : NoteShort.AttributeCache)
    (r : list NoteShort.Attribute * NoteShort.AttributeCache) :
  cacheOwnFirst treeCache cache ->
  cache !! NoteShort.noteId A = None ->
  NoteShort.tc_notes treeCache !! NoteShort.noteId A = Some A ->
  NoteShort.noteId A <> "root" ->
  In P (NoteShort.getParentNotes treeCache A) ->
  NoteShort.type P <> "search" ->
  NoteShort.noteId P <> NoteShort.noteId A ->
  In attr (NoteShort.getOwnedAttributes treeCache P) ->
  NoteShort.isInheritable attr = true ->
  NoteShort.getAttributes fuel treeCache A None None cache = Return r ->
  exists attr', In attr' (fst r) /\ NoteShort.attributeId attr' = NoteShort.attributeId attr.
Proof.
  intros Hc Hmiss HA Hroot HP Hsearch Hne Hown Hinh H.
  unfold NoteShort.getAttributes in H.
  destruct (NoteShort.getCachedAttributes fuel treeCache A [] cache) as [[attrs cache']| |] eqn:E;
    try discriminate.
  simpl in H. injection H as <-. simpl.
  destruct fuel as [|fuel]; [discriminate|].
  simpl in E. rewrite Hmiss in E.
  apply String.eqb_neq in Hroot. rewrite Hroot in E.
  match type of E with
  | bind ?parents _ = _ => destruct parents as [st| |] eqn:Eparents; try discriminate
  end.
  simpl in E.
  match type of E with
  | bind ?templates _ = _ => destruct templates as [st'| |] eqn:Etemplates; try discriminate
  end.
  simpl in E. injection E as <- <-.
  assert (Hrec : forall k n c ra rc,
             cacheOwnFirst treeCache c ->
             NoteShort.tc_notes treeCache !! k = Some n ->
             NoteShort.getCachedAttributes fuel treeCache n [NoteShort.noteId A] c
             = Return (ra, rc) ->
             cacheOwnFirst treeCache rc
             /\ (NoteShort.noteId n <> NoteShort.noteId A -> ownFirst treeCache n ra)).
  { intros k n c ra rc Hsound Hn Hr. pose proof (Hkeys k n Hn) as Hk. subst k.
    destruct (getCachedAttributes_ownFirst treeCache Hkeys fuel n _ c ra rc Hsound Hn Hr)
      as [Hs Hi].
    split; [exact Hs|]. intros Hd. apply Hi. simpl.
    apply String.eqb_neq in Hd. rewrite Hd. reflexivity. }
  assert (Hq : exists X, In X (fst st) /\ In attr X).
  { assert (Hst0 : ownLoopInv treeCache A
                     ([NoteShort.getOwnedAttributes treeCache A], cache))
      by (split; [exact Hc | exists []; reflexivity]).
    revert Eparents.
    apply (foldM_reach (ownLoopInv treeCache A)
             (fun st0 => exists X, In X (fst st0) /\ In attr X)
             _ _ P HP).
    - intros [arrs c] y [arrs' c'] Hy [Hsound [rest Hrest]] Hrun.
      simpl in Hsound, Hrest.
      destruct (parent_lookup treeCache A y Hy) as [k Hk].
      destruct (negb (String.eqb (NoteShort.type y) "search")).
      + destruct (NoteShort.getCachedAttributes fuel treeCache y
                    [NoteShort.noteId A] c) as [[ra rc]| |] eqn:Er; try discriminate.
        simpl in Hrun. injection Hrun as <- <-.
        split; simpl.
        * exact (proj1 (Hrec k y c ra rc Hsound Hk Er)).
        * rewrite Hrest. eexists. reflexivity.
      + injection Hrun as <- <-. split; [exact Hsound | exists rest; exact Hrest].
    - intros [arrs c] [arrs' c'] [Hsound _] Hrun. simpl in Hsound.
      destruct (parent_lookup treeCache A P HP) as [k Hk].
      assert (Hty : negb (String.eqb (NoteShort.type P) "search") = true)
        by (apply negb_true_iff, String.eqb_neq; exact Hsearch).
      rewrite Hty in Hrun.
      destruct (NoteShort.getCachedAttributes fuel treeCache P
                  [NoteShort.noteId A] c) as [[ra rc]| |] eqn:Er; try discriminate.
      simpl in Hrun. injection Hrun as <- <-.
      destruct (Hrec k P c ra rc Hsound Hk Er) as [_ Hfirst].
      exists (List.filter NoteShort.isInheritable ra).
      split; [simpl; apply in_or_app; right; left; reflexivity|].
      apply List.filter_In. split; [|exact Hinh].
      destruct (Hfirst Hne) as [rest' ->]. apply in_or_app. left.
      apply addUnique_keeps; [apply owned_by_id; exact Hattrs | exact Hown | reflexivity].
    - intros [arrs c] y [arrs' c'] (X & HX & Ha) Hrun. simpl in HX.
      exists X. split; [|exact Ha]. simpl.
      destruct (negb (String.eqb (NoteShort.type y) "search")).
      + destruct (NoteShort.getCachedAttributes fuel treeCache y
                    [NoteShort.noteId A] c) as [[ra rc]| |]; try discriminate.
        simpl in Hrun. injection Hrun as <- <-. apply in_or_app. left. exact HX.
      + injection Hrun as <- <-. exact HX.
    - exact Hst0. }
  destruct Hq as (X & HX & Ha).
  assert (Hq' : exists X', In X' (fst st') /\ In attr X').
  { revert Etemplates.
    apply (foldM_inv (fun st0 => exists X', In X' (fst st0) /\ In attr X'));
      [|exists X; split; assumption].
    intros [arrs c] ta [arrs' c'] _ (X' & HX' & Ha') Hrun. simpl in HX'.
    exists X'. split; [|exact Ha']. simpl.
    destruct (NoteShort.tc_notes treeCache !! NoteShort.value ta) as [templateNote|].
    - destruct (negb (String.eqb (NoteShort.noteId templateNote) (NoteShort.noteId A))).
      + destruct (NoteShort.getCachedAttributes fuel treeCache templateNote
                    [NoteShort.noteId A] c) as [[ra rc]| |]; try discriminate.
        simpl in Hrun. injection Hrun as <- <-. apply in_or_app. left. exact HX'.
      + injection Hrun as <- <-. exact HX'.
    - injection Hrun as <- <-. exact HX'. }
  destruct Hq' as (X' & HX' & Ha').
  destruct (addUnique_ids [] (concat (fst st')) attr) as [Hseen | Hex].
  - apply in_concat. exists X'. split; assumption.
  - discriminate.
  - exact Hex.
Qed.

End Inherit.

Lemma hs_treeCache_attributesKeyed : attributesKeyed hs_treeCache.
Proof.
  intros k a H. unfold hs_treeCache in H. simpl in H.
  apply lookup_insert_Some in H as [[<- <-] | [_ H]]; [reflexivity|].
  rewrite lookup_empty in H. discriminate.
Qed.

Lemma getAttributes_inherits_witness :
  exists r,
    NoteShort.getAttributes 10 hs_treeCache hs_a None None ∅ = Return r
    /\ exists attr', In attr' (fst r) /\ NoteShort.attributeId attr' = "rr".
Proof.
  destruct (NoteShort.getAttributes 10 hs_treeCache hs_a None None ∅) as [r| |] eqn:E;
    try (vm_compute in E; discriminate).
  exists r. split; [reflexivity|].
  apply (getAttributes_inherits hs_treeCache hs_treeCache_wellKeyed
           hs_treeCache_attributesKeyed 10 hs_a hs_root
           (NoteShort.mkAttribute "rr" "root" "relation" "template" "a" true) ∅ r).
  - intros k attrs n H. rewrite lookup_empty in H. discriminate.
  - apply lookup_empty.
  - vm_compute. reflexivity.
  - discriminate.
  - vm_compute. left. reflexivity.
  - discriminate.
  - discriminate.
  - vm_compute. left. reflexivity.
  - reflexivity.
  - exact E.
Defined.
